(** * UsenetStreamer: result helpers and TMDB client

    A shallow embedding of the two JavaScript sources of the repository,
    [src/services/tmdb.js] and the result helper module (the file that
    exports [annotateNzbResult] ... [safeStat]), and the properties of them
    that the specification states.

    - [Js]           : the JavaScript values and the few language operations
                       the sources use (truthiness, property reads, strict
                       equality, number conversion, [Array.prototype.sort]).
    - [Helpers]      : the result helper module.
    - [Tmdb]         : the TMDB client: scoring and choice of localized
                       titles, resolution of a TMDB id, the requests that
                       load the localization of a title.
    - [JsFacts], [HelpersFacts], [TmdbFacts] : their properties.

    A function that can throw returns a [Completion]; the asynchronous
    functions of the client, whose only effects are HTTP requests and
    warnings, run in the state monad [Tmdb.IO] over the trace of those. *)

From Stdlib Require Import List String Ascii Bool Arith ZArith QArith Qround Lia Lqa.
From Stdlib Require Import Sorted Permutation.
Import ListNotations.

Set Warnings "-register-all".
Open Scope string_scope.
Open Scope list_scope.

(* ================================================================== *)
(** * JavaScript values *)
(* ================================================================== *)

Module Js.

(** A JavaScript number.  The finite doubles are a subset of the
    rationals; the sources only compare numbers, subtract them to obtain a
    sign and take a maximum, and on finite doubles these agree with the
    exact operations, so a finite number is kept as a rational. *)
Inductive Num : Type :=
| NaN
| PosInf
| NegInf
| Fin (q : Q).

(** Plain data: the values that reach the sources from JSON payloads and
    from the surrounding pipeline.  A string is its UTF-8 bytes (a
    character outside ASCII is a run of bytes above 127).  An object is
    its list of own data properties in insertion order, a [Map] its list
    of entries, a [Set] its list of members.  Every array, object, [Map]
    and [Set] node of a value is an object of its own (no object is
    reachable twice). *)
Inductive Val : Type :=
| VUndefined
| VNull
| VBool (b : bool)
| VNum (n : Num)
| VStr (s : string)
| VArr (items : list Val)
| VObj (fields : list (string * Val))
| VMap (entries : list (Val * Val))
| VSet (members : list Val).

(** The outcome of evaluating an expression or a call: a value, or a
    thrown exception. *)
Inductive Completion (A : Type) : Type :=
| Normal (a : A)
| Throw (e : Val).
Arguments Normal {A} a.
Arguments Throw {A} e.

Definition bind {A B} (m : Completion A) (k : A -> Completion B) : Completion B :=
  match m with
  | Normal a => k a
  | Throw e => Throw e
  end.

Declare Scope js_scope.
Delimit Scope js_scope with js.
Notation "x <- m ;; k" := (bind m (fun x => k))
  (at level 61, m at next level, right associativity) : js_scope.
Notation "' p <- m ;; k" := (bind m (fun x => let 'p := x in k))
  (at level 61, p pattern, m at next level, right associativity) : js_scope.
Open Scope js_scope.

(** [Array.prototype.map] with a callback that can throw. *)
Fixpoint mapM {A B} (f : A -> Completion B) (l : list A) : Completion (list B) :=
  match l with
  | [] => Normal []
  | x :: rest => y <- f x ;; ys <- mapM f rest ;; Normal (y :: ys)
  end.

(** A [for] loop or [forEach] over [l] that updates a state. *)
Fixpoint foldM {A S} (f : S -> A -> Completion S) (s : S) (l : list A) : Completion S :=
  match l with
  | [] => Normal s
  | x :: rest => s' <- f s x ;; foldM f s' rest
  end.

(** The exception the engine throws when a property of [null] or
    [undefined] is read, when a value that is not a function is called and
    when a value that is not iterable is iterated.  Its message is the
    engine's own and is left out. *)
Definition TypeError : Val := VObj [("name", VStr "TypeError")].

(** ** Numbers *)

Definition num (z : Z) : Val := VNum (Fin (inject_Z z)).

(** [x === y] on numbers. *)
Definition num_eqb (x y : Num) : bool :=
  match x, y with
  | Fin a, Fin b => Qeq_bool a b
  | PosInf, PosInf => true
  | NegInf, NegInf => true
  | _, _ => false
  end.

(** [x < y] on numbers. *)
Definition num_ltb (x y : Num) : bool :=
  match x, y with
  | NaN, _ | _, NaN => false
  | _, NegInf => false
  | NegInf, _ => true
  | PosInf, _ => false
  | Fin _, PosInf => true
  | Fin a, Fin b => negb (Qle_bool b a)
  end.

(** [x <= y] on numbers. *)
Definition num_leb (x y : Num) : bool :=
  match x, y with
  | NaN, _ | _, NaN => false
  | NegInf, _ => true
  | _, PosInf => true
  | _, NegInf => false
  | PosInf, _ => false
  | Fin a, Fin b => Qle_bool a b
  end.

(** [x >= y] on numbers. *)
Definition num_geb (x y : Num) : bool := num_leb y x.

(** [x - y] on numbers.  On finite doubles the difference is rounded, which
    keeps its sign and never makes it [NaN]; the exact difference stands
    for it. *)
Definition num_sub (x y : Num) : Num :=
  match x, y with
  | NaN, _ | _, NaN => NaN
  | PosInf, PosInf => NaN
  | NegInf, NegInf => NaN
  | PosInf, _ => PosInf
  | NegInf, _ => NegInf
  | Fin _, PosInf => NegInf
  | Fin _, NegInf => PosInf
  | Fin a, Fin b => Fin (a - b)
  end.

(** [Math.max(x, y)] on numbers. *)
Definition num_max (x y : Num) : Num :=
  match x, y with
  | NaN, _ | _, NaN => NaN
  | _, _ => if num_ltb x y then y else x
  end.

Definition num_of_nat (n : nat) : Num := Fin (inject_Z (Z.of_nat n)).

(** [Number.isFinite(v)]: no conversion, a value that is not a number is
    not finite. *)
Definition Number_isFinite (v : Val) : bool :=
  match v with
  | VNum (Fin _) => true
  | _ => false
  end.

(** ** Truthiness, types, equality *)

(** [ToBoolean]. *)
Definition truthy (v : Val) : bool :=
  match v with
  | VUndefined | VNull => false
  | VBool b => b
  | VNum NaN => false
  | VNum (Fin q) => negb (Qeq_bool q 0)
  | VNum _ => true
  | VStr s => negb (s =? "")
  | VArr _ | VObj _ | VMap _ | VSet _ => true
  end.

Definition falsy (v : Val) : bool := negb (truthy v).

(** [a || b] and [a ?? b] on values that are already evaluated (the right
    operands in the sources are constants or property reads that cannot
    throw once the left one was read). *)
Definition or_else (a b : Val) : Val := if truthy a then a else b.

Definition nullish (v : Val) : bool :=
  match v with VUndefined | VNull => true | _ => false end.

Definition coalesce (a b : Val) : Val := if nullish a then b else a.

(** [typeof v === 'object']. *)
Definition typeof_object (v : Val) : bool :=
  match v with
  | VNull | VArr _ | VObj _ | VMap _ | VSet _ => true
  | _ => false
  end.

(** [typeof v === 'string']. *)
Definition typeof_string (v : Val) : bool :=
  match v with VStr _ => true | _ => false end.

Definition Array_isArray (v : Val) : bool :=
  match v with VArr _ => true | _ => false end.

(** The elements of a value that passed [Array.isArray]. *)
Definition elements (v : Val) : list Val :=
  match v with VArr items => items | _ => [] end.

(** [x === y].  Two objects are strictly equal when they are the same
    object; the two operands of every comparison in the sources come from
    different places of the data, hence are different objects. *)
Definition strict_eq (x y : Val) : bool :=
  match x, y with
  | VUndefined, VUndefined => true
  | VNull, VNull => true
  | VBool a, VBool b => Bool.eqb a b
  | VNum a, VNum b => num_eqb a b
  | VStr a, VStr b => (a =? b)
  | _, _ => false
  end.

(** [SameValueZero], the equality of [Map] and [Set] keys and of
    [Array.prototype.includes]: as [===], but [NaN] equals [NaN]. *)
Definition sameValueZero (x y : Val) : bool :=
  match x, y with
  | VNum NaN, VNum NaN => true
  | _, _ => strict_eq x y
  end.

(** ** Objects *)

Fixpoint lookup {A} (k : string) (fs : list (string * A)) : option A :=
  match fs with
  | [] => None
  | (k', v) :: rest => if k' =? k then Some v else lookup k rest
  end.

(** [o[k] = v] on the property list: an existing property keeps its place. *)
Fixpoint set {A} (k : string) (v : A) (fs : list (string * A)) : list (string * A) :=
  match fs with
  | [] => [(k, v)]
  | (k', v') :: rest => if k' =? k then (k', v) :: rest else (k', v') :: set k v rest
  end.

(** [o[k] = v] on an object that a literal created: [__proto__] names the
    accessor of [Object.prototype], whose setter changes the prototype and
    defines no property. *)
Definition assignProperty {A} (k : string) (v : A) (fs : list (string * A))
  : list (string * A) :=
  if k =? "__proto__" then fs else set k v fs.

Definition has {A} (k : string) (fs : list (string * A)) : bool :=
  match lookup k fs with Some _ => true | None => false end.

Definition field (k : string) (fs : list (string * Val)) : Val :=
  match lookup k fs with
  | Some v => v
  | None => VUndefined
  end.

(** Decimal spelling of an array index, the property name of an element. *)
Definition digit (n : nat) : ascii := ascii_of_nat (48 + n).

Fixpoint index_name_aux (fuel n : nat) (acc : string) : string :=
  match fuel with
  | O => acc
  | S fuel' =>
      let acc' := String (digit (n mod 10)) acc in
      if n / 10 =? 0 then acc' else index_name_aux fuel' (n / 10) acc'
  end%nat.

Definition index_name (n : nat) : string := index_name_aux (S n) n "".

Fixpoint indexed_from (i : nat) (l : list Val) : list (string * Val) :=
  match l with
  | [] => []
  | x :: rest => (index_name i, x) :: indexed_from (S i) rest
  end.

(** [{...target, ...source}]: the properties of [source] are defined on
    the copy in their order, overriding those already there. *)
Definition assign (target source : list (string * Val)) : list (string * Val) :=
  fold_left (fun acc kv => set (fst kv) (snd kv) acc) source target.

(** ** The platform

    The built-in functions whose result depends on Unicode tables, on
    number syntax or on the conversion of an object to a primitive.  The
    sources only pass their results on, so they are kept abstract; the
    reference instance [ascii_platform] below serves to run examples. *)
Class Platform : Type := {
  (** [String.prototype.toLowerCase], [toUpperCase], [trim],
      [normalize('NFKD')]. *)
  toLowerCase : string -> string;
  toUpperCase : string -> string;
  trim : string -> string;
  normalizeNFKD : string -> string;
  (** The characters a string yields when it is iterated or spread, and
      its [length]. *)
  characters : string -> list string;
  string_length : string -> nat;
  (** [ToNumber] of a string, [ToString] of a number. *)
  StringToNumber : string -> Num;
  NumberToString : Num -> string;
  (** [ToNumber] and [ToString] of an array, object, [Map] or [Set]: they
      run [ToPrimitive], which throws a [TypeError] when the object has own
      data properties in place of [valueOf] and [toString]. *)
  ObjectToNumber : Val -> Completion Num;
  ObjectToString : Val -> Completion string;
  (** [encodeURIComponent] throws a [URIError] on a lone surrogate. *)
  encodeURIComponent : string -> Completion string
}.

Section WithPlatform.
Context {platform : Platform}.

(** [ToNumber]. *)
Definition ToNumber (v : Val) : Completion Num :=
  match v with
  | VUndefined => Normal NaN
  | VNull => Normal (Fin 0)
  | VBool b => Normal (Fin (if b then 1 else 0))
  | VNum n => Normal n
  | VStr s => Normal (StringToNumber s)
  | VArr _ | VObj _ | VMap _ | VSet _ => ObjectToNumber v
  end.

(** [ToString]. *)
Definition ToString (v : Val) : Completion string :=
  match v with
  | VUndefined => Normal "undefined"
  | VNull => Normal "null"
  | VBool b => Normal (if b then "true" else "false")
  | VNum n => Normal (NumberToString n)
  | VStr s => Normal s
  | VArr _ | VObj _ | VMap _ | VSet _ => ObjectToString v
  end.

(** [x - y] on values. *)
Definition sub (x y : Val) : Completion Val :=
  a <- ToNumber x ;;
  b <- ToNumber y ;;
  Normal (VNum (num_sub a b)).

(** [v.k] for the property names the sources read.  None of them is an
    array index or a property that objects inherit, so on an array only
    [length] is found, on a [Map] or [Set] only [size], on a string only
    [length]; reading a property of [null] or [undefined] throws. *)
Definition get (v : Val) (k : string) : Completion Val :=
  match v with
  | VUndefined | VNull => Throw TypeError
  | VObj fs => Normal (field k fs)
  | VArr l => Normal (if k =? "length" then VNum (num_of_nat (List.length l)) else VUndefined)
  | VStr s => Normal (if k =? "length" then VNum (num_of_nat (string_length s)) else VUndefined)
  | VMap m => Normal (if k =? "size" then VNum (num_of_nat (List.length m)) else VUndefined)
  | VSet m => Normal (if k =? "size" then VNum (num_of_nat (List.length m)) else VUndefined)
  | VBool _ | VNum _ => Normal VUndefined
  end.

(** [v?.k]. *)
Definition get_opt (v : Val) (k : string) : Val :=
  match get v k with
  | Normal x => x
  | Throw _ => VUndefined
  end.

(** [v.toLowerCase()] and [v.toUpperCase()]: only a string has the method;
    on [null] and [undefined] the property read throws, on any other value
    the call of a value that is not a function throws. *)
Definition call_toLowerCase (v : Val) : Completion Val :=
  match v with
  | VStr s => Normal (VStr (toLowerCase s))
  | _ => Throw TypeError
  end.

Definition call_toUpperCase (v : Val) : Completion Val :=
  match v with
  | VStr s => Normal (VStr (toUpperCase s))
  | _ => Throw TypeError
  end.

(** The own enumerable properties that [{...v}] copies: the fields of an
    object, the elements of an array and the characters of a string under
    their indices, nothing for the other values. *)
Definition own_enumerable (v : Val) : list (string * Val) :=
  match v with
  | VObj fs => fs
  | VArr l => indexed_from 0 l
  | VStr s => indexed_from 0 (map VStr (characters s))
  | _ => []
  end.

(** The values [for (const x of v)] runs through; a value that is not
    iterable throws. *)
Definition iterate (v : Val) : Completion (list Val) :=
  match v with
  | VArr l => Normal l
  | VSet l => Normal l
  | VMap m => Normal (map (fun kv => VArr [fst kv; snd kv]) m)
  | VStr s => Normal (map VStr (characters s))
  | _ => Throw TypeError
  end.

(** [m.get(k)] on the entries of a [Map]. *)
Fixpoint Map_get {A} (k : Val) (m : list (Val * A)) : option A :=
  match m with
  | [] => None
  | (k', v) :: rest => if sameValueZero k' k then Some v else Map_get k rest
  end.

(** [m.set(k, v)]: an existing key keeps its place in the iteration order. *)
Fixpoint Map_set {A} (k : Val) (v : A) (m : list (Val * A)) : list (Val * A) :=
  match m with
  | [] => [(k, v)]
  | (k', v') :: rest =>
      if sameValueZero k' k then (k', v) :: rest else (k', v') :: Map_set k v rest
  end.

(** [s.has(x)] on the members of a [Set]. *)
Definition Set_has (x : Val) (s : list Val) : bool :=
  existsb (fun y => sameValueZero y x) s.

(** ** [Array.prototype.sort]

    [sort] is stable.  The comparator's result [v] orders [x] after [y]
    when [v > 0]; a [NaN] counts as [0].  The engine chooses which pairs it
    compares; for a comparator that is a total preorder on the elements
    every stable sort gives the same array, here computed by insertion. *)
Section Sort.
Context {A : Type} (comparefn : A -> A -> Completion Val).

Definition comes_after (x y : A) : Completion bool :=
  v <- comparefn x y ;;
  n <- ToNumber v ;;
  Normal (num_ltb (Fin 0) n).

Fixpoint sort_insert (x : A) (sorted : list A) : Completion (list A) :=
  match sorted with
  | [] => Normal [x]
  | y :: rest =>
      after <- comes_after x y ;;
      if after then (r <- sort_insert x rest ;; Normal (y :: r))
      else Normal (x :: y :: rest)
  end.

Fixpoint sort_list (l : list A) : Completion (list A) :=
  match l with
  | [] => Normal []
  | x :: rest => s <- sort_list rest ;; sort_insert x s
  end.

End Sort.

(** [Math.max(x, y)] on values. *)
Definition Math_max (x y : Val) : Completion Num :=
  a <- ToNumber x ;;
  b <- ToNumber y ;;
  Normal (num_max a b).

(** [m.get(k)] and [s.has(x)] as method calls on any value: only a [Map]
    has [get], only a [Map] and a [Set] have [has]. *)
Definition call_get (m k : Val) : Completion Val :=
  match m with
  | VMap entries =>
      Normal (match Map_get k entries with Some v => v | None => VUndefined end)
  | _ => Throw TypeError
  end.

Definition call_has (s x : Val) : Completion bool :=
  match s with
  | VSet members => Normal (Set_has x members)
  | VMap entries => Normal (Set_has x (map fst entries))
  | _ => Throw TypeError
  end.

Definition is_undefined (v : Val) : bool :=
  match v with VUndefined => true | _ => false end.

(** [items.sort(comparefn)] on an array of values: the [undefined]
    elements are not compared and go to the end. *)
Definition Array_sort (comparefn : Val -> Val -> Completion Val) (items : list Val)
  : Completion (list Val) :=
  s <- sort_list comparefn (filter (fun v => negb (is_undefined v)) items) ;;
  Normal (s ++ filter is_undefined items).

End WithPlatform.

(** ** A reference platform

    ASCII strings: letters change case, blanks are trimmed, NFKD leaves
    the text as it is, a string of decimal digits is that number.  Used
    only to evaluate the sources on concrete inputs. *)
Definition ascii_lower (c : ascii) : ascii :=
  let n := nat_of_ascii c in
  if ((65 <=? n) && (n <=? 90))%nat then ascii_of_nat (n + 32) else c.

Definition ascii_upper (c : ascii) : ascii :=
  let n := nat_of_ascii c in
  if ((97 <=? n) && (n <=? 122))%nat then ascii_of_nat (n - 32) else c.

Fixpoint string_map (f : ascii -> ascii) (s : string) : string :=
  match s with
  | EmptyString => EmptyString
  | String c rest => String (f c) (string_map f rest)
  end.

Definition is_blank (c : ascii) : bool :=
  let n := nat_of_ascii c in ((n =? 32) || ((9 <=? n) && (n <=? 13)))%nat.

Fixpoint trim_left (s : string) : string :=
  match s with
  | String c rest => if is_blank c then trim_left rest else s
  | EmptyString => EmptyString
  end.

Fixpoint string_rev (s acc : string) : string :=
  match s with
  | EmptyString => acc
  | String c rest => string_rev rest (String c acc)
  end.

Definition ascii_trim (s : string) : string :=
  string_rev (trim_left (string_rev (trim_left s) "")) "".

Fixpoint string_chars (s : string) : list string :=
  match s with
  | EmptyString => []
  | String c rest => String c "" :: string_chars rest
  end.

Fixpoint digits_value (s : string) (acc : nat) : option nat :=
  match s with
  | EmptyString => Some acc
  | String c rest =>
      let n := nat_of_ascii c in
      if ((48 <=? n) && (n <=? 57))%nat then digits_value rest (10 * acc + (n - 48)) else None
  end.

Definition ascii_number (s : string) : Num :=
  match digits_value (ascii_trim s) 0 with
  | Some n => num_of_nat n
  | None => NaN
  end.

Definition ascii_number_string (n : Num) : string :=
  match n with
  | NaN => "NaN"
  | PosInf => "Infinity"
  | NegInf => "-Infinity"
  | Fin q =>
      (* integers only; the examples use no other number *)
      let z := Qnum q in
      if (z <? 0)%Z then String.append "-" (index_name (Z.to_nat (- z)))
      else index_name (Z.to_nat z)
  end.

(** An object without own [toString] and [valueOf] converts through
    [Object.prototype.toString]; one that has an own [toString] data
    property cannot be converted. *)
Definition ascii_object_string (v : Val) : Completion string :=
  match v with
  | VObj fs => if has "toString" fs then Throw TypeError else Normal "[object Object]"
  | VMap _ => Normal "[object Map]"
  | VSet _ => Normal "[object Set]"
  | VArr [] => Normal ""
  | _ => Normal "[object Array]"
  end.

Definition ascii_object_number (v : Val) : Completion Num :=
  s <- ascii_object_string v ;; Normal (ascii_number s).

#[export] Instance ascii_platform : Platform := {|
  toLowerCase := string_map ascii_lower;
  toUpperCase := string_map ascii_upper;
  trim := ascii_trim;
  normalizeNFKD := fun s => s;
  characters := string_chars;
  string_length := String.length;
  StringToNumber := ascii_number;
  NumberToString := ascii_number_string;
  ObjectToNumber := ascii_object_number;
  ObjectToString := ascii_object_string;
  encodeURIComponent := fun s => Normal s
|}.

End Js.

(* ================================================================== *)
(** * The result helpers *)
(* ================================================================== *)

Module Helpers.
Import Js.

(** The two functions the module imports: the release-name parser
    ([../services/metadata/releaseParser]) and the title normaliser
    ([./parsers]).  Both are pure functions of their argument. *)
Class Collaborators : Type := {
  parseReleaseMetadata : Val -> Val;
  normalizeReleaseTitle : Val -> Val
}.

(** The array functions of the module receive [results] by reference:
    they hand back either that very array object or another value, and
    [Array.prototype.sort] reorders the array it is called on. *)
Inductive Returned : Type :=
| Argument
| Fresh (v : Val).

(** The two things a caller can observe of a call on its array: what the
    call returned, and what the array holds afterwards. *)
Record ArrayCall : Type := {
  returned : Returned;
  argument_after : Val
}.

(** The value a call returned, for a caller that passed [results]. *)
Definition value_of (c : ArrayCall) : Val :=
  match returned c with
  | Argument => argument_after c
  | Fresh v => v
  end.

(** [x <= y] for two operands that passed [Number.isFinite]. *)
Definition number_leb (x y : Val) : bool :=
  match x, y with
  | VNum a, VNum b => num_leb a b
  | _, _ => false
  end.

(** [Array.prototype.some] with a callback that can throw. *)
Fixpoint some (f : Val -> Completion bool) (l : list Val) : Completion bool :=
  match l with
  | [] => Normal false
  | x :: rest => b <- f x ;; if b then Normal true else some f rest
  end.

(** [l] holds some of the items of [l'], in the order they have there. *)
Inductive Subsequence {A : Type} : list A -> list A -> Prop :=
| Subsequence_nil : Subsequence [] []
| Subsequence_skip (x : A) (l l' : list A) : Subsequence l l' -> Subsequence l (x :: l')
| Subsequence_keep (x : A) (l l' : list A) :
    Subsequence l l' -> Subsequence (x :: l) (x :: l').

Section WithCollaborators.
Context {platform : Platform} {collaborators : Collaborators}.

(** [function annotateNzbResult(result, sortIndex = 0)] *)
Definition annotateNzbResult (result sortIndex : Val) : Completion Val :=
  let sortIndex := if is_undefined sortIndex then num 0 else sortIndex in
  if falsy result || negb (typeof_object result) then Normal result
  else
    title <- get result "title" ;;
    let metadata := parseReleaseMetadata (or_else title (VStr "")) in
    title' <- get result "title" ;;
    Normal (VObj
      (set "normalizedTitle" (normalizeReleaseTitle title')
        (set "sortIndex" sortIndex
          (assign (assign [] (own_enumerable result)) (own_enumerable metadata))))).

(** [function applyMaxSizeFilter(results, maxSizeBytes)] *)
Definition keepsSize (maxSizeBytes result : Val) : bool :=
  let size := get_opt result "size" in
  negb (Number_isFinite size) || number_leb size maxSizeBytes.

Definition applyMaxSizeFilter (results maxSizeBytes : Val) : Returned :=
  if negb (Array_isArray results) || negb (Number_isFinite maxSizeBytes)
     || number_leb maxSizeBytes (num 0)
  then Argument
  else Fresh (VArr (filter (keepsSize maxSizeBytes) (elements results))).

(** [function resultMatchesPreferredLanguage(result, preferredLanguage)] *)
Definition resultMatchesPreferredLanguage (result preferredLanguage : Val)
  : Completion bool :=
  if falsy preferredLanguage || falsy result then Normal false
  else
    normalized <- call_toLowerCase preferredLanguage ;;
    language <- get result "language" ;;
    single <- (if truthy language
               then (l <- call_toLowerCase language ;; Normal (strict_eq l normalized))
               else Normal false) ;;
    if single then Normal true
    else
      languages <- get result "languages" ;;
      match languages with
      | VArr langs =>
          some (fun lang =>
                  if truthy lang
                  then (l <- call_toLowerCase lang ;; Normal (strict_eq l normalized))
                  else Normal false) langs
      | _ => Normal false
      end.

(** [function compareQualityThenSize(a, b)] *)
Definition finiteOrZero (size : Val) : Val :=
  if Number_isFinite size then size else num 0.

Definition compareQualityThenSize (a b : Val) : Completion Val :=
  aRank <- get a "qualityRank" ;;
  bRank <- get b "qualityRank" ;;
  if negb (strict_eq aRank bRank) then sub bRank aRank
  else
    aSize0 <- get a "size" ;;
    let aSize := finiteOrZero aSize0 in
    bSize0 <- get b "size" ;;
    let bSize := finiteOrZero bSize0 in
    sub bSize aSize.

(** [function sortAnnotatedResults(results, sortMode, preferredLanguage)] *)
Definition splitByLanguage (preferredLanguage : Val) (acc : list Val * list Val)
  (result : Val) : Completion (list Val * list Val) :=
  let '(preferred, others) := acc in
  m <- resultMatchesPreferredLanguage result preferredLanguage ;;
  if m then Normal (preferred ++ [result], others)
  else Normal (preferred, others ++ [result]).

Definition sortAnnotatedResults (results sortMode preferredLanguage : Val)
  : Completion ArrayCall :=
  match results with
  | VArr [] => Normal {| returned := Argument; argument_after := results |}
  | VArr items =>
      if strict_eq sortMode (VStr "language_quality_size") && truthy preferredLanguage
      then
        '(preferred, others) <- foldM (splitByLanguage preferredLanguage) ([], []) items ;;
        preferred' <- Array_sort compareQualityThenSize preferred ;;
        others' <- Array_sort compareQualityThenSize others ;;
        Normal {| returned := Fresh (VArr (preferred' ++ others'));
                  argument_after := results |}
      else
        sorted <- Array_sort compareQualityThenSize items ;;
        Normal {| returned := Argument; argument_after := VArr sorted |}
  | _ => Normal {| returned := Argument; argument_after := results |}
  end.

(** [function prepareSortedResults(results, options = {})] *)
Definition prepareSortedResults (results options : Val) : Completion ArrayCall :=
  let options := if is_undefined options then VObj [] else options in
  maxSizeBytes <- get options "maxSizeBytes" ;;
  sortMode <- get options "sortMode" ;;
  preferredLanguage <- get options "preferredLanguage" ;;
  match applyMaxSizeFilter results maxSizeBytes with
  | Argument => sortAnnotatedResults results sortMode preferredLanguage
  | Fresh working =>
      c <- sortAnnotatedResults working sortMode preferredLanguage ;;
      Normal {| returned := Fresh (value_of c); argument_after := results |}
  end.

(** [function triageStatusRank(status)] *)
Definition triageStatusRank (status : Val) : nat :=
  match status with
  | VStr s =>
      if (s =? "blocked") || (s =? "fetch-error") || (s =? "error") then 4
      else if s =? "verified" then 3
      else if s =? "unverified" then 2
      else if (s =? "pending") || (s =? "skipped") then 1
      else 0
  | _ => 0
  end.

(** [Array.isArray(x) ? x.slice() : []] and [Array.isArray(x) ? x : []] *)
Definition arrayOrEmpty (x : Val) : Val :=
  match x with
  | VArr items => VArr items
  | _ => VArr []
  end.

(** The entry [buildTriageTitleMap] stores for a decision. *)
Definition titleEntry (status normalizedTitle downloadUrl decision : Val)
  : Completion Val :=
  blockers <- get decision "blockers" ;;
  warnings <- get decision "warnings" ;;
  archiveFindings <- get decision "archiveFindings" ;;
  fileCount <- get decision "fileCount" ;;
  title <- get decision "title" ;;
  publishDateMs <- get decision "publishDateMs" ;;
  ageDays <- get decision "ageDays" ;;
  Normal (VObj
    [("status", status);
     ("blockers", arrayOrEmpty blockers);
     ("warnings", arrayOrEmpty warnings);
     ("archiveFindings", arrayOrEmpty archiveFindings);
     ("fileCount", coalesce fileCount VNull);
     ("normalizedTitle", normalizedTitle);
     ("title", or_else title VNull);
     ("sourceDownloadUrl", downloadUrl);
     ("publishDateMs", coalesce publishDateMs VNull);
     ("ageDays", coalesce ageDays VNull)]).

(** The title under which a decision is filed:
    [decision.normalizedTitle || normalizeReleaseTitle(decision.title)]. *)
Definition decisionTitle (decision : Val) : Completion Val :=
  own <- get decision "normalizedTitle" ;;
  if truthy own then Normal own
  else (title <- get decision "title" ;; Normal (normalizeReleaseTitle title)).

(** The body of [decisions.forEach((decision, downloadUrl) => ...)]. *)
Definition titleMapStep (titleMap : list (Val * Val)) (entry : Val * Val)
  : Completion (list (Val * Val)) :=
  let '(downloadUrl, decision) := entry in
  if falsy decision then Normal titleMap
  else
    status <- get decision "status" ;;
    if falsy status || strict_eq status (VStr "pending") || strict_eq status (VStr "skipped")
    then Normal titleMap
    else
      normalizedTitle <- decisionTitle decision ;;
      if falsy normalizedTitle then Normal titleMap
      else
        replace <- match Map_get normalizedTitle titleMap with
                   | None => Normal true
                   | Some existing =>
                       if falsy existing then Normal true
                       else (existingStatus <- get existing "status" ;;
                             Normal (triageStatusRank existingStatus
                                     <=? triageStatusRank status)%nat)
                   end ;;
        if replace
        then (e <- titleEntry status normalizedTitle downloadUrl decision ;;
              Normal (Map_set normalizedTitle e titleMap))
        else Normal titleMap.

(** [function buildTriageTitleMap(decisions)] *)
Definition buildTriageTitleMap (decisions : Val) : Completion Val :=
  match decisions with
  | VMap entries =>
      titleMap <- foldM titleMapStep [] entries ;;
      Normal (VMap titleMap)
  | _ => Normal (VMap [])
  end.

(** [function prioritizeTriageCandidates(results, maxCandidates)] *)
Definition candidateKey (result : Val) : Completion Val :=
  own <- get result "normalizedTitle" ;;
  if truthy own then Normal own
  else
    title <- get result "title" ;;
    let normalized := normalizeReleaseTitle title in
    if truthy normalized then Normal normalized
    else get result "downloadUrl".

Fixpoint prioritizeLoop (maxCandidates : Val) (seenTitles selected results : list Val)
  : Completion (list Val) :=
  match results with
  | [] => Normal selected
  | result :: rest =>
      if falsy result then prioritizeLoop maxCandidates seenTitles selected rest
      else
        normalizedTitle <- candidateKey result ;;
        if Set_has normalizedTitle seenTitles
        then prioritizeLoop maxCandidates seenTitles selected rest
        else
          let seenTitles := seenTitles ++ [normalizedTitle] in
          let selected := selected ++ [result] in
          limit <- Math_max (num 1) maxCandidates ;;
          if num_geb (num_of_nat (List.length selected)) limit then Normal selected
          else prioritizeLoop maxCandidates seenTitles selected rest
  end.

Definition prioritizeTriageCandidates (results maxCandidates : Val) : Completion Val :=
  if negb (Array_isArray results) || (List.length (elements results) =? 0)%nat
  then Normal (VArr [])
  else
    selected <- prioritizeLoop maxCandidates [] [] (elements results) ;;
    Normal (VArr selected).

(** [function triageDecisionsMatchStatuses(decisionMap, candidates, allowedStatuses)] *)
Fixpoint matchLoop (decisionMap allowedStatuses : Val) (candidates : list Val)
  : Completion bool :=
  match candidates with
  | [] => Normal true
  | candidate :: rest =>
      downloadUrl <- get candidate "downloadUrl" ;;
      decision <- call_get decisionMap downloadUrl ;;
      if falsy decision then Normal false
      else
        status <- get decision "status" ;;
        allowed <- call_has allowedStatuses status ;;
        if allowed then matchLoop decisionMap allowedStatuses rest
        else Normal false
  end.

Definition triageDecisionsMatchStatuses (decisionMap candidates allowedStatuses : Val)
  : Completion bool :=
  if falsy decisionMap || falsy candidates then Normal false
  else
    len <- get candidates "length" ;;
    if strict_eq len (num 0) then Normal false
    else
      items <- iterate candidates ;;
      matchLoop decisionMap allowedStatuses items.

(** [function sanitizeDecisionForCache(decision)] *)
Definition sanitizeDecisionForCache (decision : Val) : Completion Val :=
  if falsy decision then Normal VNull
  else
    status <- get decision "status" ;;
    blockers <- get decision "blockers" ;;
    warnings <- get decision "warnings" ;;
    fileCount <- get decision "fileCount" ;;
    nzbIndex <- get decision "nzbIndex" ;;
    archiveFindings <- get decision "archiveFindings" ;;
    title <- get decision "title" ;;
    normalizedTitle <- get decision "normalizedTitle" ;;
    indexerId <- get decision "indexerId" ;;
    indexerName <- get decision "indexerName" ;;
    publishDateMs <- get decision "publishDateMs" ;;
    publishDateIso <- get decision "publishDateIso" ;;
    ageDays <- get decision "ageDays" ;;
    Normal (VObj
      [("status", or_else status (VStr "unknown"));
       ("blockers", arrayOrEmpty blockers);
       ("warnings", arrayOrEmpty warnings);
       ("fileCount", coalesce fileCount VNull);
       ("nzbIndex", coalesce nzbIndex VNull);
       ("archiveFindings", arrayOrEmpty archiveFindings);
       ("title", or_else title VNull);
       ("normalizedTitle", or_else normalizedTitle VNull);
       ("indexerId", or_else indexerId VNull);
       ("indexerName", or_else indexerName VNull);
       ("publishDateMs", coalesce publishDateMs VNull);
       ("publishDateIso", or_else publishDateIso VNull);
       ("ageDays", coalesce ageDays VNull)]).

(** [function serializeFinalNzbResults(results)] *)
Definition serializeResult (result : Val) : Completion Val :=
  if falsy result || negb (typeof_object result) then Normal result
  else
    let serialized := assign [] (own_enumerable result) in
    triageDecision <- get result "_triageDecision" ;;
    if truthy triageDecision
    then (sanitized <- sanitizeDecisionForCache triageDecision ;;
          Normal (VObj (set "_triageDecision" sanitized serialized)))
    else Normal (VObj serialized).

Definition serializeFinalNzbResults (results : Val) : Completion Val :=
  if negb (Array_isArray results) then Normal (VArr [])
  else
    serialized <- mapM serializeResult (elements results) ;;
    Normal (VArr serialized).

(** [function restoreFinalNzbResults(serialized)] *)
Definition restoreFinalNzbResults (serialized : Val) : Val :=
  if negb (Array_isArray serialized) then VArr [] else serialized.

(** ** Vocabulary of the properties *)

(** What [item?.size] reads. *)
Definition sizeOf (item : Val) : Val := get_opt item "size".

Definition positiveFinite (v : Val) : Prop :=
  match v with
  | VNum (Fin q) => (0 < q)%Q
  | _ => False
  end.

Definition sizeAtMost (maxSizeBytes item : Val) : Prop :=
  match sizeOf item, maxSizeBytes with
  | VNum (Fin size), VNum (Fin m) => (size <= m)%Q
  | _, _ => False
  end.

Definition sizeUnknown (item : Val) : Prop :=
  Number_isFinite (sizeOf item) = false.

(** Modelled from the spec: the Result record of the data model, whose
    quality rank comes from the release parser, which is not among the
    sources.  An annotated result is an object with a finite
    [qualityRank], whose [language] is a string when it has one and whose
    [languages], when an array, holds strings. *)
Definition isLanguageTag (v : Val) : bool := falsy v || typeof_string v.

Definition annotatedResult (result : Val) : bool :=
  truthy result
  && Number_isFinite (get_opt result "qualityRank")
  && isLanguageTag (get_opt result "language")
  && forallb isLanguageTag (elements (get_opt result "languages")).

(** The order of [compareQualityThenSize]: descending [qualityRank], ties
    by descending size, a size that is not finite counting as 0.
    [qualityThenSize a b] holds when [a] may stand before [b]. *)
Definition rankValue (result : Val) : Q :=
  match get_opt result "qualityRank" with
  | VNum (Fin q) => q
  | _ => 0
  end.

Definition sizeValue (result : Val) : Q :=
  match get_opt result "size" with
  | VNum (Fin q) => q
  | _ => 0
  end.

Definition qualityThenSize (a b : Val) : bool :=
  negb (Qle_bool (rankValue a) (rankValue b))
  || (Qeq_bool (rankValue a) (rankValue b) && Qle_bool (sizeValue b) (sizeValue a)).

(** The language-first mode of [sortAnnotatedResults]. *)
Definition languageFirst (sortMode preferredLanguage : Val) : bool :=
  strict_eq sortMode (VStr "language_quality_size") && truthy preferredLanguage.

(** The status of a decision, the statuses [buildTriageTitleMap] passes
    over, the title it files a decision under and the entry it stores. *)
Definition statusOf (decision : Val) : Val := get_opt decision "status".

Definition skippedStatus (status : Val) : bool :=
  falsy status || strict_eq status (VStr "pending") || strict_eq status (VStr "skipped").

Definition titleOf (decision : Val) : Val :=
  or_else (get_opt decision "normalizedTitle")
    (normalizeReleaseTitle (get_opt decision "title")).

Definition entryOf (downloadUrl decision : Val) : Val :=
  VObj
    [("status", statusOf decision);
     ("blockers", arrayOrEmpty (get_opt decision "blockers"));
     ("warnings", arrayOrEmpty (get_opt decision "warnings"));
     ("archiveFindings", arrayOrEmpty (get_opt decision "archiveFindings"));
     ("fileCount", coalesce (get_opt decision "fileCount") VNull);
     ("normalizedTitle", titleOf decision);
     ("title", or_else (get_opt decision "title") VNull);
     ("sourceDownloadUrl", downloadUrl);
     ("publishDateMs", coalesce (get_opt decision "publishDateMs") VNull);
     ("ageDays", coalesce (get_opt decision "ageDays") VNull)].

(** A decision that [buildTriageTitleMap] takes into account: it is
    present, its status is not passed over and it has a title. *)
Definition counted (decision : Val) : bool :=
  truthy decision && negb (skippedStatus (statusOf decision)) && truthy (titleOf decision).

(** A counted decision filed under the title [title]. *)
Definition filedUnder (title : Val) (entry : Val * Val) : bool :=
  counted (snd entry) && sameValueZero (titleOf (snd entry)) title.

Definition rankOf (decision : Val) : nat := triageStatusRank (statusOf decision).

(** The de-duplication key of a result:
    [normalizedTitle], else the normalised [title], else [downloadUrl]. *)
Definition keyOf (result : Val) : Val :=
  or_else (get_opt result "normalizedTitle")
    (or_else (normalizeReleaseTitle (get_opt result "title"))
       (get_opt result "downloadUrl")).

(** [earlier] is a present item with the key of [result]. *)
Definition sharesKey (result earlier : Val) : bool :=
  truthy earlier && sameValueZero (keyOf earlier) (keyOf result).

(** The first occurrence of every distinct key, in input order: the
    present items that no present item before them shares a key with.
    [before] holds the items already passed. *)
Fixpoint firstOccurrences (before results : list Val) : list Val :=
  match results with
  | [] => []
  | result :: rest =>
      if truthy result && negb (existsb (sharesKey result) before)
      then result :: firstOccurrences (before ++ [result]) rest
      else firstOccurrences (before ++ [result]) rest
  end.

(** The number of items at which a limit [Math.max(1, maxCandidates)]
    stops the selection, if it ever does. *)
Definition lengthCap (maxCandidates : Num) : option nat :=
  match maxCandidates with
  | NaN | PosInf => None
  | NegInf => Some 1%nat
  | Fin q => Some (Z.to_nat (Qceiling (if Qle_bool q 1 then 1 else q)))
  end.

Definition capped (maxCandidates : Num) (selected : list Val) : list Val :=
  match lengthCap maxCandidates with
  | None => selected
  | Some c => firstn c selected
  end.

(** The selection of [prioritizeTriageCandidates] without its cap, as the
    loop computes it: against the keys of the items selected so far. *)
Fixpoint unseenFirst (seenTitles results : list Val) : list Val :=
  match results with
  | [] => []
  | result :: rest =>
      if falsy result || Set_has (keyOf result) seenTitles
      then unseenFirst seenTitles rest
      else result :: unseenFirst (seenTitles ++ [keyOf result]) rest
  end.

(** What a cap still lets through when [have] items are selected. *)
Definition takeUpTo (cap : option nat) (have : nat) (l : list Val) : list Val :=
  match cap with
  | None => l
  | Some c => firstn (c - have) l
  end.

(** The body of the [forEach] of [buildTriageTitleMap] as a function of
    the map: what [titleMapStep] returns (it never throws). *)
Definition mergeStep (titleMap : list (Val * Val)) (entry : Val * Val)
  : list (Val * Val) :=
  if counted (snd entry)
  then
    match Map_get (titleOf (snd entry)) titleMap with
    | Some stored =>
        if truthy stored && (rankOf (snd entry) <? triageStatusRank (statusOf stored))%nat
        then titleMap
        else Map_set (titleOf (snd entry)) (entryOf (fst entry) (snd entry)) titleMap
    | None => Map_set (titleOf (snd entry)) (entryOf (fst entry) (snd entry)) titleMap
    end
  else titleMap.

(** Every entry of the map comes from a counted decision, among those
    seen, that is filed under its key. *)
Definition storedFrom (seen : list (Val * Val)) (titleMap : list (Val * Val)) : Prop :=
  forall title stored,
    Map_get title titleMap = Some stored ->
    exists entry,
      In entry seen /\ filedUnder title entry = true
      /\ stored = entryOf (fst entry) (snd entry).

(** A result [compareQualityThenSize] can rank: a present value with a
    finite [qualityRank]. *)
Definition ranked (result : Val) : bool :=
  truthy result && Number_isFinite (get_opt result "qualityRank").

(** Two results the order holds equal: the same rank and the same size,
    a size that is not finite counting as 0. *)
Definition tied (a b : Val) : bool := qualityThenSize a b && qualityThenSize b a.

(** [tag] is a non-empty string that equals [lang] once both are in lower
    case: the test [resultMatchesPreferredLanguage] makes of
    [result.language] and of every item of [result.languages]. *)
Definition sameLanguage (lang : string) (tag : Val) : bool :=
  match tag with
  | VStr s => negb (s =? "") && (toLowerCase s =? toLowerCase lang)
  | _ => false
  end.

(** A result whose [language] is a string when it has one and whose
    [languages], when an array, holds strings. *)
Definition languageTagged (result : Val) : bool :=
  truthy result
  && isLanguageTag (get_opt result "language")
  && forallb isLanguageTag (elements (get_opt result "languages")).

(** [candidate] has a decision in the map, with a status among the allowed
    ones: the test of the loop of [triageDecisionsMatchStatuses]. *)
Definition decidedAs (decisionMap : list (Val * Val)) (allowedStatuses : list Val)
  (candidate : Val) : bool :=
  match Map_get (get_opt candidate "downloadUrl") decisionMap with
  | Some decision =>
      truthy decision && Set_has (get_opt decision "status") allowedStatuses
  | None => false
  end.

(** The items of a list have pairwise different keys. *)
Definition distinctKeys (selected : list Val) : Prop :=
  ForallOrdPairs (fun a b => sameValueZero (keyOf a) (keyOf b) = false) selected.

(** A result that is a record with distinct property names, or a value
    that is no array: what the pipeline serializes. *)
Definition plainRecord (result : Val) : Prop :=
  match result with
  | VObj fs => NoDup (map fst fs)
  | VArr _ => False
  | _ => True
  end.

End WithCollaborators.

(** Stand-ins for the two imported functions, to run examples: the parser
    finds a resolution and a quality rank in no title, the normaliser
    lowers the case of a title and maps anything else to the empty
    string. *)
#[export] Instance plain_collaborators : Collaborators := {|
  parseReleaseMetadata := fun _ => VObj [("resolution", VNull); ("qualityRank", num 0)];
  normalizeReleaseTitle := fun title =>
    match title with
    | VStr s => VStr (string_map ascii_lower s)
    | _ => VStr ""
    end
|}.

End Helpers.

(* ================================================================== *)
(** * The TMDB client *)
(* ================================================================== *)

Module Tmdb.
Import Js.

Definition TMDB_BASE_URL : string := "https://api.themoviedb.org/3".

(** ** Requests

    [axios.get(url, { params, timeout })] is the only effect of the module
    besides [console.warn].  A call is a function of the trace of what
    happened so far; the network answers a request with a response or
    rejects it with an error, as it pleases. *)
Record Request : Type := {
  url : string;
  params : list (string * Val);
  timeout : Z
}.

Inductive Event : Type :=
| HttpGet (request : Request)
| Warn (message : string).

Definition Trace : Type := list Event.

Class Network : Type := {
  respond : Trace -> Request -> Completion Val
}.

Definition IO (A : Type) : Type := Trace -> Completion A * Trace.

Definition ret {A} (a : A) : IO A := fun t => (Normal a, t).

Definition lift {A} (c : Completion A) : IO A := fun t => (c, t).

Definition bindIO {A B} (m : IO A) (k : A -> IO B) : IO B :=
  fun t =>
    match m t with
    | (Normal a, t') => k a t'
    | (Throw e, t') => (Throw e, t')
    end.

(** [try { body } catch (error) { handler }] *)
Definition try_catch {A} (body : IO A) (handler : Val -> IO A) : IO A :=
  fun t =>
    match body t with
    | (Normal a, t') => (Normal a, t')
    | (Throw error, t') => handler error t'
    end.

Declare Scope io_scope.
Delimit Scope io_scope with io.
Notation "x <~ m ;; k" := (bindIO m (fun x => k))
  (at level 61, m at next level, right associativity) : io_scope.
Open Scope io_scope.

Definition console_warn (message : string) : IO unit :=
  fun t => (Normal tt, t ++ [Warn message]).

(** ** Strings *)

Definition byte_in (lo hi : nat) (c : ascii) : bool :=
  let n := nat_of_ascii c in ((lo <=? n) && (n <=? hi))%nat.

(** [s.replace(/[\u0300-\u036f]/g, '')]: the combining marks U+0300 to
    U+036F are the two-byte sequences CC 80 .. CD AF. *)
Fixpoint stripCombiningMarks (s : string) : string :=
  match s with
  | String c1 (String c2 rest as tail) =>
      if (byte_in 204 204 c1 && byte_in 128 191 c2)
         || (byte_in 205 205 c1 && byte_in 128 175 c2)
      then stripCombiningMarks rest
      else String c1 (stripCombiningMarks tail)
  | _ => s
  end.

(** [s.replace(/[^a-z0-9]+/g, '')] *)
Fixpoint keepAlphanumeric (s : string) : string :=
  match s with
  | EmptyString => EmptyString
  | String c rest =>
      if byte_in 97 122 c || byte_in 48 57 c
      then String c (keepAlphanumeric rest)
      else keepAlphanumeric rest
  end.

(** [/[^\x00-\x7f]/.test(s)] *)
Fixpoint hasNonAscii (s : string) : bool :=
  match s with
  | EmptyString => false
  | String c rest => byte_in 128 255 c || hasNonAscii rest
  end.

(** [s.includes(needle)] *)
Fixpoint includes (needle s : string) : bool :=
  String.prefix needle s
  || match s with
     | EmptyString => false
     | String _ rest => includes needle rest
     end.

(** [/a|b|.../i.test(s)]: one of the words occurs in [s], letters compared
    without case.  Without the [u] flag only ASCII letters fold onto the
    ASCII letters of the words. *)
Definition matchesAnyWord (words : list string) (s : string) : bool :=
  existsb (fun w => includes w (string_map ascii_lower s)) words.

(** [new Set(tokens)]: the tokens in their order, each once. *)
Definition uniqueTokens (tokens : list string) : list string :=
  fold_left (fun seen t => if existsb (String.eqb t) seen then seen else seen ++ [t])
    tokens [].

Section WithPlatform.
Context {platform : Platform}.

(** [function normalizeLanguageTag(language, fallback = 'en-US')] *)
Definition normalizeLanguageTag (language : Val) : string :=
  match language with
  | VStr s => let trimmed := trim s in if trimmed =? "" then "en-US" else trimmed
  | _ => "en-US"
  end.

(** [x < y] where [y] is a number. *)
Definition lessThan (x : Val) (y : Num) : Completion bool :=
  a <- ToNumber x ;;
  Normal (num_ltb a y).

(** [function deriveLocaleTokens({ iso639, iso3166, fallbackLanguage })] *)
Definition lowerTrimmed (v : Val) : Val :=
  match v with
  | VStr s => VStr (toLowerCase (trim s))
  | _ => VNull
  end.

Definition text (v : Val) : string :=
  match v with VStr s => s | _ => "" end.

Definition deriveLocaleTokens (iso639 iso3166 fallbackLanguage : Val) : list string :=
  let lang := lowerTrimmed iso639 in
  let region := lowerTrimmed iso3166 in
  let tokens := [] in
  let tokens :=
    if truthy lang && truthy region
    then tokens ++ [String.append (text lang) (String.append "-" (text region))]
    else tokens in
  let tokens := if truthy lang then tokens ++ [text lang] else tokens in
  let tokens :=
    if falsy lang && truthy region && typeof_string fallbackLanguage
       && truthy (VStr (trim (text fallbackLanguage)))
    then tokens ++ [String.append (toLowerCase (trim (text fallbackLanguage)))
                      (String.append "-" (text region))]
    else tokens in
  let tokens := if truthy region then tokens ++ [text region] else tokens in
  tokens.

(** [function normalizeTitleValue(value)] *)
Definition normalizeTitleValue (value : Val) : string :=
  match value with
  | VStr s =>
      trim (keepAlphanumeric (toLowerCase (stripCombiningMarks (normalizeNFKD s))))
  | _ => ""
  end.

(** [function containsNonAscii(value)] *)
Definition containsNonAscii (value : Val) : bool :=
  match value with
  | VStr s => hasNonAscii s
  | _ => false
  end.

(** [regex.test(v)] converts its argument to a string. *)
Definition regex_test (words : list string) (v : Val) : Completion bool :=
  s <- ToString v ;;
  Normal (matchesAnyWord words s).

(** [a.includes(x)] as a method call: arrays and strings have it. *)
Definition call_includes (a x : Val) : Completion bool :=
  match a with
  | VArr items => Normal (existsb (fun y => sameValueZero y x) items)
  | VStr s => (n <- ToString x ;; Normal (includes n s))
  | _ => Throw TypeError
  end.

(** [x?.toLowerCase()] *)
Definition opt_toLowerCase (x : Val) : Completion Val :=
  if nullish x then Normal VUndefined else call_toLowerCase x.

(** [function scoreLocalizedCandidate(candidate, options)] *)
Definition scoreLocalizedCandidate (candidate options : Val) : Completion Z :=
  defaultNormalized <- get options "defaultNormalized" ;;
  originalNormalized <- get options "originalNormalized" ;;
  let score := 0%Z in
  source <- get candidate "source" ;;
  let score := if strict_eq source (VStr "translation") then (score + 40)%Z else score in
  let score := if strict_eq source (VStr "alternative") then (score + 15)%Z else score in
  meta <- get candidate "meta" ;;
  let type := get_opt meta "type" in
  official <- (if truthy type
               then regex_test ["official"; "literal"; "original"] type
               else Normal false) ;;
  let score := if official then (score + 8)%Z else score in
  informal <- (if truthy type
               then regex_test ["festival"; "working"; "dvd"; "tv"] type
               else Normal false) ;;
  let score := if informal then (score - 3)%Z else score in
  let iso639 := get_opt meta "iso639" in
  originalLanguage <- get options "originalLanguage" ;;
  let score :=
    if truthy iso639 && truthy originalLanguage && strict_eq iso639 originalLanguage
    then (score + 6)%Z else score in
  let iso3166 := get_opt meta "iso3166" in
  score <- (if truthy iso3166
            then (candidateCountry <- call_toUpperCase iso3166 ;;
                  originCountries <- get options "originCountries" ;;
                  inOrigin <- (if nullish originCountries then Normal false
                               else call_includes originCountries candidateCountry) ;;
                  Normal (if inOrigin then (score + 4)%Z else score))
            else Normal score) ;;
  nonAscii <- get candidate "containsNonAscii" ;;
  let score := if truthy nonAscii then (score + 3)%Z else score in
  normalizedTitle <- get candidate "normalizedTitle" ;;
  let score :=
    if truthy normalizedTitle && strict_eq normalizedTitle defaultNormalized
    then (score - 6)%Z else score in
  let score :=
    if truthy normalizedTitle && strict_eq normalizedTitle originalNormalized
    then (score + 6)%Z else score in
  Normal score.

(** The weights of the scoring table, by signal. *)
Record Signals : Type := {
  isTranslation : bool;
  isAlternative : bool;
  officialType : bool;
  informalType : bool;
  inOriginalLanguage : bool;
  fromOriginCountry : bool;
  nonAscii : bool;
  equalsDefault : bool;
  equalsOriginal : bool
}.

Definition weight (signal : bool) (w : Z) : Z := if signal then w else 0%Z.

Definition total (s : Signals) : Z :=
  (weight (isTranslation s) 40 + weight (isAlternative s) 15
   + weight (officialType s) 8 + weight (informalType s) (-3)
   + weight (inOriginalLanguage s) 6 + weight (fromOriginCountry s) 4
   + weight (nonAscii s) 3
   + weight (equalsDefault s) (-6) + weight (equalsOriginal s) 6)%Z.

(** The signals of a candidate, each read as the table words it. *)
Definition typeOf (candidate : Val) : Val := get_opt (get_opt candidate "meta") "type".

Definition typeSignal (words : list string) (candidate : Val) : Completion bool :=
  if truthy (typeOf candidate) then regex_test words (typeOf candidate) else Normal false.

Definition countrySignal (candidate options : Val) : Completion bool :=
  let iso3166 := get_opt (get_opt candidate "meta") "iso3166" in
  if truthy iso3166
  then (candidateCountry <- call_toUpperCase iso3166 ;;
        let originCountries := get_opt options "originCountries" in
        if nullish originCountries then Normal false
        else call_includes originCountries candidateCountry)
  else Normal false.

Definition titleSignal (candidate reference : Val) : bool :=
  truthy (get_opt candidate "normalizedTitle")
  && strict_eq (get_opt candidate "normalizedTitle") reference.

Definition signalsOf (candidate options : Val) : Completion Signals :=
  _ <- get options "defaultNormalized" ;;
  _ <- get candidate "source" ;;
  official <- typeSignal ["official"; "literal"; "original"] candidate ;;
  informal <- typeSignal ["festival"; "working"; "dvd"; "tv"] candidate ;;
  country <- countrySignal candidate options ;;
  let iso639 := get_opt (get_opt candidate "meta") "iso639" in
  Normal
    {| isTranslation := strict_eq (get_opt candidate "source") (VStr "translation");
       isAlternative := strict_eq (get_opt candidate "source") (VStr "alternative");
       officialType := official;
       informalType := informal;
       inOriginalLanguage :=
         truthy iso639 && truthy (get_opt options "originalLanguage")
         && strict_eq iso639 (get_opt options "originalLanguage");
       fromOriginCountry := country;
       nonAscii := truthy (get_opt candidate "containsNonAscii");
       equalsDefault := titleSignal candidate (get_opt options "defaultNormalized");
       equalsOriginal := titleSignal candidate (get_opt options "originalNormalized") |}.

(** ** [buildLocalizedTitles] *)

(** The candidates registered so far: [candidateMap], a [Map] from locale
    token to the array of candidates pushed under it. *)
Definition CandidateMap : Type := list (string * list Val).

Definition candidatesOf (token : string) (candidateMap : CandidateMap) : list Val :=
  match lookup token candidateMap with
  | Some candidates => candidates
  | None => []
  end.

(** The candidate record [registerCandidate] pushes for a payload. *)
Definition candidateOf (payload : Val) : Completion Val :=
  title <- get payload "title" ;;
  overview <- get payload "overview" ;;
  tagline <- get payload "tagline" ;;
  source <- get payload "source" ;;
  meta <- get payload "meta" ;;
  Normal (VObj
    [("title", title);
     ("overview", or_else overview VNull);
     ("tagline", or_else tagline VNull);
     ("source", or_else source (VStr "translation"));
     ("normalizedTitle", VStr (normalizeTitleValue title));
     ("containsNonAscii", VBool (containsNonAscii title));
     ("meta", or_else meta (VObj []))]).

(** [candidateMap.get(token).push(candidate)], after the array was created
    when the token was new. *)
Definition pushCandidate (candidate : Val) (candidateMap : CandidateMap) (token : string)
  : CandidateMap :=
  if token =? "" then candidateMap
  else
    let candidateMap :=
      if has token candidateMap then candidateMap else set token [] candidateMap in
    set token (candidatesOf token candidateMap ++ [candidate]) candidateMap.

(** [const registerCandidate = (tokens, payload) => ...] *)
Definition registerCandidate (candidateMap : CandidateMap) (tokens : list string)
  (payload : Val) : Completion CandidateMap :=
  if falsy payload then Normal candidateMap
  else
    title <- get payload "title" ;;
    if falsy title then Normal candidateMap
    else
      candidate <- candidateOf payload ;;
      Normal (fold_left (pushCandidate candidate) tokens candidateMap).

(** The body of [translations.forEach((entry) => ...)]. *)
Definition translationStep (candidateMap : CandidateMap) (entry : Val)
  : Completion CandidateMap :=
  if falsy entry then Normal candidateMap
  else
    iso_639_1 <- get entry "iso_639_1" ;;
    if falsy iso_639_1 then Normal candidateMap
    else
      data <- get entry "data" ;;
      let payload := or_else data (VObj []) in
      payloadTitle <- get payload "title" ;;
      payloadName <- get payload "name" ;;
      let title := or_else payloadTitle payloadName in
      if falsy title then Normal candidateMap
      else
        iso_3166_1 <- get entry "iso_3166_1" ;;
        let tokens := uniqueTokens (deriveLocaleTokens iso_639_1 iso_3166_1 VUndefined) in
        overview <- get payload "overview" ;;
        tagline <- get payload "tagline" ;;
        iso639 <- opt_toLowerCase iso_639_1 ;;
        iso3166 <- opt_toLowerCase iso_3166_1 ;;
        name <- get entry "name" ;;
        english_name <- get entry "english_name" ;;
        registerCandidate candidateMap tokens
          (VObj
            [("title", title);
             ("overview", or_else overview VNull);
             ("tagline", or_else tagline VNull);
             ("source", VStr "translation");
             ("meta", VObj
                [("iso639", or_else iso639 VNull);
                 ("iso3166", or_else iso3166 VNull);
                 ("name", or_else name VNull);
                 ("englishName", or_else english_name VNull)])]).

(** The body of [alternativeTitles.forEach((entry) => ...)]. *)
Definition alternativeStep (options : Val) (candidateMap : CandidateMap) (entry : Val)
  : Completion CandidateMap :=
  if falsy entry then Normal candidateMap
  else
    entryTitle <- get entry "title" ;;
    if falsy entryTitle then Normal candidateMap
    else
      iso_639_1 <- get entry "iso_639_1" ;;
      iso_3166_1 <- get entry "iso_3166_1" ;;
      fallbackLanguage <- get options "originalLanguage" ;;
      let tokens := uniqueTokens (deriveLocaleTokens iso_639_1 iso_3166_1 fallbackLanguage) in
      if (List.length tokens =? 0)%nat then Normal candidateMap
      else
        type <- get entry "type" ;;
        iso639 <- opt_toLowerCase iso_639_1 ;;
        iso3166 <- opt_toLowerCase iso_3166_1 ;;
        registerCandidate candidateMap tokens
          (VObj
            [("title", entryTitle);
             ("source", VStr "alternative");
             ("meta", VObj
                [("type", or_else type VNull);
                 ("iso639", or_else iso639 VNull);
                 ("iso3166", or_else iso3166 VNull)])]).

(** [x.forEach(callback)] as a method call: the values the callback
    receives.  Arrays, [Map]s and [Set]s have the method. *)
Definition forEach_values (x : Val) : Completion (list Val) :=
  match x with
  | VArr items => Normal items
  | VMap entries => Normal (map snd entries)
  | VSet members => Normal members
  | _ => Throw TypeError
  end.

(** The scoring options [buildLocalizedTitles] derives from [options]. *)
Definition originCountry (entry : Val) : Val :=
  match entry with
  | VStr s => VStr (toUpperCase (trim s))
  | _ => VNull
  end.

Definition scoringOptions (options : Val) : Completion Val :=
  defaultTitle <- get options "defaultTitle" ;;
  originalTitle <- get options "originalTitle" ;;
  originCountries <- get options "originCountries" ;;
  let normalizedOriginCountries :=
    if Array_isArray originCountries
    then filter truthy (map originCountry (elements originCountries))
    else [] in
  originalLanguage <- get options "originalLanguage" ;;
  let normalizedOriginalLanguage := lowerTrimmed originalLanguage in
  Normal (VObj
    [("defaultNormalized", VStr (normalizeTitleValue defaultTitle));
     ("originalNormalized", VStr (normalizeTitleValue originalTitle));
     ("originalLanguage", normalizedOriginalLanguage);
     ("originCountries", VArr normalizedOriginCountries)]).

(** [candidates.map(...)]: each candidate with its score. *)
Definition scoreAll (scoring : Val) (candidates : list Val) : Completion (list (Val * Z)) :=
  mapM (fun candidate =>
          score <- scoreLocalizedCandidate candidate scoring ;;
          Normal (candidate, score)) candidates.

(** [(a, b) => b.score - a.score] *)
Definition byScoreDescending (a b : Val * Z) : Completion Val :=
  Normal (num (snd b - snd a)).

(** What [localized[localeToken]] receives for the chosen candidate. *)
Definition localizedEntry (best : Val) : Completion Val :=
  title <- get best "title" ;;
  overview <- get best "overview" ;;
  tagline <- get best "tagline" ;;
  source <- get best "source" ;;
  meta <- get best "meta" ;;
  Normal (VObj
    [("title", title);
     ("overview", overview);
     ("tagline", tagline);
     ("source", source);
     ("type", or_else (get_opt meta "type") VNull)]).

(** The body of [candidateMap.forEach((candidates, localeToken) => ...)]. *)
Definition chooseStep (scoring : Val) (localized : list (string * Val))
  (entry : string * list Val) : Completion (list (string * Val)) :=
  let '(localeToken, candidates) := entry in
  scored0 <- scoreAll scoring candidates ;;
  scored <- sort_list byScoreDescending scored0 ;;
  match scored with
  | (best, _) :: _ =>
      if truthy best
      then (e <- localizedEntry best ;; Normal (assignProperty localeToken e localized))
      else Normal localized
  | [] => Normal localized
  end.

(** The first half of [buildLocalizedTitles]: the candidate map after both
    [forEach] loops. *)
Definition collectCandidates (translations alternativeTitles options : Val)
  : Completion CandidateMap :=
  entries <- forEach_values translations ;;
  candidateMap <- foldM translationStep [] entries ;;
  alternatives <- forEach_values alternativeTitles ;;
  foldM (alternativeStep options) candidateMap alternatives.

Definition emptyOrNoArray (x : Val) : bool :=
  negb (Array_isArray x) || (List.length (elements x) =? 0)%nat.

(** A parameter with a default value: [undefined] takes the default. *)
Definition withDefault (v default : Val) : Val :=
  if is_undefined v then default else v.

(** [function buildLocalizedTitles(translations = [], alternativeTitles = [], options = {})] *)
Definition buildLocalizedTitles (translations alternativeTitles options : Val)
  : Completion Val :=
  let translations := withDefault translations (VArr []) in
  let alternativeTitles := withDefault alternativeTitles (VArr []) in
  let options := withDefault options (VObj []) in
  if emptyOrNoArray translations && emptyOrNoArray alternativeTitles
  then Normal (VObj [])
  else
    scoring <- scoringOptions options ;;
    candidateMap <- collectCandidates translations alternativeTitles options ;;
    localized <- foldM (chooseStep scoring) [] candidateMap ;;
    Normal (VObj localized).

(** *** Vocabulary of the properties *)

(** The candidates a call registers, by locale token: none when it returns
    before the loops, else the candidate map after them. *)
Definition registeredCandidates (translations alternativeTitles options : Val)
  : Completion CandidateMap :=
  let translations := withDefault translations (VArr []) in
  let alternativeTitles := withDefault alternativeTitles (VArr []) in
  let options := withDefault options (VObj []) in
  if emptyOrNoArray translations && emptyOrNoArray alternativeTitles
  then Normal []
  else collectCandidates translations alternativeTitles options.

(** [entry] is what [localized] holds for the candidate of [candidates]
    with the highest score, the first of them when several have it. *)
Definition firstBestOf (scoring : Val) (candidates : list Val) (entry : Val) : Prop :=
  exists before best after score,
    candidates = before ++ best :: after
    /\ localizedEntry best = Normal entry
    /\ scoreLocalizedCandidate best scoring = Normal score
    /\ (forall c, In c before ->
          exists s, scoreLocalizedCandidate c scoring = Normal s /\ (s < score)%Z)
    /\ (forall c, In c after ->
          exists s, scoreLocalizedCandidate c scoring = Normal s /\ (s <= score)%Z).

(** The scored candidate of highest score, the first when several have it. *)
Fixpoint firstBest (scored : list (Val * Z)) : option (Val * Z) :=
  match scored with
  | [] => None
  | x :: rest =>
      match firstBest rest with
      | None => Some x
      | Some y => if (snd x <? snd y)%Z then Some y else Some x
      end
  end.

(** ** Resolving a TMDB id *)

Context {network : Network}.

(** [await axios.get(url, { params, timeout: 5000 })] *)
Definition axios_get (url : string) (params : list (string * Val)) : IO Val :=
  fun t =>
    let request := {| url := url; params := params; timeout := 5000 |} in
    (respond t request, t ++ [HttpGet request]).

(** The [catch] block of the lookup and of the search:
    a status below 500 is a plain miss, anything else is logged. *)
Definition missOrWarn (message : string) (error : Val) : IO Val :=
  let status := get_opt (get_opt error "response") "status" in
  quiet <~ lift (if truthy status then lessThan status (Fin 500) else Normal false) ;;
  if quiet then ret VNull
  else (_ <~ console_warn message ;; ret VNull).

(** [first.title || first.name || first.original_title || first.original_name || null] *)
Definition displayTitle (first : Val) : Completion Val :=
  title <- get first "title" ;;
  name <- get first "name" ;;
  original_title <- get first "original_title" ;;
  original_name <- get first "original_name" ;;
  Normal (or_else title (or_else name (or_else original_title (or_else original_name VNull)))).

(** [first.release_date || first.first_air_date || null] *)
Definition displayDate (first : Val) : Completion Val :=
  release_date <- get first "release_date" ;;
  first_air_date <- get first "first_air_date" ;;
  Normal (or_else release_date (or_else first_air_date VNull)).

(** The [for (const list of candidateLists)] loop of [findTmdbIdByImdb]. *)
Fixpoint firstWithId (candidateLists : list Val) : Completion Val :=
  match candidateLists with
  | [] => Normal VNull
  | list :: rest =>
      match elements list with
      | [] => firstWithId rest
      | first :: _ =>
          if falsy first then firstWithId rest
          else
            id <- get first "id" ;;
            if falsy id then firstWithId rest
            else
              tmdbId <- ToString id ;;
              title <- displayTitle first ;;
              releaseDate <- displayDate first ;;
              media_type <- get first "media_type" ;;
              Normal (VObj
                [("tmdbId", VStr tmdbId);
                 ("title", title);
                 ("releaseDate", releaseDate);
                 ("mediaType", or_else media_type VNull)])
      end
  end.

(** [async function findTmdbIdByImdb({ apiKey, imdbId, type })] *)
Definition findTmdbIdByImdb (apiKey imdbId type : Val) : IO Val :=
  if falsy apiKey || falsy imdbId then ret VNull
  else
    id <~ lift (ToString imdbId) ;;
    encoded <~ lift (encodeURIComponent id) ;;
    let url := String.append TMDB_BASE_URL (String.append "/find/" encoded) in
    try_catch
      (response <~ axios_get url
                     [("api_key", apiKey); ("external_source", VStr "imdb_id")] ;;
       data <~ lift (get response "data") ;;
       let payload := or_else data (VObj []) in
       movie_results <~ lift (get payload "movie_results") ;;
       tv_results <~ lift (get payload "tv_results") ;;
       tv_episode_results <~ lift (get payload "tv_episode_results") ;;
       tv_season_results <~ lift (get payload "tv_season_results") ;;
       let candidateLists :=
         filter Array_isArray
           [movie_results; tv_results; tv_episode_results; tv_season_results] in
       lift (firstWithId candidateLists))
      (missOrWarn "[TMDB] IMDb lookup failed").

(** [results.find((entry) => entry && entry.id)] *)
Fixpoint findWithId (results : list Val) : Completion Val :=
  match results with
  | [] => Normal VUndefined
  | entry :: rest =>
      if falsy entry then findWithId rest
      else (id <- get entry "id" ;; if truthy id then Normal entry else findWithId rest)
  end.

(** The [params] of a title search. *)
Definition searchParams (apiKey type title year language : Val) : list (string * Val) :=
  let params :=
    [("api_key", apiKey); ("query", title); ("include_adult", VBool false)] in
  let params :=
    if truthy language then set "language" (VStr (normalizeLanguageTag language)) params
    else params in
  if truthy year && Number_isFinite year
  then if strict_eq type (VStr "series") then set "first_air_date_year" year params
       else set "year" year params
  else params.

Definition searchUrl (type : Val) : string :=
  let endpoint := if strict_eq type (VStr "series") then "search/tv" else "search/movie" in
  String.append TMDB_BASE_URL (String.append "/" endpoint).

(** [async function searchTmdbByTitle({ apiKey, type, title, year, language })] *)
Definition searchTmdbByTitle (apiKey type title year language : Val) : IO Val :=
  if falsy apiKey || falsy title then ret VNull
  else
    let url := searchUrl type in
    let params := searchParams apiKey type title year language in
    try_catch
      (response <~ axios_get url params ;;
       data <~ lift (get response "data") ;;
       let found := get_opt data "results" in
       let results := if Array_isArray found then elements found else [] in
       top <~ lift (findWithId results) ;;
       if falsy top then ret VNull
       else
         id <~ lift (get top "id") ;;
         tmdbId <~ lift (ToString id) ;;
         title <~ lift (displayTitle top) ;;
         releaseDate <~ lift (displayDate top) ;;
         ret (VObj
           [("tmdbId", VStr tmdbId);
            ("title", title);
            ("releaseDate", releaseDate);
            ("language", or_else (field "language" params) VNull)]))
      (missOrWarn "[TMDB] Title search failed").

(** [{ ...match, via }] *)
Definition tagged (found : Val) (via : Val) : Val :=
  VObj (set "via" via (assign [] (own_enumerable found))).

(** The [for (const candidate of candidates)] loop of [resolveTmdbId]. *)
Fixpoint searchEach (apiKey normalizedType title year : Val) (candidates : list Val)
  : IO Val :=
  match candidates with
  | [] => ret VNull
  | candidate :: rest =>
      searchMatch <~ searchTmdbByTitle apiKey normalizedType title year candidate ;;
      if truthy (get_opt searchMatch "tmdbId")
      then
        via <~ lift (if truthy candidate
                     then (c <- ToString candidate ;; Normal (VStr (String.append "title:" c)))
                     else Normal (VStr "title")) ;;
        ret (tagged searchMatch via)
      else searchEach apiKey normalizedType title year rest
  end.

(** The second half of [resolveTmdbId]: the search by title. *)
Definition resolveByTitle (apiKey normalizedType title year languageCandidates : Val)
  : IO Val :=
  if truthy title
  then
    let candidates :=
      if Array_isArray languageCandidates
         && (0 <? List.length (elements languageCandidates))%nat
      then elements languageCandidates
      else [VNull] in
    searchEach apiKey normalizedType title year candidates
  else ret VNull.

(** [async function resolveTmdbId({ apiKey, type, imdbId, title, year,
    languageCandidates = [] })] *)
Definition resolveTmdbId (apiKey type imdbId title year languageCandidates : Val)
  : IO Val :=
  let languageCandidates :=
    if is_undefined languageCandidates then VArr [] else languageCandidates in
  if falsy apiKey then ret VNull
  else
    let normalizedType :=
      if strict_eq type (VStr "series") then VStr "series" else VStr "movie" in
    if truthy imdbId
    then
      imdbMatch <~ findTmdbIdByImdb apiKey imdbId normalizedType ;;
      if truthy (get_opt imdbMatch "tmdbId")
      then ret (tagged imdbMatch (VStr "imdb"))
      else resolveByTitle apiKey normalizedType title year languageCandidates
    else resolveByTitle apiKey normalizedType title year languageCandidates.

(** *** Vocabulary of the properties *)

(** The requests to the title-search endpoints in a trace, in order. *)
Definition isSearchUrl (u : string) : bool :=
  (u =? searchUrl (VStr "series")) || (u =? searchUrl (VStr "movie")).

Definition searchRequests (t : Trace) : list Request :=
  flat_map (fun e =>
              match e with
              | HttpGet request => if isSearchUrl (url request) then [request] else []
              | Warn _ => []
              end) t.

(** The request of a title search in the language [candidate]. *)
Definition searchRequest (apiKey normalizedType title year candidate : Val) : Request :=
  {| url := searchUrl normalizedType;
     params := searchParams apiKey normalizedType title year candidate;
     timeout := 5000 |}.



(** In the candidate map every token is there once, with at least one
    candidate, and every candidate is an object. *)
Definition wellFormedMap (candidateMap : CandidateMap) : Prop :=
  NoDup (map fst candidateMap)
  /\ forall token candidates,
       lookup token candidateMap = Some candidates ->
       candidates <> [] /\ Forall (fun c => truthy c = true) candidates.


(** ** Loading the localization of a title

    The three requests for a title and their composition.  Of a warning
    the trace keeps the label, the first argument of [console.warn]. *)

(** [type === 'series' ? 'tv' : 'movie'] *)
Definition endpointOf (type : Val) : string :=
  if strict_eq type (VStr "series") then "tv" else "movie".

(** [`${TMDB_BASE_URL}/${endpoint}/${tmdbId}`], and the urls of the
    translations and of the alternative titles, which continue it. *)
Definition titleUrl (type : Val) (tmdbId suffix : string) : string :=
  String.append TMDB_BASE_URL
    (String.append "/"
       (String.append (endpointOf type)
          (String.append "/" (String.append tmdbId suffix)))).

(** [async function fetchTmdbMetadata({ apiKey, type, tmdbId, language })] *)
Definition fetchTmdbMetadata (apiKey type tmdbId language : Val) : IO Val :=
  if falsy apiKey || falsy type || falsy tmdbId then ret VNull
  else
    let safeLanguage := normalizeLanguageTag language in
    id <~ lift (ToString tmdbId) ;;
    let url := titleUrl type id "" in
    try_catch
      (response <~ axios_get url
                     [("language", VStr safeLanguage); ("api_key", apiKey)] ;;
       data <~ lift (get response "data") ;;
       ret (or_else data VNull))
      (fun error =>
         response <~ lift (get error "response") ;;
         if strict_eq (get_opt response "status") (num 404) then ret VNull
         else (_ <~ console_warn "[TMDB] Metadata request failed" ;; ret VNull)).

(** The record [fetchTmdbTranslations] makes of an entry, and the test it
    keeps a record by. *)
Definition translationRecord (entry : Val) : Val :=
  VObj
    [("iso_639_1", or_else (get_opt entry "iso_639_1") VNull);
     ("iso_3166_1", or_else (get_opt entry "iso_3166_1") VNull);
     ("name", or_else (get_opt entry "name") VNull);
     ("english_name", or_else (get_opt entry "english_name") VNull);
     ("data", or_else (get_opt entry "data") VNull)].

Definition keepsTranslation (entry : Val) : bool :=
  let data := get_opt entry "data" in
  truthy (get_opt entry "iso_639_1") && truthy data
  && (truthy (get_opt data "title") || truthy (get_opt data "name")
      || truthy (get_opt data "overview")).

(** [async function fetchTmdbTranslations({ apiKey, type, tmdbId })] *)
Definition fetchTmdbTranslations (apiKey type tmdbId : Val) : IO Val :=
  if falsy apiKey || falsy type || falsy tmdbId then ret (VArr [])
  else
    id <~ lift (ToString tmdbId) ;;
    let url := titleUrl type id "/translations" in
    try_catch
      (response <~ axios_get url [("api_key", apiKey)] ;;
       data <~ lift (get response "data") ;;
       if falsy data then ret (VArr [])
       else
         translations <~ lift (get data "translations") ;;
         if negb (Array_isArray translations) then ret (VArr [])
         else ret (VArr (filter keepsTranslation
                           (map translationRecord (elements translations)))))
      (fun error =>
         _ <~ console_warn "[TMDB] Translation request failed" ;; ret (VArr [])).

(** The record [fetchTmdbAlternativeTitles] makes of an entry, and the
    test it keeps a record by. *)
Definition alternativeRecord (entry : Val) : Val :=
  VObj
    [("iso_3166_1", or_else (get_opt entry "iso_3166_1") VNull);
     ("title", or_else (get_opt entry "title") (or_else (get_opt entry "name") VNull));
     ("type", or_else (get_opt entry "type") VNull);
     ("iso_639_1", or_else (get_opt entry "iso_639_1") VNull)].

Definition keepsAlternative (entry : Val) : bool :=
  truthy (get_opt entry "iso_3166_1") && truthy (get_opt entry "title").

(** The [catch] block of [fetchTmdbAlternativeTitles]: as [missOrWarn],
    with an empty array for [null]. *)
Definition emptyOrWarn (message : string) (error : Val) : IO Val :=
  let status := get_opt (get_opt error "response") "status" in
  quiet <~ lift (if truthy status then lessThan status (Fin 500) else Normal false) ;;
  if quiet then ret (VArr [])
  else (_ <~ console_warn message ;; ret (VArr [])).

(** [async function fetchTmdbAlternativeTitles({ apiKey, type, tmdbId })] *)
Definition fetchTmdbAlternativeTitles (apiKey type tmdbId : Val) : IO Val :=
  if falsy apiKey || falsy type || falsy tmdbId then ret (VArr [])
  else
    id <~ lift (ToString tmdbId) ;;
    let url := titleUrl type id "/alternative_titles" in
    try_catch
      (response <~ axios_get url [("api_key", apiKey)] ;;
       data <~ lift (get response "data") ;;
       let payload := or_else data (VObj []) in
       results <~ lift (get payload "results") ;;
       titles <~ lift (get payload "titles") ;;
       let entries :=
         if Array_isArray results then elements results
         else if Array_isArray titles then elements titles
         else [] in
       ret (VArr (filter keepsAlternative (map alternativeRecord entries))))
      (emptyOrWarn "[TMDB] Alternative titles request failed").

(** [Array.isArray(x) ? x : []], also for [x.slice()]. *)
Definition arrayOrNone (x : Val) : Val :=
  if Array_isArray x then x else VArr [].

(** [async function loadTmdbLocalization({ apiKey, type, tmdbId })] *)
Definition loadTmdbLocalization (apiKey type tmdbId : Val) : IO Val :=
  metadata <~ fetchTmdbMetadata apiKey type tmdbId VUndefined ;;
  if falsy metadata then ret VNull
  else
    translations <~ fetchTmdbTranslations apiKey type tmdbId ;;
    alternativeTitles <~ fetchTmdbAlternativeTitles apiKey type tmdbId ;;
    original_language <~ lift (get metadata "original_language") ;;
    title <~ lift (get metadata "title") ;;
    name <~ lift (get metadata "name") ;;
    original_title <~ lift (get metadata "original_title") ;;
    original_name <~ lift (get metadata "original_name") ;;
    origin_country <~ lift (get metadata "origin_country") ;;
    localizedTitles <~ lift (buildLocalizedTitles translations alternativeTitles
      (VObj
        [("originalLanguage", original_language);
         ("defaultTitle", or_else title (or_else name VNull));
         ("originalTitle", or_else original_title (or_else original_name VNull));
         ("originCountries", arrayOrNone origin_country)])) ;;
    lowered <~ lift (call_toLowerCase (or_else original_language (VStr ""))) ;;
    release_date <~ lift (get metadata "release_date") ;;
    first_air_date <~ lift (get metadata "first_air_date") ;;
    ret (VObj
      [("originalLanguage", or_else lowered VNull);
       ("defaultTitle", or_else title (or_else name VNull));
       ("releaseDate", or_else release_date (or_else first_air_date VNull));
       ("originalTitle", or_else original_title (or_else original_name VNull));
       ("originCountries", arrayOrNone origin_country);
       ("localizedTitles", localizedTitles)]).

(** *** Vocabulary of the properties *)

(** The requests of a trace, in order. *)
Definition requests (t : Trace) : list Request :=
  flat_map (fun e => match e with HttpGet request => [request] | Warn _ => [] end) t.

(** The three requests of [loadTmdbLocalization]. *)
Definition metadataRequest (apiKey type : Val) (tmdbId : string) (language : Val)
  : Request :=
  {| url := titleUrl type tmdbId "";
     params := [("language", VStr (normalizeLanguageTag language)); ("api_key", apiKey)];
     timeout := 5000 |}.

Definition translationsRequest (apiKey type : Val) (tmdbId : string) : Request :=
  {| url := titleUrl type tmdbId "/translations";
     params := [("api_key", apiKey)];
     timeout := 5000 |}.

Definition alternativeTitlesRequest (apiKey type : Val) (tmdbId : string) : Request :=
  {| url := titleUrl type tmdbId "/alternative_titles";
     params := [("api_key", apiKey)];
     timeout := 5000 |}.

(** The request of [findTmdbIdByImdb] for an id already encoded. *)
Definition findRequest (apiKey : Val) (encoded : string) : Request :=
  {| url := String.append TMDB_BASE_URL (String.append "/find/" encoded);
     params := [("api_key", apiKey); ("external_source", VStr "imdb_id")];
     timeout := 5000 |}.

(** The status of the response an error carries,
    [error?.response?.status]. *)
Definition statusOfError (error : Val) : Val :=
  get_opt (get_opt error "response") "status".

(** [status && status < 500] for the status of an error, [n] being the
    number the status converts to: the errors the [catch] blocks pass over
    in silence. *)
Definition passedOver (error : Val) (n : Num) : bool :=
  truthy (statusOfError error) && num_ltb n (Fin 500).

(** What a call leaves in the trace after its request was rejected. *)
Definition rejected (t : Trace) (request : Request) (silent : bool) (message : string)
  : Trace :=
  t ++ HttpGet request :: (if silent then [] else [Warn message]).

(** [m] issues exactly the requests [rs], whether it returns or throws. *)
Definition issues {A} (m : IO A) (rs : list Request) : Prop :=
  forall t r t', m t = (r, t') -> requests t' = requests t ++ rs.

(** Whenever [m] returns, what it returns satisfies [P]. *)
Definition yields {A} (m : IO A) (P : A -> Prop) : Prop :=
  forall t a t', m t = (Normal a, t') -> P a.

(** The match of a lookup or of a search: a string [tmdbId], a title, a
    date and one more property, [mediaType] or [language]. *)
Definition foundBy (extra : string) (v : Val) : Prop :=
  exists id title releaseDate more,
    v = VObj [("tmdbId", VStr id); ("title", title); ("releaseDate", releaseDate);
              (extra, more)].

(** What [resolveTmdbId] returns when it is not [null]: a match with a
    [tmdbId] that is not empty, and the way it was found. *)
Definition resolution (v : Val) : Prop :=
  exists id title releaseDate extra via,
    v = VObj [("tmdbId", VStr id); ("title", title); ("releaseDate", releaseDate);
              extra; ("via", VStr via)]
    /\ id <> ""
    /\ ((fst extra = "mediaType" /\ via = "imdb")
        \/ (fst extra = "language"
            /\ (via = "title" \/ exists language, via = String.append "title:" language))).

(** Every candidate of the map satisfies [Q]. *)
Definition allCandidates (Q : Val -> Prop) (candidateMap : CandidateMap) : Prop :=
  Forall (fun entry => Forall Q (snd entry)) candidateMap.

(** A candidate as [registerCandidate] pushes it from the two loops: it
    has a title, and it is a translation, whose [meta] has no [type], or an
    alternative title, which has neither overview nor tagline. *)
Definition registered (candidate : Val) : Prop :=
  exists title overview tagline source normalized glyphs meta,
    candidate =
      VObj [("title", title); ("overview", overview); ("tagline", tagline);
            ("source", VStr source); ("normalizedTitle", normalized);
            ("containsNonAscii", glyphs); ("meta", meta)]
    /\ truthy title = true
    /\ ((source = "translation" /\ get_opt meta "type" = VUndefined)
        \/ (source = "alternative" /\ overview = VNull /\ tagline = VNull)).

(** An entry of the localized titles. *)
Definition localizedTitle (entry : Val) : Prop :=
  exists title overview tagline source type,
    entry =
      VObj [("title", title); ("overview", overview); ("tagline", tagline);
            ("source", VStr source); ("type", type)]
    /\ truthy title = true
    /\ ((source = "translation" /\ type = VNull)
        \/ (source = "alternative" /\ overview = VNull /\ tagline = VNull)).

(** A string, [null] or [undefined]: what [x?.toLowerCase()] accepts. *)
Definition optionalString (v : Val) : bool := nullish v || typeof_string v.

(** A value that is no array and no object: its conversion to a string
    runs no code of the value. *)
Definition primitive (v : Val) : bool :=
  match v with
  | VArr _ | VObj _ | VMap _ | VSet _ => false
  | _ => true
  end.

(** The entries [buildLocalizedTitles] is made for: the language and the
    country of an entry are strings when present, the type of an
    alternative title is no object. *)
Definition wellShapedTranslation (entry : Val) : bool :=
  falsy entry
  || (optionalString (get_opt entry "iso_639_1")
      && optionalString (get_opt entry "iso_3166_1")).

Definition wellShapedAlternative (entry : Val) : bool :=
  falsy entry
  || (optionalString (get_opt entry "iso_639_1")
      && optionalString (get_opt entry "iso_3166_1")
      && primitive (get_opt entry "type")).

(** A candidate [scoreLocalizedCandidate] returns on: its type is no
    object and its country is a string when present. *)
Definition scorable (candidate : Val) : Prop :=
  nullish candidate = false
  /\ primitive (typeOf candidate) = true
  /\ (let iso3166 := get_opt (get_opt candidate "meta") "iso3166" in
      falsy iso3166 || typeof_string iso3166 = true).

(** The title and the date of a match, as the lookup and the search read
    them off an entry of the response. *)
Definition titleOfEntry (entry : Val) : Val :=
  or_else (get_opt entry "title")
    (or_else (get_opt entry "name")
       (or_else (get_opt entry "original_title")
          (or_else (get_opt entry "original_name") VNull))).

Definition dateOfEntry (entry : Val) : Val :=
  or_else (get_opt entry "release_date") (or_else (get_opt entry "first_air_date") VNull).

(** An entry that is present and has an id. *)
Definition hasId (entry : Val) : bool := truthy entry && truthy (get_opt entry "id").

(** The first element of a list of the lookup, when it has an id. *)
Definition headWithId (list : Val) : option Val :=
  match elements list with
  | first :: _ => if hasId first then Some first else None
  | [] => None
  end.

(** The four lists of a lookup, in the order the code goes through them,
    and the first of them whose first element has an id. *)
Definition lookupLists (payload : Val) : list Val :=
  [get_opt payload "movie_results"; get_opt payload "tv_results";
   get_opt payload "tv_episode_results"; get_opt payload "tv_season_results"].

Fixpoint firstHead (lists : list Val) : option Val :=
  match lists with
  | [] => None
  | list :: rest =>
      match headWithId list with
      | Some first => Some first
      | None => firstHead rest
      end
  end.

(** The language a search reports: the tag it asked for, or [null]. *)
Definition languageAsked (language : Val) : Val :=
  if truthy language then VStr (normalizeLanguageTag language) else VNull.

End WithPlatform.

(** The letter e with an acute accent, in UTF-8. *)
Definition eacute : string := String (ascii_of_nat 195) (String (ascii_of_nat 169) "").

(** A network to run examples: the lookup of [tt0211915] finds a movie,
    every other request finds nothing. *)
#[export] Instance sample_network : Network := {|
  respond := fun _ request =>
    if url request =? "https://api.themoviedb.org/3/find/tt0211915"
    then Normal (VObj [("data", VObj [("movie_results",
           VArr [VObj [("id", num 194); ("title", VStr "Amelie");
                       ("release_date", VStr "2001-04-25")]])])])
    else Normal (VObj [("data", VObj [("results", VArr [])])])
|}.

(** A string of the characters [a-z] and [0-9]. *)
Fixpoint alphanumeric (s : string) : bool :=
  match s with
  | EmptyString => true
  | String c rest => (byte_in 97 122 c || byte_in 48 57 c) && alphanumeric rest
  end.

(** What the properties of [normalizeTitleValue] use of the built-ins:
    [trim], [toLowerCase] and [normalize('NFKD')] leave a string of the
    characters [a-z] and [0-9] as it is. *)
Class PlainOnAlphanumeric (platform : Platform) : Prop := {
  trim_alphanumeric : forall s, alphanumeric s = true -> trim s = s;
  toLowerCase_alphanumeric : forall s, alphanumeric s = true -> toLowerCase s = s;
  normalizeNFKD_alphanumeric : forall s, alphanumeric s = true -> normalizeNFKD s = s
}.

(** A network that answers every request with the error of a response of
    the given status, and one that is down. *)
Definition refusing_network (status : Z) : Network := {|
  respond := fun _ _ =>
    Throw (VObj [("message", VStr "Request failed");
                 ("response", VObj [("status", num status)])])
|}.

Definition down_network : Network := {|
  respond := fun _ _ => Throw (VObj [("message", VStr "connect ECONNREFUSED")])
|}.

(** A network with one title.  A search finds it in the second entry of
    its results; every other request is answered with the metadata, the
    translations, the alternative titles and the lookup lists at once. *)
Definition catalog_network : Network := {|
  respond := fun _ request =>
    if isSearchUrl (url request)
    then Normal (VObj [("data", VObj [("results",
           VArr [VObj [("title", VStr "No id")];
                 VObj [("id", num 194); ("title", VStr "Amelie");
                       ("release_date", VStr "2001-04-25")]])])])
    else Normal (VObj [("data", VObj
      [("id", num 194);
       ("title", VStr "Amelie");
       ("original_title", VStr "Le Fabuleux Destin");
       ("original_language", VStr "FR");
       ("release_date", VStr "2001-04-25");
       ("origin_country", VArr [VStr "FR"]);
       ("translations",
        VArr [VObj [("iso_639_1", VStr "de"); ("iso_3166_1", VStr "DE");
                    ("data", VObj [("title", VStr "Die fabelhafte Welt")])];
              VObj [("iso_639_1", VStr "xx"); ("data", VObj [])]]);
       ("results", VStr "none");
       ("titles",
        VArr [VObj [("iso_3166_1", VStr "US"); ("title", VStr "Amelie from Montmartre");
                    ("type", VStr "dvd")];
              VObj [("title", VStr "Untitled")]]);
       ("movie_results", VArr [VObj [("title", VStr "No id")]; VObj [("id", num 7)]]);
       ("tv_results", VArr [VObj [("id", num 194); ("name", VStr "Amelie")]])])])
|}.

End Tmdb.

(* ================================================================== *)
(** * Properties of the language operations *)
(* ================================================================== *)

Module JsFacts.
Import Js.

Section Objects.
Context {A : Type}.
Implicit Types (k : string) (fs : list (string * A)).

Lemma lookup_None k fs : lookup k fs = None <-> ~ In k (map fst fs).
Proof.
  induction fs as [| [k' v] fs IH]; simpl.
  - tauto.
  - destruct (String.eqb_spec k' k) as [-> | Hne].
    + split; [discriminate | tauto].
    + rewrite IH. tauto.
Qed.


Lemma lookup_set_same k (v : A) fs : lookup k (set k v fs) = Some v.
Proof.
  induction fs as [| [k' v'] fs IH]; simpl.
  - now rewrite String.eqb_refl.
  - destruct (k' =? k) eqn:E; simpl; now rewrite E.
Qed.

Lemma lookup_set_other k k' (v : A) fs :
  k <> k' -> lookup k (set k' v fs) = lookup k fs.
Proof.
  intros Hne. induction fs as [| [k0 v0] fs IH]; simpl.
  - destruct (String.eqb_spec k' k); congruence.
  - destruct (String.eqb_spec k0 k') as [-> | Hne0]; simpl.
    + destruct (String.eqb_spec k' k); congruence.
    + now rewrite IH.
Qed.


Lemma map_fst_set k (v : A) fs :
  map fst (set k v fs) = if has k fs then map fst fs else map fst fs ++ [k].
Proof.
  unfold has. induction fs as [| [k' v'] fs IH]; simpl; [reflexivity |].
  destruct (k' =? k) eqn:E; simpl; [reflexivity |].
  rewrite IH. now destruct (lookup k fs).
Qed.

End Objects.



End JsFacts.

(* ================================================================== *)
(** * Properties of the result helpers *)
(* ================================================================== *)

Module HelpersFacts.
Import Js Helpers JsFacts.

Section Facts.
Context {platform : Platform} {collaborators : Collaborators}.

Lemma keepsSize_sound (m : Q) (item : Val) :
  keepsSize (VNum (Fin m)) item = true ->
  sizeAtMost (VNum (Fin m)) item \/ sizeUnknown item.
Proof.
  unfold keepsSize, sizeAtMost, sizeUnknown, sizeOf.
  destruct (get_opt item "size") as [| | b | [| | | size] | s | l | fs | es | ms];
    simpl; auto.
  intros H. left. now apply Qle_bool_iff.
Qed.

Lemma keepsSize_unknown (maxSizeBytes item : Val) :
  sizeUnknown item -> keepsSize maxSizeBytes item = true.
Proof.
  unfold keepsSize, sizeUnknown, sizeOf. intros ->. reflexivity.
Qed.

Lemma positiveFinite_guard (maxSizeBytes : Val) :
  positiveFinite maxSizeBytes ->
  negb (Number_isFinite maxSizeBytes) || number_leb maxSizeBytes (num 0) = false.
Proof.
  destruct maxSizeBytes as [| | b | [| | | q] | s | l | fs | es | ms]; simpl; try tauto.
  intros H. destruct (Qle_bool q (inject_Z 0)) eqn:E; [| reflexivity].
  apply Qle_bool_iff in E. change (inject_Z 0) with 0%Q in E. lra.
Qed.

Lemma not_positiveFinite_guard (maxSizeBytes : Val) :
  ~ positiveFinite maxSizeBytes ->
  negb (Number_isFinite maxSizeBytes) || number_leb maxSizeBytes (num 0) = true.
Proof.
  destruct maxSizeBytes as [| | b | [| | | q] | s | l | fs | es | ms]; simpl; try tauto.
  intros H. destruct (Qle_bool q (inject_Z 0)) eqn:E; [reflexivity |].
  exfalso. apply H. destruct (Qlt_le_dec 0 q) as [L | L]; [exact L |].
  apply Qle_bool_iff in L. change 0%Q with (inject_Z 0) in L. congruence.
Qed.

Lemma applyMaxSizeFilter_copies (results maxSizeBytes : Val) :
  Array_isArray results = true -> positiveFinite maxSizeBytes ->
  applyMaxSizeFilter results maxSizeBytes =
  Fresh (VArr (filter (keepsSize maxSizeBytes) (elements results))).
Proof.
  intros Harr Hpos. unfold applyMaxSizeFilter.
  now rewrite <- orb_assoc, Harr, (positiveFinite_guard _ Hpos).
Qed.

Lemma applyMaxSizeFilter_same (results maxSizeBytes : Val) :
  Array_isArray results = false \/ ~ positiveFinite maxSizeBytes ->
  applyMaxSizeFilter results maxSizeBytes = Argument.
Proof.
  intros [Hnot | Hnot]; unfold applyMaxSizeFilter; rewrite <- orb_assoc.
  - rewrite Hnot. reflexivity.
  - rewrite (not_positiveFinite_guard _ Hnot). now rewrite orb_true_r.
Qed.

(** C3.  With a positive finite [maxSizeBytes], [applyMaxSizeFilter]
    returns a new array in which every item has a size of at most
    [maxSizeBytes] or a size that is not a finite number, and no item of
    unknown size is dropped; with any other [maxSizeBytes], or when
    [results] is not an array, it returns its argument. *)
Theorem applyMaxSizeFilter_bound (results maxSizeBytes : Val) :
  (Array_isArray results = true -> positiveFinite maxSizeBytes ->
   exists kept,
     applyMaxSizeFilter results maxSizeBytes = Fresh (VArr kept)
     /\ Forall (fun item => sizeAtMost maxSizeBytes item \/ sizeUnknown item) kept
     /\ (forall item, In item (elements results) -> sizeUnknown item -> In item kept))
  /\ (Array_isArray results = false \/ ~ positiveFinite maxSizeBytes ->
      applyMaxSizeFilter results maxSizeBytes = Argument).
Proof.
  split; [| apply applyMaxSizeFilter_same].
  intros Harr Hpos. rewrite (applyMaxSizeFilter_copies _ _ Harr Hpos).
  eexists. split; [reflexivity |]. split.
  - apply Forall_forall. intros item Hin. apply filter_In in Hin as [_ Hkeep].
    destruct maxSizeBytes as [| | b | [| | | m] | s | l | fs | es | ms];
      simpl in Hpos; try tauto.
    now apply keepsSize_sound.
  - intros item Hin Hunknown. apply filter_In. split; [exact Hin |].
    now apply keepsSize_unknown.
Qed.


Lemma annotateNzbResult_passes (result sortIndex : Val) :
  truthy result = false \/ typeof_object result = false ->
  annotateNzbResult result sortIndex = Normal result.
Proof.
  intros [Hf | Hf]; unfold annotateNzbResult, falsy; rewrite Hf; simpl.
  - reflexivity.
  - now rewrite orb_true_r.
Qed.


(** *** [prioritizeTriageCandidates] *)

Lemma sameValueZero_trans (a b c : Val) :
  sameValueZero a b = true -> sameValueZero b c = true -> sameValueZero a c = true.
Proof.
  destruct a as [| | x | [| | | x] | x | x | x | x | x];
    destruct b as [| | y | [| | | y] | y | y | y | y | y]; simpl; try discriminate;
    destruct c as [| | z | [| | | z] | z | z | z | z | z]; simpl; try discriminate;
    auto.
  - intros H1 H2. apply eqb_prop in H1, H2. subst. apply eqb_reflx.
  - intros H1 H2. apply Qeq_bool_iff in H1, H2. apply Qeq_bool_iff.
    now rewrite H1.
  - intros H1 H2. apply String.eqb_eq in H1, H2. subst. apply String.eqb_refl.
Qed.

Lemma candidateKey_keyOf (result : Val) :
  truthy result = true -> candidateKey result = Normal (keyOf result).
Proof.
  intros Ht. unfold candidateKey, keyOf, get_opt, or_else.
  destruct result; simpl in *; try discriminate;
    repeat match goal with |- context [if ?b then _ else _] => destruct b end;
    reflexivity.
Qed.

Lemma stops_lengthCap (n : Num) (len : nat) :
  num_geb (num_of_nat len) (num_max (Fin 1) n) =
  match lengthCap n with
  | None => false
  | Some c => (c <=? len)%nat
  end.
Proof.
  assert (Hqz : forall (q : Q), (1 <= q)%Q ->
    Qle_bool q (inject_Z (Z.of_nat len)) = (Z.to_nat (Qceiling q) <=? len)%nat).
  { intros q Hq.
    assert (Hc : (1 <= Qceiling q)%Z).
    { change 1%Z with (Qceiling 1). now apply Qceiling_resp_le. }
    destruct (Nat.leb_spec (Z.to_nat (Qceiling q)) len) as [L | L].
    - apply Qle_bool_iff. apply Qle_trans with (inject_Z (Qceiling q)).
      + apply Qle_ceiling.
      + rewrite <- Zle_Qle. lia.
    - destruct (Qle_bool q (inject_Z (Z.of_nat len))) eqn:E; [| reflexivity].
      apply Qle_bool_iff in E. apply Qceiling_resp_le in E.
      rewrite Qceiling_Z in E. lia. }
  destruct n as [| | | q]; unfold num_geb, num_of_nat; simpl; try reflexivity.
  - apply (Hqz 1%Q). apply Qle_refl.
  - destruct (Qle_bool q 1) eqn:E; simpl.
    + apply (Hqz 1%Q). apply Qle_refl.
    + apply Hqz. destruct (Qlt_le_dec 1 q) as [L | L].
      * now apply Qlt_le_weak.
      * apply Qle_bool_iff in L. congruence.
Qed.

Lemma Math_max_one (maxCandidates : Val) (n : Num) :
  ToNumber maxCandidates = Normal n ->
  Math_max (num 1) maxCandidates = Normal (num_max (Fin 1) n).
Proof.
  intros Hn. unfold Math_max. cbn [ToNumber num bind]. now rewrite Hn.
Qed.

Lemma prioritizeLoop_spec (maxCandidates : Val) (n : Num) :
  ToNumber maxCandidates = Normal n ->
  forall results seenTitles selected,
    match lengthCap n with
    | None => True
    | Some c => (List.length selected < c)%nat
    end ->
    prioritizeLoop maxCandidates seenTitles selected results =
    Normal (selected ++ takeUpTo (lengthCap n) (List.length selected)
                          (unseenFirst seenTitles results)).
Proof.
  intros Hn. induction results as [| result rest IH]; intros seen selected Hlen.
  - simpl. unfold takeUpTo. destruct (lengthCap n); simpl.
    + now rewrite firstn_nil, app_nil_r.
    + now rewrite app_nil_r.
  - simpl. destruct (falsy result) eqn:Hf; simpl.
    + now apply IH.
    + rewrite candidateKey_keyOf
        by (unfold falsy in Hf; now destruct (truthy result)).
      cbn [bind]. destruct (Set_has (keyOf result) seen) eqn:Hs.
      * now apply IH.
      * rewrite (Math_max_one _ _ Hn). cbn [bind].
        rewrite stops_lengthCap, length_app. simpl.
        unfold takeUpTo in *. destruct (lengthCap n) as [c |].
        -- destruct (Nat.leb_spec c (List.length selected + 1)) as [L | L].
           ++ replace (c - List.length selected)%nat with 1%nat by lia.
              reflexivity.
           ++ rewrite IH by (rewrite length_app; simpl; lia).
              rewrite length_app. simpl.
              replace (c - List.length selected)%nat
                with (S (c - (List.length selected + 1)))%nat by lia.
              simpl. now rewrite <- app_assoc.
        -- rewrite IH by exact I. now rewrite <- app_assoc.
Qed.

Lemma unseenFirst_firstOccurrences (results before seenTitles : list Val) :
  (forall k, Set_has k seenTitles =
             existsb (fun e => truthy e && sameValueZero (keyOf e) k) before) ->
  unseenFirst seenTitles results = firstOccurrences before results.
Proof.
  revert before seenTitles.
  induction results as [| result rest IH]; intros before seen Hinv; simpl;
    [reflexivity |].
  unfold falsy. destruct (truthy result) eqn:Ht; simpl.
  - unfold sharesKey at 1. rewrite <- (Hinv (keyOf result)).
    destruct (Set_has (keyOf result) seen) eqn:Hs; simpl.
    + apply IH. intros k. rewrite existsb_app. simpl. rewrite Ht, orb_false_r.
      rewrite <- Hinv. simpl.
      destruct (sameValueZero (keyOf result) k) eqn:Hk;
        [| now rewrite orb_false_r].
      rewrite orb_true_r. unfold Set_has in *.
      apply existsb_exists in Hs as [s [Hin Heq]].
      apply existsb_exists. exists s. split; [exact Hin |].
      now apply sameValueZero_trans with (keyOf result).
    + f_equal. apply IH. intros k. unfold Set_has in *.
      rewrite !existsb_app. simpl. rewrite Ht, !orb_false_r. simpl.
      now rewrite <- Hinv.
  - apply IH. intros k. rewrite existsb_app. simpl. rewrite Ht. simpl.
    rewrite orb_false_r. apply Hinv.
Qed.

Lemma prioritizeTriageCandidates_capped (results : list Val) (maxCandidates : Val)
  (n : Num) :
  ToNumber maxCandidates = Normal n ->
  prioritizeTriageCandidates (VArr results) maxCandidates =
  Normal (VArr (capped n (firstOccurrences [] results))).
Proof.
  intros Hn. unfold prioritizeTriageCandidates. simpl.
  destruct results as [| r rest]; simpl Nat.eqb; cbv iota.
  - unfold capped. simpl. destruct (lengthCap n); now rewrite ?firstn_nil.
  - rewrite (prioritizeLoop_spec _ _ Hn).
    + rewrite (unseenFirst_firstOccurrences (r :: rest) [] [])
        by (intros k; reflexivity).
      cbn [bind app List.length]. unfold capped, takeUpTo.
      destruct (lengthCap n) as [c |]; [| reflexivity].
      now rewrite Nat.sub_0_r.
    + destruct n as [| | | q]; simpl; try exact I; try lia.
      assert (H1 : (1 <= Qceiling (if Qle_bool q 1 then 1 else q))%Z).
      { change 1%Z with (Qceiling 1) at 1. apply Qceiling_resp_le.
        destruct (Qle_bool q 1) eqn:E; [apply Qle_refl |].
        destruct (Qlt_le_dec 1 q) as [L | L]; [now apply Qlt_le_weak |].
        apply Qle_bool_iff in L. congruence. }
      lia.
Qed.

(** C10, as the code has it.  With a [maxCandidates] that converts to the
    number [n], [prioritizeTriageCandidates] returns the first occurrence
    of every distinct key in input order, cut at the first length that
    reaches [Math.max(1, n)]; when [n] is [NaN], as for an omitted
    [maxCandidates], nothing is cut. *)
Theorem prioritizeTriageCandidates_selection (results : list Val) (maxCandidates : Val)
  (n : Num) :
  ToNumber maxCandidates = Normal n ->
  prioritizeTriageCandidates (VArr results) maxCandidates =
    Normal (VArr (capped n (firstOccurrences [] results)))
  /\ (n = NaN -> capped n (firstOccurrences [] results) = firstOccurrences [] results).
Proof.
  intros Hn. split; [now apply prioritizeTriageCandidates_capped |].
  intros ->. reflexivity.
Qed.

(** *** [buildTriageTitleMap] *)

Lemma get_truthy (v : Val) (k : string) :
  truthy v = true -> get v k = Normal (get_opt v k).
Proof.
  unfold get_opt. destruct v; simpl; try discriminate; reflexivity.
Qed.

Lemma foldM_pure {A S} (f : S -> A -> Completion S) (g : S -> A -> S) :
  (forall s x, f s x = Normal (g s x)) ->
  forall l s, foldM f s l = Normal (fold_left g l s).
Proof.
  intros Hfg. induction l as [| x l IH]; intros s; simpl; [reflexivity |].
  rewrite Hfg. simpl. apply IH.
Qed.

Lemma sameValueZero_sym (a b : Val) : sameValueZero a b = sameValueZero b a.
Proof.
  destruct a as [| | x | [| | | x] | x | x | x | x | x];
    destruct b as [| | y | [| | | y] | y | y | y | y | y]; simpl; try reflexivity.
  - now destruct x, y.
  - destruct (Qeq_bool x y) eqn:E1, (Qeq_bool y x) eqn:E2; try reflexivity.
    + apply Qeq_bool_iff in E1. symmetry in E1. apply Qeq_bool_iff in E1. congruence.
    + apply Qeq_bool_iff in E2. symmetry in E2. apply Qeq_bool_iff in E2. congruence.
  - apply String.eqb_sym.
Qed.

Section MapLemmas.
Context {A : Type}.
Implicit Types (m : list (Val * A)) (k t : Val).

Lemma Map_get_same_key k t m :
  sameValueZero k t = true -> Map_get k m = Map_get t m.
Proof.
  intros Hkt. induction m as [| [k' v'] m IH]; simpl; [reflexivity |].
  destruct (sameValueZero k' k) eqn:E1, (sameValueZero k' t) eqn:E2;
    try reflexivity; try exact IH.
  - now rewrite (sameValueZero_trans _ _ _ E1 Hkt) in E2.
  - rewrite sameValueZero_sym in Hkt.
    now rewrite (sameValueZero_trans _ _ _ E2 Hkt) in E1.
Qed.

Lemma Map_get_set_same k t (v : A) m :
  sameValueZero k t = true -> Map_get t (Map_set k v m) = Some v.
Proof.
  intros Hkt. induction m as [| [k' v'] m IH]; simpl.
  - now rewrite Hkt.
  - destruct (sameValueZero k' k) eqn:E1; simpl.
    + now rewrite (sameValueZero_trans _ _ _ E1 Hkt).
    + destruct (sameValueZero k' t) eqn:E2; [| exact IH].
      rewrite sameValueZero_sym in Hkt.
      now rewrite (sameValueZero_trans _ _ _ E2 Hkt) in E1.
Qed.

Lemma Map_get_set_other k t (v : A) m :
  sameValueZero k t = false -> Map_get t (Map_set k v m) = Map_get t m.
Proof.
  intros Hkt. induction m as [| [k' v'] m IH]; simpl.
  - now rewrite Hkt.
  - destruct (sameValueZero k' k) eqn:E1; simpl.
    + destruct (sameValueZero k' t) eqn:E2; [| reflexivity].
      rewrite sameValueZero_sym in E1.
      now rewrite (sameValueZero_trans _ _ _ E1 E2) in Hkt.
    + now rewrite IH.
Qed.

End MapLemmas.

Lemma titleEntry_entryOf (downloadUrl decision : Val) :
  truthy decision = true ->
  titleEntry (statusOf decision) (titleOf decision) downloadUrl decision =
  Normal (entryOf downloadUrl decision).
Proof.
  intros Ht. unfold titleEntry. rewrite !(get_truthy _ _ Ht). reflexivity.
Qed.

Lemma decisionTitle_titleOf (decision : Val) :
  truthy decision = true -> decisionTitle decision = Normal (titleOf decision).
Proof.
  intros Ht. unfold decisionTitle, titleOf, or_else.
  rewrite !(get_truthy _ _ Ht). cbn [bind].
  destruct (truthy (get_opt decision "normalizedTitle")); reflexivity.
Qed.

Lemma titleMapStep_mergeStep (titleMap : list (Val * Val)) (entry : Val * Val) :
  titleMapStep titleMap entry = Normal (mergeStep titleMap entry).
Proof.
  destruct entry as [url d]. unfold titleMapStep, mergeStep, counted, falsy. simpl.
  destruct (truthy d) eqn:Ht; simpl; [| reflexivity].
  rewrite (get_truthy _ _ Ht). cbn [bind]. fold (statusOf d).
  change (negb (truthy (statusOf d)) || strict_eq (statusOf d) (VStr "pending")
          || strict_eq (statusOf d) (VStr "skipped"))
    with (skippedStatus (statusOf d)).
  destruct (skippedStatus (statusOf d)); simpl; [reflexivity |].
  rewrite (decisionTitle_titleOf _ Ht). cbn [bind].
  destruct (truthy (titleOf d)); simpl; [| reflexivity].
  destruct (Map_get (titleOf d) titleMap) as [stored |]; cbn [bind].
  - destruct (truthy stored) eqn:Hs; simpl.
    + rewrite (get_truthy _ _ Hs). cbn [bind]. fold (statusOf stored).
      unfold rankOf. rewrite Nat.leb_antisym.
      destruct (triageStatusRank (statusOf d) <? triageStatusRank (statusOf stored))%nat;
        simpl; [reflexivity |].
      now rewrite (titleEntry_entryOf _ _ Ht).
    + now rewrite (titleEntry_entryOf _ _ Ht).
  - now rewrite (titleEntry_entryOf _ _ Ht).
Qed.

Lemma buildTriageTitleMap_fold (entries : list (Val * Val)) :
  buildTriageTitleMap (VMap entries) = Normal (VMap (fold_left mergeStep entries [])).
Proof.
  unfold buildTriageTitleMap.
  now rewrite (foldM_pure _ _ titleMapStep_mergeStep).
Qed.

Lemma storedFrom_step (seen titleMap : list (Val * Val)) (entry : Val * Val) :
  storedFrom seen titleMap -> storedFrom (seen ++ [entry]) (mergeStep titleMap entry).
Proof.
  intros Hinv.
  assert (Hkeep : storedFrom (seen ++ [entry]) titleMap).
  { intros t x Hget. destruct (Hinv t x Hget) as [e [Hin He]].
    exists e. split; [apply in_or_app; now left | exact He]. }
  assert (Hset : storedFrom (seen ++ [entry])
            (Map_set (titleOf (snd entry)) (entryOf (fst entry) (snd entry)) titleMap)
          \/ counted (snd entry) = false).
  { destruct (counted (snd entry)) eqn:Hc; [left | now right].
    intros t x Hget.
    destruct (sameValueZero (titleOf (snd entry)) t) eqn:Hk.
    - rewrite (Map_get_set_same _ _ _ _ Hk) in Hget. injection Hget as <-.
      exists entry. split; [apply in_or_app; right; now left |].
      split; [| reflexivity]. unfold filedUnder. now rewrite Hc, Hk.
    - rewrite (Map_get_set_other _ _ _ _ Hk) in Hget. now apply Hkeep. }
  unfold mergeStep. destruct Hset as [Hset | Hc].
  - destruct (counted (snd entry)); [| exact Hkeep].
    destruct (Map_get _ titleMap) as [stored |]; [| exact Hset].
    now destruct (_ && _).
  - now rewrite Hc.
Qed.

Lemma storedFrom_fold (entries seen titleMap : list (Val * Val)) :
  storedFrom seen titleMap ->
  storedFrom (seen ++ entries) (fold_left mergeStep entries titleMap).
Proof.
  revert seen titleMap.
  induction entries as [| e entries IH]; intros seen tm Hinv; simpl.
  - now rewrite app_nil_r.
  - replace (seen ++ e :: entries) with ((seen ++ [e]) ++ entries)
      by now rewrite <- app_assoc.
    apply IH. now apply storedFrom_step.
Qed.

Lemma statusOf_entryOf (downloadUrl decision : Val) :
  statusOf (entryOf downloadUrl decision) = statusOf decision.
Proof. reflexivity. Qed.

Lemma outranked_fold (title winner : Val) (rank : nat) :
  triageStatusRank (statusOf winner) = rank -> truthy winner = true ->
  forall entries titleMap,
    Map_get title titleMap = Some winner ->
    (forall entry, In entry entries -> filedUnder title entry = true ->
                   (rankOf (snd entry) < rank)%nat) ->
    Map_get title (fold_left mergeStep entries titleMap) = Some winner.
Proof.
  intros Hrank Htruthy.
  induction entries as [| e entries IH]; intros tm Hget Hlow; simpl; [exact Hget |].
  apply IH; [| intros e' Hin; apply Hlow; now right].
  unfold mergeStep. destruct (counted (snd e)) eqn:Hc; [| exact Hget].
  destruct (sameValueZero (titleOf (snd e)) title) eqn:Hk.
  - rewrite (Map_get_same_key _ _ _ Hk), Hget, Htruthy, Hrank. simpl.
    assert (Hlt : (rankOf (snd e) < rank)%nat).
    { apply Hlow; [now left |]. unfold filedUnder. now rewrite Hc, Hk. }
    apply Nat.ltb_lt in Hlt. now rewrite Hlt.
  - destruct (Map_get (titleOf (snd e)) tm) as [stored |].
    + destruct (_ && _); [exact Hget |]. now rewrite Map_get_set_other.
    + now rewrite Map_get_set_other.
Qed.

(** The entry of a title after all decisions: that of the last decision
    among those of highest rank filed under it. *)
Lemma buildTriageTitleMap_winner (before after : list (Val * Val))
  (downloadUrl decision : Val) :
  counted decision = true ->
  sameValueZero (titleOf decision) (titleOf decision) = true ->
  (forall entry, In entry before -> filedUnder (titleOf decision) entry = true ->
                 (rankOf (snd entry) <= rankOf decision)%nat) ->
  (forall entry, In entry after -> filedUnder (titleOf decision) entry = true ->
                 (rankOf (snd entry) < rankOf decision)%nat) ->
  exists titleMap,
    buildTriageTitleMap (VMap (before ++ (downloadUrl, decision) :: after))
      = Normal (VMap titleMap)
    /\ Map_get (titleOf decision) titleMap = Some (entryOf downloadUrl decision).
Proof.
  intros Hc Hrefl Hbefore Hafter.
  rewrite buildTriageTitleMap_fold. eexists. split; [reflexivity |].
  rewrite fold_left_app. simpl.
  apply (outranked_fold _ _ (rankOf decision)); auto.
  set (tm := fold_left mergeStep before []).
  assert (Hinv : storedFrom before tm).
  { apply (storedFrom_fold before [] []). intros t x Hget. discriminate. }
  unfold mergeStep. simpl. rewrite Hc.
  destruct (Map_get (titleOf decision) tm) as [stored |] eqn:Hget.
  - destruct (Hinv _ _ Hget) as [e [Hin [Hfiled ->]]].
    rewrite statusOf_entryOf. simpl truthy.
    assert (Hle : (rankOf (snd e) <= rankOf decision)%nat) by now apply Hbefore.
    apply Nat.ltb_ge in Hle. unfold rankOf in *. rewrite Hle. simpl.
    now apply Map_get_set_same.
  - now apply Map_get_set_same.
Qed.

Lemma statusOf_string (decision : Val) (s : string) :
  statusOf decision = VStr s -> truthy decision = true.
Proof.
  unfold statusOf, get_opt. destruct decision; simpl; try discriminate; auto.
  all: destruct ("status" =? _); discriminate.
Qed.

(** C2.  [buildTriageTitleMap] passes over every decision whose status is
    missing, ['pending'] or ['skipped']; a later decision replaces the
    stored entry of its title exactly when its rank is at least the stored
    one's; so a title ends with the entry of the last of its decisions of
    highest rank.  Of a ['pending'] and a ['verified'] decision of one
    title only the ['verified'] one is in the map, and a ['blocked']
    decision after a ['verified'] one takes its place. *)
Theorem buildTriageTitleMap_merge :
  (forall titleMap downloadUrl decision,
     skippedStatus (statusOf decision) = true ->
     titleMapStep titleMap (downloadUrl, decision) = Normal titleMap)
  /\ (forall titleMap downloadUrl decision stored,
       counted decision = true ->
       Map_get (titleOf decision) titleMap = Some stored -> truthy stored = true ->
       titleMapStep titleMap (downloadUrl, decision) =
       Normal (if (triageStatusRank (statusOf stored) <=? rankOf decision)%nat
               then Map_set (titleOf decision) (entryOf downloadUrl decision) titleMap
               else titleMap))
  /\ (forall before after downloadUrl decision,
       counted decision = true ->
       sameValueZero (titleOf decision) (titleOf decision) = true ->
       (forall entry, In entry before -> filedUnder (titleOf decision) entry = true ->
                      (rankOf (snd entry) <= rankOf decision)%nat) ->
       (forall entry, In entry after -> filedUnder (titleOf decision) entry = true ->
                      (rankOf (snd entry) < rankOf decision)%nat) ->
       exists titleMap,
         buildTriageTitleMap (VMap (before ++ (downloadUrl, decision) :: after))
           = Normal (VMap titleMap)
         /\ Map_get (titleOf decision) titleMap = Some (entryOf downloadUrl decision))
  /\ (forall url1 url2 pending verified,
       statusOf pending = VStr "pending" -> statusOf verified = VStr "verified" ->
       truthy (titleOf verified) = true ->
       buildTriageTitleMap (VMap [(url1, pending); (url2, verified)])
         = Normal (VMap [(titleOf verified, entryOf url2 verified)])
       /\ buildTriageTitleMap (VMap [(url2, verified); (url1, pending)])
         = Normal (VMap [(titleOf verified, entryOf url2 verified)]))
  /\ (forall url1 url2 verified blocked,
       statusOf verified = VStr "verified" -> statusOf blocked = VStr "blocked" ->
       truthy (titleOf verified) = true -> truthy (titleOf blocked) = true ->
       sameValueZero (titleOf verified) (titleOf blocked) = true ->
       buildTriageTitleMap (VMap [(url1, verified); (url2, blocked)])
         = Normal (VMap [(titleOf verified, entryOf url2 blocked)])).
Proof.
  split; [| split; [| split; [| split]]].
  - intros tm url d Hskip. rewrite titleMapStep_mergeStep.
    unfold mergeStep, counted. simpl. rewrite Hskip. simpl.
    now rewrite andb_false_r.
  - intros tm url d stored Hc Hget Hs. rewrite titleMapStep_mergeStep.
    unfold mergeStep. simpl. rewrite Hc, Hget, Hs. simpl.
    rewrite Nat.leb_antisym. now destruct (_ <? _)%nat.
  - intros. now apply buildTriageTitleMap_winner.
  - intros url1 url2 p v Hp Hv Ht.
    assert (Hcp : counted p = false).
    { unfold counted. rewrite Hp. simpl. now rewrite andb_false_r. }
    assert (Hcv : counted v = true).
    { unfold counted. rewrite Hv, Ht, (statusOf_string _ _ Hv). reflexivity. }
    rewrite !buildTriageTitleMap_fold. unfold mergeStep. simpl.
    rewrite Hcp, Hcv. simpl. auto.
  - intros url1 url2 v b Hv Hb Htv Htb Hsame.
    assert (Hcv : counted v = true).
    { unfold counted. rewrite Hv, Htv, (statusOf_string _ _ Hv). reflexivity. }
    assert (Hcb : counted b = true).
    { unfold counted. rewrite Hb, Htb, (statusOf_string _ _ Hb). reflexivity. }
    rewrite buildTriageTitleMap_fold. unfold mergeStep. simpl.
    rewrite Hcv, Hcb. simpl. rewrite Hsame.
    unfold rankOf. rewrite statusOf_entryOf, Hv, Hb. reflexivity.
Qed.

(** *** Sorting *)

Section SortFacts.
Context {A : Type} (comparefn : A -> A -> Completion Val).
Context (P : A -> Prop) (le : A -> A -> bool).
Hypothesis compare_le :
  forall x y, P x -> P y -> comes_after comparefn x y = Normal (negb (le x y)).
Hypothesis le_total : forall x y, P x -> P y -> le x y = false -> le y x = true.
Hypothesis le_trans :
  forall x y z, P x -> P y -> P z -> le x y = true -> le y z = true -> le x z = true.

Let ordered (x y : A) : Prop := le x y = true.

Lemma sort_insert_sorted (x : A) (sorted : list A) :
  P x -> Forall P sorted -> StronglySorted ordered sorted ->
  exists r,
    sort_insert comparefn x sorted = Normal r
    /\ Permutation (x :: sorted) r /\ StronglySorted ordered r.
Proof.
  intros Hx. induction sorted as [| y rest IH]; intros HP Hs; simpl.
  - exists [x]. repeat split; auto. constructor; constructor.
  - inversion HP as [| ? ? Hy HPrest]; subst.
    inversion Hs as [| ? ? Hsrest Hall]; subst.
    rewrite (compare_le x y Hx Hy). cbn [bind].
    destruct (le x y) eqn:Hle; simpl.
    + exists (x :: y :: rest). repeat split; auto.
      constructor; [exact Hs |]. constructor; [exact Hle |].
      rewrite Forall_forall in *. intros z Hz.
      apply (le_trans x y z); auto. now apply Hall.
    + destruct (IH HPrest Hsrest) as [r [-> [Hperm Hsorted]]]. cbn [bind].
      exists (y :: r). repeat split.
      * rewrite perm_swap. now constructor.
      * constructor; [exact Hsorted |].
        apply (Permutation_Forall Hperm). constructor; [| exact Hall].
        now apply le_total.
Qed.

Lemma sort_list_sorted (l : list A) :
  Forall P l ->
  exists s,
    sort_list comparefn l = Normal s
    /\ Permutation l s /\ StronglySorted ordered s.
Proof.
  induction l as [| x l IH]; intros HP; simpl.
  - exists []. repeat split; auto. constructor.
  - inversion HP as [| ? ? Hx HPl]; subst.
    destruct (IH HPl) as [s [-> [Hperm Hs]]]. cbn [bind].
    destruct (sort_insert_sorted x s Hx (Permutation_Forall Hperm HPl) Hs)
      as [r [-> [Hperm' Hr]]].
    exists r. repeat split; auto.
    apply Permutation_trans with (x :: s); auto.
Qed.

End SortFacts.

Lemma Qle_bool_false (a b : Q) : Qle_bool a b = false -> (b < a)%Q.
Proof.
  intros H. destruct (Qlt_le_dec b a) as [L | L]; [exact L |].
  apply Qle_bool_iff in L. congruence.
Qed.

Ltac bool_to_Q :=
  repeat match goal with
  | H : _ || _ = true |- _ => apply orb_true_iff in H; destruct H as [H | H]
  | H : _ && _ = true |- _ => apply andb_true_iff in H; destruct H
  | H : _ || _ = false |- _ => apply orb_false_iff in H; destruct H
  | H : _ && _ = false |- _ => apply andb_false_iff in H; destruct H as [H | H]
  | H : negb _ = true |- _ => apply negb_true_iff in H
  | H : negb _ = false |- _ => apply negb_false_iff in H
  | H : Qle_bool _ _ = true |- _ => apply Qle_bool_iff in H
  | H : Qle_bool _ _ = false |- _ => apply Qle_bool_false in H
  | H : Qeq_bool _ _ = true |- _ => apply Qeq_bool_iff in H
  | H : Qeq_bool _ _ = false |- _ => apply Qeq_bool_neq in H
  end.

Lemma qualityThenSize_total (a b : Val) :
  qualityThenSize a b = false -> qualityThenSize b a = true.
Proof.
  unfold qualityThenSize. intros H. bool_to_Q.
  - apply orb_true_iff.
    destruct (Qle_bool (rankValue b) (rankValue a)) eqn:E; [right | now left].
    apply Qle_bool_iff in E. apply andb_true_iff. split.
    + apply Qeq_bool_iff. lra.
    + exfalso. apply H0. lra.
  - apply orb_true_iff.
    destruct (Qle_bool (rankValue b) (rankValue a)) eqn:E; [right | now left].
    apply Qle_bool_iff in E. apply andb_true_iff. split.
    + apply Qeq_bool_iff. lra.
    + apply Qle_bool_iff. lra.
Qed.

Lemma qualityThenSize_trans (a b c : Val) :
  qualityThenSize a b = true -> qualityThenSize b c = true ->
  qualityThenSize a c = true.
Proof.
  unfold qualityThenSize. intros H1 H2. bool_to_Q; apply orb_true_iff.
  - left. apply negb_true_iff.
    destruct (Qle_bool (rankValue a) (rankValue c)) eqn:E; [| reflexivity].
    apply Qle_bool_iff in E. lra.
  - left. apply negb_true_iff.
    destruct (Qle_bool (rankValue a) (rankValue c)) eqn:E; [| reflexivity].
    apply Qle_bool_iff in E. lra.
  - left. apply negb_true_iff.
    destruct (Qle_bool (rankValue a) (rankValue c)) eqn:E; [| reflexivity].
    apply Qle_bool_iff in E. lra.
  - right. apply andb_true_iff. split.
    + apply Qeq_bool_iff. lra.
    + apply Qle_bool_iff. lra.
Qed.

Lemma annotatedResult_truthy (r : Val) : annotatedResult r = true -> truthy r = true.
Proof.
  unfold annotatedResult. intros H. now repeat (apply andb_true_iff in H as [H _]).
Qed.

Lemma annotatedResult_rank (r : Val) :
  annotatedResult r = true -> get_opt r "qualityRank" = VNum (Fin (rankValue r)).
Proof.
  unfold annotatedResult, rankValue. intros H.
  do 2 (apply andb_true_iff in H as [H _]).
  apply andb_true_iff in H as [_ H].
  destruct (get_opt r "qualityRank") as [| | ? | [| | | q] | ? | ? | ? | ? | ?];
    simpl in H; try discriminate; reflexivity.
Qed.

Lemma finiteOrZero_sizeValue (r : Val) :
  finiteOrZero (get_opt r "size") = VNum (Fin (sizeValue r)).
Proof.
  unfold finiteOrZero, sizeValue.
  destruct (get_opt r "size") as [| | ? | [| | | q] | ? | ? | ? | ? | ?]; reflexivity.
Qed.

Lemma compareQualityThenSize_order (a b : Val) :
  annotatedResult a = true -> annotatedResult b = true ->
  comes_after compareQualityThenSize a b = Normal (negb (qualityThenSize a b)).
Proof.
  intros Ha Hb. unfold comes_after, compareQualityThenSize.
  rewrite !(get_truthy _ _ (annotatedResult_truthy _ Ha)).
  rewrite !(get_truthy _ _ (annotatedResult_truthy _ Hb)).
  rewrite (annotatedResult_rank _ Ha), (annotatedResult_rank _ Hb).
  cbn [bind strict_eq num_eqb]. rewrite !finiteOrZero_sizeValue.
  unfold qualityThenSize.
  destruct (Qeq_bool (rankValue a) (rankValue b)) eqn:Heq;
    cbn [negb sub ToNumber bind num_sub num_ltb]; f_equal.
  - apply Qeq_bool_iff in Heq.
    destruct (Qle_bool (rankValue a) (rankValue b)) eqn:E1;
      [| apply Qle_bool_false in E1; lra].
    cbn [negb orb andb].
    destruct (Qle_bool (sizeValue b) (sizeValue a)) eqn:E2,
             (Qle_bool (sizeValue b - sizeValue a) 0) eqn:E3; try reflexivity;
      bool_to_Q; lra.
  - apply Qeq_bool_neq in Heq. rewrite andb_false_l, orb_false_r.
    destruct (Qle_bool (rankValue a) (rankValue b)) eqn:E2,
             (Qle_bool (rankValue b - rankValue a) 0) eqn:E3; try reflexivity;
      bool_to_Q; lra.
Qed.

Lemma Array_sort_annotated (items : list Val) :
  Forall (fun r => annotatedResult r = true) items ->
  exists sorted,
    Array_sort compareQualityThenSize items = Normal sorted
    /\ Permutation items sorted
    /\ StronglySorted (fun a b => qualityThenSize a b = true) sorted.
Proof.
  intros Hall. unfold Array_sort.
  assert (Hdef : filter (fun v => negb (is_undefined v)) items = items
                 /\ filter is_undefined items = []).
  { induction Hall as [| r l Hr _ [IH1 IH2]]; [now split |].
    apply annotatedResult_truthy in Hr. simpl.
    destruct r; simpl in *; try discriminate; now rewrite IH1, IH2. }
  destruct Hdef as [-> ->].
  destruct (sort_list_sorted compareQualityThenSize
              (fun r => annotatedResult r = true) qualityThenSize
              compareQualityThenSize_order
              (fun x y _ _ => qualityThenSize_total x y)
              (fun x y z _ _ _ => qualityThenSize_trans x y z) items Hall)
    as [s [-> [Hperm Hs]]].
  cbn [bind]. rewrite app_nil_r. now exists s.
Qed.

Lemma some_returns (f : Val -> Completion bool) (l : list Val) :
  Forall (fun x => exists b, f x = Normal b) l -> exists b, some f l = Normal b.
Proof.
  induction 1 as [| x l [b Hx] _ [b' IH]]; simpl; [now eexists |].
  rewrite Hx. cbn [bind]. destruct b; [now eexists | now exists b'].
Qed.

Lemma languageTag_compares (normalized lang : Val) :
  isLanguageTag lang = true ->
  exists b,
    (if truthy lang
     then (l <- call_toLowerCase lang ;; Normal (strict_eq l normalized))
     else Normal false) = Normal b.
Proof.
  unfold isLanguageTag, falsy. intros H.
  destruct (truthy lang); simpl in *; [| now eexists].
  destruct lang; simpl in *; try discriminate. now eexists.
Qed.

Lemma resultMatchesPreferredLanguage_returns (result : Val) (lang : string) :
  annotatedResult result = true ->
  exists b, resultMatchesPreferredLanguage result (VStr lang) = Normal b.
Proof.
  intros Ha. pose proof (annotatedResult_truthy _ Ha) as Ht.
  unfold annotatedResult in Ha.
  apply andb_true_iff in Ha as [Ha Hlangs]. apply andb_true_iff in Ha as [_ Hlang].
  unfold resultMatchesPreferredLanguage, falsy. rewrite Ht.
  destruct (truthy (VStr lang)); simpl negb; cbn [orb]; [| now eexists].
  cbn [call_toLowerCase bind]. rewrite !(get_truthy _ _ Ht). cbn [bind].
  destruct (languageTag_compares (VStr (toLowerCase lang)) _ Hlang) as [b ->].
  cbn [bind]. destruct b; [now eexists |].
  destruct (get_opt result "languages") as [| | ? | ? | ? | langs | ? | ? | ?];
    try (now eexists).
  apply some_returns. simpl in Hlangs. rewrite forallb_forall in Hlangs.
  apply Forall_forall. intros x Hx.
  now apply languageTag_compares, Hlangs.
Qed.

Lemma splitByLanguage_step (lang result : Val) (preferred others : list Val) (b : bool) :
  resultMatchesPreferredLanguage result lang = Normal b ->
  splitByLanguage lang (preferred, others) result =
  Normal (if b then (preferred ++ [result], others) else (preferred, others ++ [result])).
Proof.
  intros Hb. unfold splitByLanguage. rewrite Hb. now destruct b.
Qed.

Lemma splitByLanguage_fold (lang : string) (items : list Val) :
  Forall (fun r => annotatedResult r = true) items ->
  forall preferred0 others0,
  exists preferred others,
    foldM (splitByLanguage (VStr lang)) (preferred0, others0) items
      = Normal (preferred0 ++ preferred, others0 ++ others)
    /\ Forall (fun r => resultMatchesPreferredLanguage r (VStr lang) = Normal true)
         preferred
    /\ Forall (fun r => resultMatchesPreferredLanguage r (VStr lang) = Normal false)
         others
    /\ Permutation items (preferred ++ others)
    /\ Forall (fun r => annotatedResult r = true) preferred
    /\ Forall (fun r => annotatedResult r = true) others.
Proof.
  induction 1 as [| r items Hr _ IH]; intros p0 o0; cbn [foldM].
  - exists [], []. rewrite !app_nil_r. repeat split; constructor.
  - destruct (resultMatchesPreferredLanguage_returns r lang Hr) as [b Hb].
    rewrite (splitByLanguage_step _ _ _ _ _ Hb). cbn [bind]. destruct b.
    + destruct (IH (p0 ++ [r]) o0) as [p [o [-> [Hp [Ho [Hperm [Hap Hao]]]]]]].
      exists (r :: p), o. rewrite <- app_assoc. simpl.
      repeat split; auto.
    + destruct (IH p0 (o0 ++ [r])) as [p [o [-> [Hp [Ho [Hperm [Hap Hao]]]]]]].
      exists p, (r :: o). rewrite <- app_assoc. simpl.
      repeat split; auto.
      now apply Permutation_cons_app.
Qed.

Lemma sort_insert_permutation {A} (comparefn : A -> A -> Completion Val) (x : A) :
  forall sorted r,
    sort_insert comparefn x sorted = Normal r -> Permutation (x :: sorted) r.
Proof.
  induction sorted as [| y rest IH]; intros r; cbn [sort_insert].
  - now intros [= <-].
  - destruct (comes_after comparefn x y) as [[|] | e]; cbn [bind]; try discriminate.
    + destruct (sort_insert comparefn x rest) as [r' | e]; cbn [bind]; [| discriminate].
      intros [= <-]. rewrite perm_swap. constructor. now apply IH.
    + now intros [= <-].
Qed.

Lemma sort_list_permutation {A} (comparefn : A -> A -> Completion Val) :
  forall l s, sort_list comparefn l = Normal s -> Permutation l s.
Proof.
  induction l as [| x l IH]; intros s; cbn [sort_list].
  - now intros [= <-].
  - destruct (sort_list comparefn l) as [s' | e]; cbn [bind]; [| discriminate].
    intros Hins. apply sort_insert_permutation in Hins.
    apply Permutation_trans with (x :: s'); [| exact Hins].
    constructor. now apply IH.
Qed.

Lemma filter_split_permutation {A} (f : A -> bool) (l : list A) :
  Permutation l (filter (fun x => negb (f x)) l ++ filter f l).
Proof.
  induction l as [| x l IH]; simpl; [constructor |].
  destruct (f x); simpl.
  - now apply Permutation_cons_app.
  - now constructor.
Qed.

Lemma Array_sort_permutation (comparefn : Val -> Val -> Completion Val)
  (items sorted : list Val) :
  Array_sort comparefn items = Normal sorted -> Permutation items sorted.
Proof.
  unfold Array_sort.
  destruct (sort_list comparefn _) as [s | e] eqn:Hs; cbn [bind]; [| discriminate].
  intros [= <-]. apply sort_list_permutation in Hs.
  apply Permutation_trans with (1 := filter_split_permutation is_undefined items).
  now apply Permutation_app_tail.
Qed.

(** The loop of the language-first mode splits the results by the match. *)
Lemma splitByLanguage_splits (preferredLanguage : Val) (items : list Val) :
  forall preferred0 others0 preferred others,
    foldM (splitByLanguage preferredLanguage) (preferred0, others0) items
      = Normal (preferred, others) ->
    exists p o,
      preferred = preferred0 ++ p /\ others = others0 ++ o
      /\ Forall (fun r => resultMatchesPreferredLanguage r preferredLanguage = Normal true) p
      /\ Forall (fun r => resultMatchesPreferredLanguage r preferredLanguage = Normal false) o
      /\ Permutation items (p ++ o).
Proof.
  induction items as [| r items IH]; intros p0 o0 p o; cbn [foldM].
  - intros [= <- <-]. exists [], []. rewrite !app_nil_r. repeat split; constructor.
  - destruct (resultMatchesPreferredLanguage r preferredLanguage) as [b | e] eqn:Hb.
    2: { unfold splitByLanguage. rewrite Hb. discriminate. }
    rewrite (splitByLanguage_step _ _ _ _ _ Hb). cbn [bind]. destruct b; intros Hfold.
    + destruct (IH _ _ _ _ Hfold) as [p' [o' [-> [-> [Hp [Ho Hperm]]]]]].
      exists (r :: p'), o'. rewrite <- app_assoc. repeat split; auto.
      simpl. now constructor.
    + destruct (IH _ _ _ _ Hfold) as [p' [o' [-> [-> [Hp [Ho Hperm]]]]]].
      exists p', (r :: o'). rewrite <- app_assoc. repeat split; auto.
      now apply Permutation_cons_app.
Qed.

Lemma sortAnnotatedResults_splits (items : list Val) (preferredLanguage : Val)
  (c : ArrayCall) :
  truthy preferredLanguage = true ->
  sortAnnotatedResults (VArr items) (VStr "language_quality_size") preferredLanguage
    = Normal c ->
  exists preferred others,
    value_of c = VArr (preferred ++ others)
    /\ Forall (fun r => resultMatchesPreferredLanguage r preferredLanguage = Normal true)
         preferred
    /\ Forall (fun r => resultMatchesPreferredLanguage r preferredLanguage = Normal false)
         others
    /\ Permutation items (preferred ++ others).
Proof.
  intros Hlang. destruct items as [| r items].
  - intros [= <-]. exists [], []. repeat split; constructor.
  - unfold sortAnnotatedResults.
    replace (strict_eq (VStr "language_quality_size") (VStr "language_quality_size"))
      with true by reflexivity.
    rewrite Hlang. cbn [andb].
    destruct (foldM (splitByLanguage preferredLanguage) ([], []) (r :: items))
      as [[p o] | e] eqn:Hsplit; cbn [bind]; [| discriminate].
    destruct (splitByLanguage_splits _ _ _ _ _ _ Hsplit)
      as [p1 [o1 [-> [-> [Hp [Ho Hperm]]]]]].
    cbn [app].
    destruct (Array_sort compareQualityThenSize p1) as [p' | e] eqn:Hps; cbn [bind];
      [| discriminate].
    destruct (Array_sort compareQualityThenSize o1) as [o' | e] eqn:Hos; cbn [bind];
      [| discriminate].
    intros [= <-]. exists p', o'.
    apply Array_sort_permutation in Hps, Hos. repeat split.
    + now apply (Permutation_Forall Hps).
    + now apply (Permutation_Forall Hos).
    + apply Permutation_trans with (p1 ++ o1); [exact Hperm |].
      now apply Permutation_app.
Qed.

Lemma sortAnnotatedResults_sorts (items : list Val) (lang : string) :
  truthy (VStr lang) = true ->
  Forall (fun r => annotatedResult r = true) items ->
  exists preferred others c,
    sortAnnotatedResults (VArr items) (VStr "language_quality_size") (VStr lang)
      = Normal c
    /\ value_of c = VArr (preferred ++ others)
    /\ Forall (fun r => resultMatchesPreferredLanguage r (VStr lang) = Normal true)
         preferred
    /\ Forall (fun r => resultMatchesPreferredLanguage r (VStr lang) = Normal false)
         others
    /\ Permutation items (preferred ++ others)
    /\ StronglySorted (fun a b => qualityThenSize a b = true) preferred
    /\ StronglySorted (fun a b => qualityThenSize a b = true) others.
Proof.
  intros Hlang Hall. destruct items as [| r items].
  - exists [], [], {| returned := Argument; argument_after := VArr [] |}.
    repeat split; constructor.
  - unfold sortAnnotatedResults.
    replace (strict_eq (VStr "language_quality_size") (VStr "language_quality_size"))
      with true by reflexivity.
    rewrite Hlang. cbn [andb].
    destruct (splitByLanguage_fold lang (r :: items) Hall [] [])
      as [p [o [-> [Hp [Ho [Hperm [Hap Hao]]]]]]].
    cbn [bind app].
    destruct (Array_sort_annotated p Hap) as [p' [-> [Hpp Hps]]].
    destruct (Array_sort_annotated o Hao) as [o' [-> [Hop Hos]]].
    cbn [bind]. exists p', o'. eexists. split; [reflexivity |].
    repeat split; auto.
    + now apply (Permutation_Forall Hpp).
    + now apply (Permutation_Forall Hop).
    + apply Permutation_trans with (p ++ o); [exact Hperm |].
      now apply Permutation_app.
Qed.

(** C4.  In the language-first mode [sortAnnotatedResults] returns, of
    any array, the results that match the preferred language followed by
    those that do not; on annotated results each of the two parts is in
    the order of [compareQualityThenSize]: descending [qualityRank], ties
    by descending size, a size that is not finite counting as 0. *)
Theorem sortAnnotatedResults_language_first (items : list Val)
  (preferredLanguage : Val) :
  truthy preferredLanguage = true ->
  (forall c,
     sortAnnotatedResults (VArr items) (VStr "language_quality_size") preferredLanguage
       = Normal c ->
     exists preferred others,
       value_of c = VArr (preferred ++ others)
       /\ Forall (fun r => resultMatchesPreferredLanguage r preferredLanguage = Normal true)
            preferred
       /\ Forall (fun r => resultMatchesPreferredLanguage r preferredLanguage = Normal false)
            others
       /\ Permutation items (preferred ++ others))
  /\ (forall lang,
       preferredLanguage = VStr lang ->
       Forall (fun r => annotatedResult r = true) items ->
       exists preferred others c,
         sortAnnotatedResults (VArr items) (VStr "language_quality_size")
           preferredLanguage = Normal c
         /\ value_of c = VArr (preferred ++ others)
         /\ Forall (fun r => resultMatchesPreferredLanguage r preferredLanguage = Normal true)
              preferred
         /\ Forall (fun r => resultMatchesPreferredLanguage r preferredLanguage = Normal false)
              others
         /\ Permutation items (preferred ++ others)
         /\ StronglySorted (fun a b => qualityThenSize a b = true) preferred
         /\ StronglySorted (fun a b => qualityThenSize a b = true) others).
Proof.
  intros Hlang. split.
  - intros c. now apply sortAnnotatedResults_splits.
  - intros lang -> Hall. now apply sortAnnotatedResults_sorts.
Qed.

(** *** [prepareSortedResults] and the caller's array *)

Lemma sortAnnotatedResults_frame (results sortMode preferredLanguage : Val)
  (c : ArrayCall) :
  sortAnnotatedResults results sortMode preferredLanguage = Normal c ->
  (Array_isArray results = false \/ elements results = []
   \/ languageFirst sortMode preferredLanguage = true ->
   argument_after c = results)
  /\ (Array_isArray results = true -> elements results <> [] ->
      languageFirst sortMode preferredLanguage = false ->
      returned c = Argument
      /\ exists sorted,
           Array_sort compareQualityThenSize (elements results) = Normal sorted
           /\ argument_after c = VArr sorted).
Proof.
  unfold sortAnnotatedResults, languageFirst.
  destruct results as [| | b | n | s | [| r items] | fs | es | ms];
    cbn [Array_isArray elements];
    try (intros [= <-]; split; [reflexivity | discriminate]).
  - intros [= <-]. split; [reflexivity | congruence].
  - destruct (strict_eq sortMode (VStr "language_quality_size") && truthy preferredLanguage).
    + destruct (foldM (splitByLanguage preferredLanguage) ([], []) (r :: items))
        as [[preferred others] | e]; cbn [bind]; [| discriminate].
      destruct (Array_sort compareQualityThenSize preferred); cbn [bind];
        [| discriminate].
      destruct (Array_sort compareQualityThenSize others); cbn [bind];
        [| discriminate].
      intros [= <-]. split; [reflexivity | discriminate].
    + destruct (Array_sort compareQualityThenSize (r :: items)) as [sorted | e] eqn:Hs;
        cbn [bind]; [| discriminate].
      intros [= <-]. split.
      * intros [H | [H | H]]; discriminate.
      * intros _ _ _. split; [reflexivity |]. now exists sorted.
Qed.

(** C5, as the code has it.  [prepareSortedResults] leaves the caller's
    array as it was when the array is empty or not an array, when a
    positive finite [maxSizeBytes] makes the filter copy it, and in the
    language-first mode; in the remaining case it sorts the caller's array
    in place and returns that array. *)
Theorem prepareSortedResults_frame (results options : Val) (c : ArrayCall) :
  prepareSortedResults results options = Normal c ->
  let options := if is_undefined options then VObj [] else options in
  let maxSizeBytes := get_opt options "maxSizeBytes" in
  let sortMode := get_opt options "sortMode" in
  let preferredLanguage := get_opt options "preferredLanguage" in
  (Array_isArray results = false \/ elements results = []
   \/ positiveFinite maxSizeBytes
   \/ languageFirst sortMode preferredLanguage = true ->
   argument_after c = results)
  /\ (Array_isArray results = true -> elements results <> [] ->
      ~ positiveFinite maxSizeBytes ->
      languageFirst sortMode preferredLanguage = false ->
      returned c = Argument
      /\ exists sorted,
           Array_sort compareQualityThenSize (elements results) = Normal sorted
           /\ argument_after c = VArr sorted).
Proof.
  unfold prepareSortedResults.
  set (opts := if is_undefined options then VObj [] else options).
  intros Hrun. cbv zeta.
  assert (Hget : forall k, get opts k = Normal (get_opt opts k)
                           \/ get opts "maxSizeBytes" = Throw TypeError).
  { intros k. unfold get_opt. destruct opts; simpl; auto. }
  destruct (Hget "maxSizeBytes") as [H1 | H1]; [| rewrite H1 in Hrun; discriminate].
  destruct (Hget "sortMode") as [H2 | H2]; [| rewrite H2 in Hrun; discriminate].
  destruct (Hget "preferredLanguage") as [H3 | H3]; [| rewrite H3 in Hrun; discriminate].
  rewrite H1, H2, H3 in Hrun. cbn [bind] in Hrun.
  pose proof (applyMaxSizeFilter_copies results (get_opt opts "maxSizeBytes")) as Hcopy.
  pose proof (applyMaxSizeFilter_same results (get_opt opts "maxSizeBytes")) as Hsame.
  destruct (applyMaxSizeFilter results (get_opt opts "maxSizeBytes")) as [| working].
  - destruct (sortAnnotatedResults_frame _ _ _ _ Hrun) as [Hkeep Hsort].
    split.
    + intros [H | [H | [H | H]]]; auto.
      destruct (Array_isArray results) eqn:Harr; [| auto].
      discriminate (Hcopy eq_refl H).
    + intros Harr Hne _ Hmode. now apply Hsort.
  - destruct (sortAnnotatedResults working _ _) as [c' | e]; [| discriminate].
    cbn [bind] in Hrun. injection Hrun as <-. simpl. split; [reflexivity |].
    intros Harr _ Hnot _. discriminate Hsame. now right.
Qed.

(** *** Malformed input *)

Lemma mapM_returns {A B} (f : A -> Completion B) (l : list A) :
  (forall x, exists y, f x = Normal y) -> exists ys, mapM f l = Normal ys.
Proof.
  intros Hf. induction l as [| x l [ys IH]]; simpl; [now eexists |].
  destruct (Hf x) as [y ->]. rewrite IH. simpl. now eexists.
Qed.

Lemma sanitizeDecisionForCache_returns (decision : Val) :
  exists v, sanitizeDecisionForCache decision = Normal v.
Proof.
  unfold sanitizeDecisionForCache, falsy.
  destruct (truthy decision) eqn:Ht; simpl; [| now eexists].
  rewrite !(get_truthy _ _ Ht). simpl. now eexists.
Qed.

Lemma serializeResult_returns (result : Val) :
  exists v, serializeResult result = Normal v.
Proof.
  unfold serializeResult, falsy.
  destruct (truthy result) eqn:Ht; simpl; [| now eexists].
  destruct (typeof_object result); simpl; [| now eexists].
  rewrite (get_truthy _ _ Ht). cbn [bind].
  destruct (truthy (get_opt result "_triageDecision")); [| now eexists].
  destruct (sanitizeDecisionForCache_returns (get_opt result "_triageDecision"))
    as [v ->].
  simpl. now eexists.
Qed.

(** C6, as the code has it.  Whatever their input, [annotateNzbResult],
    [applyMaxSizeFilter], [buildTriageTitleMap], [sanitizeDecisionForCache],
    [serializeFinalNzbResults] and [restoreFinalNzbResults] return: the
    input, an empty collection or [null] when the input has not the
    expected shape.  [prioritizeTriageCandidates] returns when
    [maxCandidates] converts to a number; [resultMatchesPreferredLanguage]
    and [triageDecisionsMatchStatuses] return [false] when one of their
    first two arguments is missing; [sortAnnotatedResults] returns its
    argument when it is empty or not an array, and so does
    [prepareSortedResults] (an empty array may come back as a new empty
    array) when [options] is not [null]. *)
Theorem helpers_degrade_gracefully :
  (forall result sortIndex,
     (exists v, annotateNzbResult result sortIndex = Normal v)
     /\ (truthy result = false \/ typeof_object result = false ->
         annotateNzbResult result sortIndex = Normal result))
  /\ (forall results maxSizeBytes,
       Array_isArray results = false \/ ~ positiveFinite maxSizeBytes ->
       applyMaxSizeFilter results maxSizeBytes = Argument)
  /\ (forall decisions,
       (exists titleMap, buildTriageTitleMap decisions = Normal (VMap titleMap))
       /\ ((forall entries, decisions <> VMap entries) ->
           buildTriageTitleMap decisions = Normal (VMap [])))
  /\ (forall decision,
       (exists v, sanitizeDecisionForCache decision = Normal v)
       /\ (truthy decision = false -> sanitizeDecisionForCache decision = Normal VNull))
  /\ (forall results,
       (exists serialized, serializeFinalNzbResults results = Normal (VArr serialized))
       /\ (Array_isArray results = false ->
           serializeFinalNzbResults results = Normal (VArr [])))
  /\ (forall serialized,
       Array_isArray serialized = false -> restoreFinalNzbResults serialized = VArr [])
  /\ (forall results maxCandidates,
       ((exists n, ToNumber maxCandidates = Normal n) ->
        exists selected,
          prioritizeTriageCandidates results maxCandidates = Normal (VArr selected))
       /\ (Array_isArray results = false ->
           prioritizeTriageCandidates results maxCandidates = Normal (VArr [])))
  /\ (forall result preferredLanguage,
       truthy preferredLanguage = false \/ truthy result = false ->
       resultMatchesPreferredLanguage result preferredLanguage = Normal false)
  /\ (forall decisionMap candidates allowedStatuses,
       truthy decisionMap = false \/ truthy candidates = false ->
       triageDecisionsMatchStatuses decisionMap candidates allowedStatuses = Normal false)
  /\ (forall results sortMode preferredLanguage,
       Array_isArray results = false \/ elements results = [] ->
       sortAnnotatedResults results sortMode preferredLanguage =
       Normal {| returned := Argument; argument_after := results |})
  /\ (forall results options,
       Array_isArray results = false \/ elements results = [] ->
       nullish options = false \/ options = VUndefined ->
       exists c,
         prepareSortedResults results options = Normal c
         /\ value_of c = results /\ argument_after c = results).
Proof.
  repeat apply conj.
  - intros result sortIndex. split.
    + unfold annotateNzbResult, falsy.
      destruct (truthy result) eqn:Ht; simpl; [| now eexists].
      destruct (typeof_object result); simpl; [| now eexists].
      rewrite (get_truthy _ _ Ht). simpl. now eexists.
    + apply annotateNzbResult_passes.
  - intros results maxSizeBytes. apply applyMaxSizeFilter_same.
  - intros decisions. split.
    + destruct decisions; try (now eexists).
      rewrite buildTriageTitleMap_fold. now eexists.
    + intros Hnot. destruct decisions; try reflexivity. now destruct (Hnot entries).
  - intros decision. split; [apply sanitizeDecisionForCache_returns |].
    intros Hf. unfold sanitizeDecisionForCache, falsy. now rewrite Hf.
  - intros results. split.
    + unfold serializeFinalNzbResults.
      destruct (Array_isArray results); simpl; [| now eexists].
      destruct (mapM_returns serializeResult (elements results) serializeResult_returns)
        as [ys ->].
      simpl. now eexists.
    + intros Hf. unfold serializeFinalNzbResults. now rewrite Hf.
  - intros serialized Hf. unfold restoreFinalNzbResults. now rewrite Hf.
  - intros results maxCandidates. split.
    + intros [n Hn]. destruct results; try (now eexists).
      rewrite (prioritizeTriageCandidates_capped items maxCandidates n Hn).
      now eexists.
    + intros Hf. unfold prioritizeTriageCandidates. now rewrite Hf.
  - intros result lang H. unfold resultMatchesPreferredLanguage, falsy.
    destruct H as [-> | ->]; simpl; [reflexivity | now rewrite orb_true_r].
  - intros dm cs allowed H. unfold triageDecisionsMatchStatuses, falsy.
    destruct H as [-> | ->]; simpl; [reflexivity | now rewrite orb_true_r].
  - intros results mode lang H. unfold sortAnnotatedResults.
    destruct results as [| | b | n | s | [| r items] | fs | es | ms];
      try reflexivity.
    destruct H as [H | H]; discriminate.
  - intros results options Hres Hopt. unfold prepareSortedResults.
    set (opts := if is_undefined options then VObj [] else options).
    assert (Hget : forall k, get opts k = Normal (get_opt opts k)).
    { intros k. unfold get_opt, opts.
      destruct Hopt as [Hopt | ->]; [| reflexivity].
      destruct options; simpl in *; try discriminate; reflexivity. }
    rewrite !Hget. cbn [bind].
    assert (Hsort : forall mode lang,
      sortAnnotatedResults results mode lang =
      Normal {| returned := Argument; argument_after := results |}).
    { intros mode lang. unfold sortAnnotatedResults.
      destruct results as [| | b | n | s | [| r items] | fs | es | ms];
        try reflexivity.
      destruct Hres as [H | H]; discriminate. }
    unfold applyMaxSizeFilter.
    destruct (negb (Array_isArray results) || _ || _) eqn:Hguard.
    + rewrite Hsort. now eexists.
    + destruct results as [| | b | n | s | [| r items] | fs | es | ms];
        simpl in Hguard; try discriminate.
      * simpl. now eexists.
      * destruct Hres as [H | H]; discriminate.
Qed.


(** *** The size filter, twice *)

Lemma filter_Subsequence {A} (f : A -> bool) (l : list A) : Subsequence (filter f l) l.
Proof.
  induction l as [| x l IH]; simpl; [constructor |].
  destruct (f x); now constructor.
Qed.

Lemma filter_filter_implied {A} (f g : A -> bool) (l : list A) :
  (forall x, f x = true -> g x = true) -> filter f (filter g l) = filter f l.
Proof.
  intros Hfg. induction l as [| x l IH]; simpl; [reflexivity |].
  destruct (g x) eqn:Hg; simpl.
  - now rewrite IH.
  - destruct (f x) eqn:Hf; [| exact IH].
    rewrite (Hfg x Hf) in Hg. discriminate.
Qed.

Lemma keepsSize_monotone (m m' : Q) (item : Val) :
  (m <= m')%Q ->
  keepsSize (VNum (Fin m)) item = true -> keepsSize (VNum (Fin m')) item = true.
Proof.
  intros Hle. unfold keepsSize.
  destruct (get_opt item "size") as [| | b | [| | | size] | s | l | fs | es | ms];
    simpl; auto.
  intros H. apply Qle_bool_iff in H. apply Qle_bool_iff. lra.
Qed.

(** X1.  Filtering with a limit and then with a lower one gives what the
    lower limit gives at once, and filtering again with the same limit
    changes nothing.  What a filter keeps is a subsequence of its input:
    the results stay in the order they had. *)
Theorem applyMaxSizeFilter_tightens (items : list Val) (m m' : Q) :
  (0 < m)%Q -> (m <= m')%Q ->
  exists loose tight,
    applyMaxSizeFilter (VArr items) (VNum (Fin m')) = Fresh (VArr loose)
    /\ applyMaxSizeFilter (VArr items) (VNum (Fin m)) = Fresh (VArr tight)
    /\ applyMaxSizeFilter (VArr loose) (VNum (Fin m)) = Fresh (VArr tight)
    /\ applyMaxSizeFilter (VArr tight) (VNum (Fin m)) = Fresh (VArr tight)
    /\ Subsequence tight loose /\ Subsequence loose items.
Proof.
  intros Hm Hle.
  assert (Hm' : positiveFinite (VNum (Fin m'))) by (simpl; lra).
  assert (Hpos : positiveFinite (VNum (Fin m))) by exact Hm.
  exists (filter (keepsSize (VNum (Fin m'))) items),
         (filter (keepsSize (VNum (Fin m))) items).
  rewrite !applyMaxSizeFilter_copies by (reflexivity || assumption).
  cbn [elements].
  rewrite (filter_filter_implied _ _ items (fun x => keepsSize_monotone m m' x Hle)).
  rewrite (filter_filter_implied _ _ items (fun x H => H)).
  repeat split.
  - rewrite <- (filter_filter_implied _ _ items (fun x => keepsSize_monotone m m' x Hle)).
    apply filter_Subsequence.
  - apply filter_Subsequence.
Qed.

(** *** The comparator *)

Lemma ranked_truthy (r : Val) : ranked r = true -> truthy r = true.
Proof. unfold ranked. intros H. now apply andb_true_iff in H as [H _]. Qed.

Lemma ranked_rank (r : Val) :
  ranked r = true -> get_opt r "qualityRank" = VNum (Fin (rankValue r)).
Proof.
  unfold ranked, rankValue. intros H. apply andb_true_iff in H as [_ H].
  destruct (get_opt r "qualityRank") as [| | ? | [| | | q] | ? | ? | ? | ? | ?];
    simpl in H; try discriminate; reflexivity.
Qed.

Lemma compareQualityThenSize_ranked (a b : Val) :
  ranked a = true -> ranked b = true ->
  compareQualityThenSize a b =
  Normal (VNum (Fin (if Qeq_bool (rankValue a) (rankValue b)
                     then sizeValue b - sizeValue a
                     else rankValue b - rankValue a))).
Proof.
  intros Ha Hb. unfold compareQualityThenSize.
  rewrite !(get_truthy _ _ (ranked_truthy _ Ha)).
  rewrite !(get_truthy _ _ (ranked_truthy _ Hb)).
  rewrite (ranked_rank _ Ha), (ranked_rank _ Hb).
  cbn [bind strict_eq num_eqb]. rewrite !finiteOrZero_sizeValue.
  destruct (Qeq_bool (rankValue a) (rankValue b)); reflexivity.
Qed.

Lemma qualityThenSize_sign (a b : Val) :
  Qle_bool (if Qeq_bool (rankValue a) (rankValue b)
            then sizeValue b - sizeValue a
            else rankValue b - rankValue a) 0
  = qualityThenSize a b.
Proof.
  unfold qualityThenSize.
  destruct (Qeq_bool (rankValue a) (rankValue b)) eqn:Heq.
  - apply Qeq_bool_iff in Heq.
    destruct (Qle_bool (rankValue a) (rankValue b)) eqn:E1;
      [| apply Qle_bool_false in E1; lra].
    cbn [negb orb andb].
    destruct (Qle_bool (sizeValue b) (sizeValue a)) eqn:E2,
             (Qle_bool (sizeValue b - sizeValue a) 0) eqn:E3; try reflexivity;
      bool_to_Q; lra.
  - apply Qeq_bool_neq in Heq. rewrite andb_false_l, orb_false_r.
    destruct (Qle_bool (rankValue a) (rankValue b)) eqn:E2,
             (Qle_bool (rankValue b - rankValue a) 0) eqn:E3; try reflexivity;
      bool_to_Q; lra.
Qed.

Lemma comes_after_ranked (a b : Val) :
  ranked a = true -> ranked b = true ->
  comes_after compareQualityThenSize a b = Normal (negb (qualityThenSize a b)).
Proof.
  intros Ha Hb. unfold comes_after.
  rewrite (compareQualityThenSize_ranked _ _ Ha Hb).
  cbn [bind ToNumber num_ltb]. now rewrite qualityThenSize_sign.
Qed.


(** *** The default order *)

Section SortStable.
Context {A : Type} (comparefn : A -> A -> Completion Val).
Context (P : A -> Prop) (le : A -> A -> bool).
Hypothesis compare_le :
  forall x y, P x -> P y -> comes_after comparefn x y = Normal (negb (le x y)).
Hypothesis le_trans :
  forall x y z, P x -> P y -> P z -> le x y = true -> le y z = true -> le x z = true.

Let same (a x : A) : bool := le a x && le x a.

Lemma sort_insert_stable (a x : A) (sorted : list A) :
  P a -> P x -> Forall P sorted ->
  forall r, sort_insert comparefn x sorted = Normal r ->
            filter (same a) r = filter (same a) (x :: sorted).
Proof.
  intros Ha Hx. induction sorted as [| y rest IH]; intros HP r; cbn [sort_insert].
  - now intros [= <-].
  - inversion HP as [| ? ? Hy HPrest]; subst.
    rewrite (compare_le x y Hx Hy). cbn [bind].
    destruct (le x y) eqn:Hle; cbn [negb].
    + now intros [= <-].
    + destruct (sort_insert comparefn x rest) as [r' | e]; cbn [bind]; [| discriminate].
      intros [= <-]. specialize (IH HPrest r' eq_refl). cbn [filter] in *.
      rewrite IH.
      destruct (same a x) eqn:Hax, (same a y) eqn:Hay; try reflexivity.
      unfold same in Hax, Hay.
      apply andb_true_iff in Hax as [_ Hxa]. apply andb_true_iff in Hay as [Hay _].
      rewrite (le_trans x a y Hx Ha Hy Hxa Hay) in Hle. discriminate.
Qed.

Lemma sort_list_stable (a : A) (l : list A) :
  P a -> Forall P l ->
  forall s, sort_list comparefn l = Normal s -> filter (same a) s = filter (same a) l.
Proof.
  intros Ha. induction l as [| x l IH]; intros HP s; cbn [sort_list].
  - now intros [= <-].
  - inversion HP as [| ? ? Hx HPl]; subst.
    destruct (sort_list comparefn l) as [s' | e] eqn:Hs; cbn [bind]; [| discriminate].
    intros Hins.
    rewrite (sort_insert_stable a x s' Ha Hx
               (Permutation_Forall (sort_list_permutation _ _ _ Hs) HPl) s Hins).
    cbn [filter]. now rewrite (IH HPl s' eq_refl).
Qed.

End SortStable.

Lemma defined_items (items : list Val) :
  Forall (fun r => truthy r = true) items ->
  filter (fun v => negb (is_undefined v)) items = items
  /\ filter is_undefined items = [].
Proof.
  induction 1 as [| r l Hr _ [IH1 IH2]]; [now split |].
  simpl. destruct r; simpl in *; try discriminate; now rewrite IH1, IH2.
Qed.

Lemma Array_sort_ranked (items : list Val) :
  Forall (fun r => ranked r = true) items ->
  exists sorted,
    Array_sort compareQualityThenSize items = Normal sorted
    /\ Permutation items sorted
    /\ StronglySorted (fun a b => qualityThenSize a b = true) sorted
    /\ forall a, ranked a = true -> filter (tied a) sorted = filter (tied a) items.
Proof.
  intros Hall. unfold Array_sort.
  destruct (defined_items items) as [-> ->].
  { apply (Forall_impl _ ranked_truthy Hall). }
  destruct (sort_list_sorted compareQualityThenSize
              (fun r => ranked r = true) qualityThenSize
              comes_after_ranked
              (fun x y _ _ => qualityThenSize_total x y)
              (fun x y z _ _ _ => qualityThenSize_trans x y z) items Hall)
    as [s [Hs [Hperm Hsorted]]].
  rewrite Hs. cbn [bind]. rewrite app_nil_r. exists s.
  repeat split; auto.
  intros a Ha.
  apply (sort_list_stable compareQualityThenSize (fun r => ranked r = true)
           qualityThenSize comes_after_ranked
           (fun x y z _ _ _ => qualityThenSize_trans x y z) a items Ha Hall s Hs).
Qed.

Lemma sortAnnotatedResults_default (items : list Val) (sortMode preferredLanguage : Val) :
  languageFirst sortMode preferredLanguage = false ->
  sortAnnotatedResults (VArr items) sortMode preferredLanguage =
  (sorted <- Array_sort compareQualityThenSize items ;;
   Normal {| returned := Argument; argument_after := VArr sorted |}).
Proof.
  unfold languageFirst, sortAnnotatedResults. intros ->.
  destruct items; reflexivity.
Qed.

(** X3.  Outside the language-first mode [sortAnnotatedResults] sorts the
    caller's array and returns that array: on results with a finite
    [qualityRank] it then holds the same results in descending order of
    rank, ties by descending size. *)
Theorem sortAnnotatedResults_default_order (items : list Val)
  (sortMode preferredLanguage : Val) :
  languageFirst sortMode preferredLanguage = false ->
  Forall (fun r => ranked r = true) items ->
  exists sorted,
    sortAnnotatedResults (VArr items) sortMode preferredLanguage =
      Normal {| returned := Argument; argument_after := VArr sorted |}
    /\ Permutation items sorted
    /\ StronglySorted (fun a b => qualityThenSize a b = true) sorted.
Proof.
  intros Hmode Hall. rewrite (sortAnnotatedResults_default _ _ _ Hmode).
  destruct (Array_sort_ranked items Hall) as [sorted [-> [Hperm [Hs _]]]].
  exists sorted. repeat split; auto.
Qed.

(** X4.  That sort is stable: the results that tie with a given result
    keep the order they had in the input; an array that is in order
    already is left as it is. *)
Theorem sortAnnotatedResults_stable (items : list Val)
  (sortMode preferredLanguage : Val) :
  languageFirst sortMode preferredLanguage = false ->
  Forall (fun r => ranked r = true) items ->
  exists sorted,
    sortAnnotatedResults (VArr items) sortMode preferredLanguage =
      Normal {| returned := Argument; argument_after := VArr sorted |}
    /\ (forall a, ranked a = true -> filter (tied a) sorted = filter (tied a) items)
    /\ (StronglySorted (fun a b => qualityThenSize a b = true) items -> sorted = items).
Proof.
  intros Hmode Hall. rewrite (sortAnnotatedResults_default _ _ _ Hmode).
  destruct (Array_sort_ranked items Hall) as [sorted [Hrun [Hperm [Hs Hstable]]]].
  rewrite Hrun. exists sorted. split; [reflexivity |]. split; [exact Hstable |].
  intros Hsorted. clear Hperm Hs Hstable. revert sorted Hrun.
  unfold Array_sort. destruct (defined_items items) as [-> ->].
  { apply (Forall_impl _ ranked_truthy Hall). }
  intros sorted.
  assert (Hid : sort_list compareQualityThenSize items = Normal items).
  { clear sorted. induction Hsorted as [| x l Hl IH Hx]; [reflexivity |].
    inversion Hall as [| ? ? Hrx Hrl]; subst.
    cbn [sort_list]. rewrite (IH Hrl). cbn [bind].
    destruct l as [| y l]; [reflexivity |]. cbn [sort_insert].
    inversion Hrl as [| ? ? Hry _]; subst. inversion Hx as [| ? ? Hxy _]; subst.
    rewrite (comes_after_ranked _ _ Hrx Hry), Hxy. reflexivity. }
  rewrite Hid. cbn [bind]. rewrite app_nil_r. now intros [= <-].
Qed.

Lemma sortAnnotatedResults_rearranges (items : list Val)
  (sortMode preferredLanguage : Val) (c : ArrayCall) :
  sortAnnotatedResults (VArr items) sortMode preferredLanguage = Normal c ->
  exists sorted, value_of c = VArr sorted /\ Permutation items sorted.
Proof.
  destruct (languageFirst sortMode preferredLanguage) eqn:Hmode.
  - unfold languageFirst in Hmode. apply andb_true_iff in Hmode as [Hm Hlang].
    assert (Hs : sortMode = VStr "language_quality_size").
    { destruct sortMode; try discriminate. simpl in Hm.
      apply String.eqb_eq in Hm. now subst. }
    subst sortMode. intros Hrun.
    destruct (sortAnnotatedResults_splits _ _ _ Hlang Hrun)
      as [p [o [Hv [_ [_ Hperm]]]]].
    now exists (p ++ o).
  - rewrite (sortAnnotatedResults_default _ _ _ Hmode).
    destruct (Array_sort compareQualityThenSize items) as [sorted | e] eqn:Hs;
      cbn [bind]; [| discriminate].
    intros [= <-]. exists sorted. split; [reflexivity |].
    exact (Array_sort_permutation _ _ _ Hs).
Qed.

(** X5.  Whenever [sortAnnotatedResults] returns, in either mode and
    whatever the results look like, the array it returns holds the results
    of the input, each as often as the input does: no result is lost and
    none is duplicated. *)
Theorem sortAnnotatedResults_permutes (items : list Val)
  (sortMode preferredLanguage : Val) (c : ArrayCall) :
  sortAnnotatedResults (VArr items) sortMode preferredLanguage = Normal c ->
  exists sorted, value_of c = VArr sorted /\ Permutation items sorted.
Proof. apply sortAnnotatedResults_rearranges. Qed.

(** X6.  [prepareSortedResults] filters, then sorts.  With a positive
    finite [maxSizeBytes] it returns, in some order, exactly the results
    that pass the size filter, each within the limit or of unknown size;
    with any other [maxSizeBytes] it returns, in some order, all results. *)
Theorem prepareSortedResults_filters_then_sorts (items : list Val) (options : Val)
  (c : ArrayCall) :
  prepareSortedResults (VArr items) options = Normal c ->
  let options := if is_undefined options then VObj [] else options in
  let maxSizeBytes := get_opt options "maxSizeBytes" in
  exists sorted,
    value_of c = VArr sorted
    /\ (positiveFinite maxSizeBytes ->
        Permutation (filter (keepsSize maxSizeBytes) items) sorted
        /\ Forall (fun item => sizeAtMost maxSizeBytes item \/ sizeUnknown item) sorted)
    /\ (~ positiveFinite maxSizeBytes -> Permutation items sorted).
Proof.
  unfold prepareSortedResults.
  set (opts := if is_undefined options then VObj [] else options).
  intros Hrun. cbv zeta.
  assert (Hget : forall k, get opts k = Normal (get_opt opts k)
                           \/ get opts "maxSizeBytes" = Throw TypeError).
  { intros k. unfold get_opt. destruct opts; simpl; auto. }
  destruct (Hget "maxSizeBytes") as [H1 | H1]; [| rewrite H1 in Hrun; discriminate].
  destruct (Hget "sortMode") as [H2 | H2]; [| rewrite H2 in Hrun; discriminate].
  destruct (Hget "preferredLanguage") as [H3 | H3]; [| rewrite H3 in Hrun; discriminate].
  rewrite H1, H2, H3 in Hrun. cbn [bind] in Hrun.
  set (m := get_opt opts "maxSizeBytes") in *.
  pose proof (applyMaxSizeFilter_copies (VArr items) m eq_refl) as Hcopy.
  pose proof (applyMaxSizeFilter_same (VArr items) m) as Hsame.
  destruct (applyMaxSizeFilter (VArr items) m) as [| working].
  - destruct (sortAnnotatedResults_rearranges _ _ _ _ Hrun) as [sorted [Hv Hperm]].
    exists sorted. split; [exact Hv |]. split; [| now intros _].
    intros Hpos. discriminate (Hcopy Hpos).
  - destruct (sortAnnotatedResults working _ _) as [c' | e] eqn:Hsort;
      [| discriminate].
    cbn [bind] in Hrun. injection Hrun as <-. unfold value_of at 1. cbn [returned].
    assert (Hpos : positiveFinite m).
    { assert (Hdec : positiveFinite m \/ ~ positiveFinite m).
      { destruct m as [| | b | [| | | q] | s | l | fs | es | ms]; simpl; try tauto.
        destruct (Qlt_le_dec 0 q) as [L | L]; [now left | right; lra]. }
      destruct Hdec as [Hp | Hn]; [exact Hp |].
      discriminate Hsame. now right. }
    injection (Hcopy Hpos) as ->.
    destruct (sortAnnotatedResults_rearranges _ _ _ _ Hsort) as [sorted [Hv Hperm]].
    exists sorted. split; [exact Hv |]. split; [| intros Hn; contradiction].
    intros _. split; [exact Hperm |].
    apply (Permutation_Forall Hperm). apply Forall_forall.
    intros item Hin. apply filter_In in Hin as [_ Hkeep].
    destruct m as [| | b | [| | | q] | s | l | fs | es | ms]; simpl in Hpos; try tauto.
    now apply keepsSize_sound.
Qed.

(** *** The language of a result *)

Lemma sameLanguage_compares (lang : string) (tag : Val) :
  isLanguageTag tag = true ->
  (if truthy tag
   then (l <- call_toLowerCase tag ;; Normal (strict_eq l (VStr (toLowerCase lang))))
   else Normal false) = Normal (sameLanguage lang tag).
Proof.
  unfold isLanguageTag, falsy, sameLanguage.
  destruct tag; simpl; try discriminate; try reflexivity.
  - now destruct b.
  - destruct n as [| | | q]; try discriminate; try reflexivity.
    now destruct (Qeq_bool q 0).
  - intros _. now destruct (s =? "").
Qed.

Lemma some_existsb (f : Val -> Completion bool) (g : Val -> bool) (l : list Val) :
  Forall (fun x => f x = Normal (g x)) l -> some f l = Normal (existsb g l).
Proof.
  induction 1 as [| x l Hx _ IH]; simpl; [reflexivity |].
  rewrite Hx. cbn [bind]. now destruct (g x).
Qed.

(** X7.  [resultMatchesPreferredLanguage] ignores the case of letters: a
    result matches exactly when its [language], or one of its [languages],
    is a non-empty string that equals the preferred language once both are
    in lower case.  So two spellings of the preferred language that differ
    in case only match the same results. *)
Theorem resultMatchesPreferredLanguage_ignores_case (result : Val) (lang : string) :
  languageTagged result = true -> lang <> "" ->
  resultMatchesPreferredLanguage result (VStr lang) =
    Normal (sameLanguage lang (get_opt result "language")
            || existsb (sameLanguage lang) (elements (get_opt result "languages")))
  /\ (forall lang',
        lang' <> "" -> toLowerCase lang' = toLowerCase lang ->
        resultMatchesPreferredLanguage result (VStr lang')
        = resultMatchesPreferredLanguage result (VStr lang)).
Proof.
  intros Htagged.
  assert (Hrun : forall l, l <> "" ->
    resultMatchesPreferredLanguage result (VStr l) =
    Normal (sameLanguage l (get_opt result "language")
            || existsb (sameLanguage l) (elements (get_opt result "languages")))).
  { intros l Hl. unfold languageTagged in Htagged.
    apply andb_true_iff in Htagged as [Ht Hlangs].
    apply andb_true_iff in Ht as [Ht Hlang].
    unfold resultMatchesPreferredLanguage, falsy. rewrite Ht.
    assert (Hne : truthy (VStr l) = true).
    { simpl. destruct (String.eqb_spec l ""); [contradiction | reflexivity]. }
    rewrite Hne. cbn [negb orb call_toLowerCase bind].
    rewrite !(get_truthy _ _ Ht). cbn [bind].
    rewrite (sameLanguage_compares l _ Hlang). cbn [bind].
    destruct (sameLanguage l (get_opt result "language")); [reflexivity |].
    cbn [orb].
    destruct (get_opt result "languages") as [| | ? | ? | ? | langs | ? | ? | ?];
      try reflexivity.
    cbn [elements] in *. apply some_existsb.
    apply Forall_forall. intros x Hx. apply sameLanguage_compares.
    rewrite forallb_forall in Hlangs. now apply Hlangs. }
  intros Hlang. split; [now apply Hrun |].
  intros lang' Hne Hsame. rewrite (Hrun lang' Hne), (Hrun lang Hlang).
  unfold sameLanguage. rewrite Hsame. reflexivity.
Qed.

(** *** The entries of the title map *)

(** X8.  Every entry of the map [buildTriageTitleMap] returns is that of a
    decision of the input that counts: its status is not missing,
    ['pending'] or ['skipped'], its [normalizedTitle] is the key it is
    stored under, and its [blockers], [warnings] and [archiveFindings] are
    arrays, whatever the decision held there. *)
Theorem buildTriageTitleMap_entries (entries titleMap : list (Val * Val))
  (title stored : Val) :
  buildTriageTitleMap (VMap entries) = Normal (VMap titleMap) ->
  Map_get title titleMap = Some stored ->
  (exists downloadUrl decision,
     In (downloadUrl, decision) entries
     /\ counted decision = true
     /\ stored = entryOf downloadUrl decision)
  /\ skippedStatus (statusOf stored) = false
  /\ sameValueZero (get_opt stored "normalizedTitle") title = true
  /\ Array_isArray (get_opt stored "blockers") = true
  /\ Array_isArray (get_opt stored "warnings") = true
  /\ Array_isArray (get_opt stored "archiveFindings") = true.
Proof.
  rewrite buildTriageTitleMap_fold. intros [= <-] Hget.
  assert (Hinv : storedFrom entries (fold_left mergeStep entries [])).
  { apply (storedFrom_fold entries [] []). intros t x H. discriminate. }
  destruct (Hinv _ _ Hget) as [[url d] [Hin [Hfiled ->]]].
  unfold filedUnder in Hfiled. cbn [fst snd] in *.
  apply andb_true_iff in Hfiled as [Hc Hk].
  split; [now exists url, d |].
  rewrite statusOf_entryOf.
  unfold counted in Hc. apply andb_true_iff in Hc as [Hc _].
  apply andb_true_iff in Hc as [_ Hskip]. apply negb_true_iff in Hskip.
  split; [exact Hskip |]. split; [exact Hk |].
  assert (Harr : forall x, Array_isArray (arrayOrEmpty x) = true) by now intros [].
  repeat split.
  - exact (Harr (get_opt d "blockers")).
  - exact (Harr (get_opt d "warnings")).
  - exact (Harr (get_opt d "archiveFindings")).
Qed.

(** *** The selection of candidates *)

Lemma firstOccurrences_Subsequence (results before : list Val) :
  Subsequence (firstOccurrences before results) results.
Proof.
  revert before. induction results as [| r rest IH]; intros before; simpl;
    [constructor |].
  destruct (truthy r && negb (existsb (sharesKey r) before)); now constructor.
Qed.

Lemma firstOccurrences_unseen (results before : list Val) :
  Forall (fun x => truthy x = true /\ existsb (sharesKey x) before = false)
    (firstOccurrences before results).
Proof.
  revert before. induction results as [| r rest IH]; intros before; simpl;
    [constructor |].
  assert (Hrest : Forall (fun x => truthy x = true
                                   /\ existsb (sharesKey x) before = false)
                    (firstOccurrences (before ++ [r]) rest)).
  { apply (Forall_impl _ (P := fun x => truthy x = true
                               /\ existsb (sharesKey x) (before ++ [r]) = false));
      [| apply IH].
    intros x [Hx Hseen]. split; [exact Hx |].
    rewrite existsb_app in Hseen. now apply orb_false_iff in Hseen as [Hseen _]. }
  destruct (truthy r) eqn:Ht; simpl; [| exact Hrest].
  destruct (existsb (sharesKey r) before) eqn:Hs; simpl; [exact Hrest |].
  constructor; [now split | exact Hrest].
Qed.

Lemma firstOccurrences_distinct (results before : list Val) :
  distinctKeys (firstOccurrences before results).
Proof.
  revert before. induction results as [| r rest IH]; intros before; simpl;
    [constructor |].
  destruct (truthy r && negb (existsb (sharesKey r) before)) eqn:Hsel; [| apply IH].
  constructor; [| apply IH].
  apply andb_true_iff in Hsel as [Ht _].
  apply (Forall_impl _ (P := fun x => truthy x = true
                               /\ existsb (sharesKey x) (before ++ [r]) = false));
    [| apply firstOccurrences_unseen].
  intros x [_ Hseen]. rewrite existsb_app in Hseen.
  apply orb_false_iff in Hseen as [_ Hseen]. simpl in Hseen.
  rewrite orb_false_r in Hseen. unfold sharesKey in Hseen.
  now rewrite Ht in Hseen.
Qed.

Lemma firstOccurrences_present (results before : list Val) :
  Forall (fun e => truthy e = false) before ->
  existsb truthy results = true -> firstOccurrences before results <> [].
Proof.
  revert before. induction results as [| r rest IH]; intros before Hb; simpl;
    [discriminate |].
  destruct (truthy r) eqn:Ht; simpl.
  - intros _.
    assert (Hs : existsb (sharesKey r) before = false).
    { clear -Hb. induction Hb as [| e l He _ IH]; simpl; [reflexivity |].
      unfold sharesKey at 1. now rewrite He. }
    rewrite Hs. discriminate.
  - apply IH. apply Forall_app. split; [exact Hb | now constructor].
Qed.

Lemma firstn_Subsequence {A} (n : nat) (l : list A) : Subsequence (firstn n l) l.
Proof.
  assert (Hnil : forall l' : list A, Subsequence [] l').
  { induction l'; now constructor. }
  revert n. induction l as [| x l IH]; intros [| n]; simpl; try apply Hnil.
  apply Subsequence_keep, IH.
Qed.

Lemma Subsequence_trans {A} (l1 l2 l3 : list A) :
  Subsequence l1 l2 -> Subsequence l2 l3 -> Subsequence l1 l3.
Proof.
  intros H12 H23. revert l1 H12.
  induction H23 as [| x l2 l3 _ IH | x l2 l3 _ IH]; intros l1 H12.
  - exact H12.
  - constructor. now apply IH.
  - inversion H12; subst; constructor; now apply IH.
Qed.

Lemma Subsequence_Forall {A} (P : A -> Prop) (l l' : list A) :
  Subsequence l l' -> Forall P l' -> Forall P l.
Proof.
  induction 1 as [| x l l' _ IH | x l l' _ IH]; intros HP; [constructor | |];
    inversion HP; subst; auto.
Qed.

Lemma Subsequence_ForallOrdPairs {A} (R : A -> A -> Prop) (l l' : list A) :
  Subsequence l l' -> ForallOrdPairs R l' -> ForallOrdPairs R l.
Proof.
  induction 1 as [| x l l' _ IH | x l l' Hsub IH]; intros HR; [constructor | |];
    inversion HR; subst; auto.
  constructor; [| now apply IH].
  now apply (Subsequence_Forall _ _ _ Hsub).
Qed.

Lemma lengthCap_positive (n : Num) (c : nat) : lengthCap n = Some c -> (1 <= c)%nat.
Proof.
  destruct n as [| | | q]; simpl; try discriminate.
  - intros [= <-]. lia.
  - intros [= <-].
    assert (H1 : (1 <= Qceiling (if Qle_bool q 1 then 1 else q))%Z).
    { change 1%Z with (Qceiling 1) at 1. apply Qceiling_resp_le.
      destruct (Qle_bool q 1) eqn:E; [apply Qle_refl |].
      apply Qle_bool_false in E. now apply Qlt_le_weak. }
    lia.
Qed.

(** X9.  The candidates [prioritizeTriageCandidates] selects are items of
    the input, in input order, none of them missing and no two with the
    same key.  When the input has an item that is present, at least one
    candidate is selected, whatever the cap. *)
Theorem prioritizeTriageCandidates_distinct (results : list Val) (maxCandidates : Val)
  (n : Num) :
  ToNumber maxCandidates = Normal n ->
  exists selected,
    prioritizeTriageCandidates (VArr results) maxCandidates = Normal (VArr selected)
    /\ Subsequence selected results
    /\ Forall (fun r => truthy r = true) selected
    /\ distinctKeys selected
    /\ (existsb truthy results = true -> selected <> []).
Proof.
  intros Hn. rewrite (prioritizeTriageCandidates_capped _ _ _ Hn).
  eexists. split; [reflexivity |].
  assert (Hsub : Subsequence (capped n (firstOccurrences [] results))
                   (firstOccurrences [] results)).
  { unfold capped. destruct (lengthCap n); [apply firstn_Subsequence |].
    rewrite <- (firstn_all (firstOccurrences [] results)) at 1.
    apply firstn_Subsequence. }
  split; [| split; [| split]].
  - apply (Subsequence_trans _ _ _ Hsub), firstOccurrences_Subsequence.
  - apply (Subsequence_Forall _ _ _ Hsub).
    apply (Forall_impl _ (P := fun x => truthy x = true
                                 /\ existsb (sharesKey x) [] = false));
      [now intros x [Hx _] | apply firstOccurrences_unseen].
  - apply (Subsequence_ForallOrdPairs _ _ _ Hsub), firstOccurrences_distinct.
  - intros Hsome.
    pose proof (firstOccurrences_present results [] (Forall_nil _) Hsome) as Hne.
    unfold capped. destruct (lengthCap n) as [c |] eqn:Hc; [| exact Hne].
    apply lengthCap_positive in Hc.
    destruct (firstOccurrences [] results); [contradiction |].
    destruct c; [lia | discriminate].
Qed.

(** *** Decisions of the candidates *)

Lemma get_not_nullish (v : Val) (k : string) :
  nullish v = false -> get v k = Normal (get_opt v k).
Proof.
  unfold get_opt. destruct v; simpl; try discriminate; reflexivity.
Qed.

Lemma matchLoop_forallb (decisionMap : list (Val * Val))
  (allowedStatuses candidates : list Val) :
  Forall (fun c => nullish c = false) candidates ->
  matchLoop (VMap decisionMap) (VSet allowedStatuses) candidates =
  Normal (forallb (decidedAs decisionMap allowedStatuses) candidates).
Proof.
  induction 1 as [| c rest Hc _ IH]; cbn [matchLoop forallb]; [reflexivity |].
  rewrite (get_not_nullish _ _ Hc). cbn [bind call_get]. unfold decidedAs at 1.
  destruct (Map_get (get_opt c "downloadUrl") decisionMap) as [decision |];
    [| reflexivity].
  unfold falsy. destruct (truthy decision) eqn:Ht; cbn [negb andb]; [| reflexivity].
  rewrite (get_truthy _ _ Ht). cbn [bind call_has].
  now destruct (Set_has (get_opt decision "status") allowedStatuses).
Qed.

(** X10.  On a [Map] of decisions, an array of candidates and a [Set] of
    statuses, [triageDecisionsMatchStatuses] returns [true] exactly when
    there is a candidate and every candidate has a decision in the map
    whose status is in the set; without any candidate it returns [false]. *)
Theorem triageDecisionsMatchStatuses_all (decisionMap : list (Val * Val))
  (candidates allowedStatuses : list Val) :
  Forall (fun c => nullish c = false) candidates ->
  triageDecisionsMatchStatuses (VMap decisionMap) (VArr candidates) (VSet allowedStatuses)
  = Normal (negb (List.length candidates =? 0)%nat
            && forallb (decidedAs decisionMap allowedStatuses) candidates).
Proof.
  intros Hall. unfold triageDecisionsMatchStatuses.
  cbn [falsy truthy negb orb get bind]. rewrite String.eqb_refl.
  destruct candidates as [| c rest]; [reflexivity |].
  replace (strict_eq (VNum (num_of_nat (List.length (c :: rest)))) (num 0)) with false.
  - cbn [iterate bind]. now rewrite matchLoop_forallb.
  - symmetry. unfold strict_eq, num, num_of_nat, num_eqb, Qeq_bool, inject_Z.
    cbn [Qnum Qden List.length]. apply Z.eqb_neq. lia.
Qed.

(** *** The cache *)

Lemma or_else_idempotent (x d : Val) : or_else (or_else x d) d = or_else x d.
Proof.
  unfold or_else. destruct (truthy x) eqn:Hx; [now rewrite Hx |].
  now destruct (truthy d).
Qed.

Lemma coalesce_idempotent (x d : Val) : coalesce (coalesce x d) d = coalesce x d.
Proof.
  unfold coalesce. destruct (nullish x) eqn:Hx; [| now rewrite Hx].
  now destruct (nullish d).
Qed.

Lemma arrayOrEmpty_idempotent (x : Val) : arrayOrEmpty (arrayOrEmpty x) = arrayOrEmpty x.
Proof. now destruct x. Qed.

Lemma sanitizeDecisionForCache_fixed (decision sanitized : Val) :
  sanitizeDecisionForCache decision = Normal sanitized ->
  sanitizeDecisionForCache sanitized = Normal sanitized
  /\ (truthy decision = true -> truthy sanitized = true).
Proof.
  unfold sanitizeDecisionForCache at 1, falsy.
  destruct (truthy decision) eqn:Ht; cbn [negb].
  - rewrite !(get_truthy _ _ Ht). cbn [bind]. intros [= <-].
    split; [| reflexivity].
    unfold sanitizeDecisionForCache, falsy. cbn [truthy negb get field lookup bind].
    cbn.
    now rewrite !or_else_idempotent, !coalesce_idempotent, !arrayOrEmpty_idempotent.
  - intros [= <-]. split; [reflexivity | discriminate].
Qed.

(** X11.  [sanitizeDecisionForCache] is idempotent: it returns, and
    sanitising what it returned gives that again.  For a decision that is
    present the result has the thirteen properties of the cache record and
    no other, whatever else the decision holds. *)
Theorem sanitizeDecisionForCache_idempotent (decision : Val) :
  exists sanitized,
    sanitizeDecisionForCache decision = Normal sanitized
    /\ sanitizeDecisionForCache sanitized = Normal sanitized
    /\ (truthy decision = true ->
        map fst (own_enumerable sanitized) =
        ["status"; "blockers"; "warnings"; "fileCount"; "nzbIndex"; "archiveFindings";
         "title"; "normalizedTitle"; "indexerId"; "indexerName"; "publishDateMs";
         "publishDateIso"; "ageDays"]).
Proof.
  destruct (sanitizeDecisionForCache_returns decision) as [sanitized Hs].
  exists sanitized. split; [exact Hs |].
  split; [exact (proj1 (sanitizeDecisionForCache_fixed _ _ Hs)) |].
  intros Ht. unfold sanitizeDecisionForCache, falsy in Hs. rewrite Ht in Hs.
  cbn [negb] in Hs. rewrite !(get_truthy _ _ Ht) in Hs. cbn [bind] in Hs.
  injection Hs as <-. reflexivity.
Qed.

(** *** Serialization *)

Lemma set_fresh {A} (k : string) (v : A) (fs : list (string * A)) :
  lookup k fs = None -> set k v fs = fs ++ [(k, v)].
Proof.
  induction fs as [| [k' v'] fs IH]; simpl; [reflexivity |].
  destruct (k' =? k); [discriminate |]. intros H. now rewrite IH.
Qed.

Lemma set_same {A} (k : string) (v : A) (fs : list (string * A)) :
  lookup k fs = Some v -> set k v fs = fs.
Proof.
  induction fs as [| [k' v'] fs IH]; simpl; [discriminate |].
  destruct (String.eqb_spec k' k) as [-> | Hne].
  - now intros [= ->].
  - intros H. now rewrite IH.
Qed.

Lemma set_distinct {A} (k : string) (v : A) (fs : list (string * A)) :
  NoDup (map fst fs) -> NoDup (map fst (set k v fs)).
Proof.
  intros Hnd. rewrite map_fst_set. unfold has.
  destruct (lookup k fs) eqn:Hk; [exact Hnd |].
  apply lookup_None in Hk.
  apply NoDup_rev in Hnd. rewrite <- (rev_involutive (map fst fs ++ [k])).
  apply NoDup_rev. rewrite rev_app_distr. simpl. constructor; [| exact Hnd].
  now rewrite <- in_rev.
Qed.

Lemma copy_distinct (fs : list (string * Val)) :
  NoDup (map fst fs) -> assign [] fs = fs.
Proof.
  unfold assign. change fs with ([] ++ fs) at 1 3.
  generalize (@nil (string * Val)) as acc.
  induction fs as [| [k v] fs IH]; intros acc Hnd; simpl.
  - now rewrite app_nil_r.
  - assert (Hk : lookup k acc = None).
    { apply lookup_None. rewrite map_app in Hnd. simpl in Hnd.
      apply NoDup_remove_2 in Hnd. intros Hin. apply Hnd.
      apply in_or_app. now left. }
    rewrite (set_fresh _ _ _ Hk).
    replace (acc ++ (k, v) :: fs) with ((acc ++ [(k, v)]) ++ fs)
      by now rewrite <- app_assoc.
    apply IH. now rewrite <- app_assoc.
Qed.

Lemma serializeResult_object (fs : list (string * Val)) :
  NoDup (map fst fs) ->
  serializeResult (VObj fs) =
  if truthy (field "_triageDecision" fs)
  then (sanitized <- sanitizeDecisionForCache (field "_triageDecision" fs) ;;
        Normal (VObj (set "_triageDecision" sanitized fs)))
  else Normal (VObj fs).
Proof.
  intros Hnd. unfold serializeResult.
  cbn [falsy truthy negb typeof_object orb own_enumerable get bind].
  now rewrite (copy_distinct _ Hnd).
Qed.

Lemma serializeResult_fixed (result : Val) :
  plainRecord result ->
  exists serialized,
    serializeResult result = Normal serialized
    /\ serializeResult serialized = Normal serialized
    /\ plainRecord serialized.
Proof.
  destruct result as [| | b | n | s | l | fs | es | ms]; simpl;
    try (intros _; eexists; split; [reflexivity |]; split; [reflexivity | exact I]).
  - intros _. exists (VBool b). unfold serializeResult, falsy. simpl.
    rewrite orb_true_r. repeat split.
  - intros _. exists (VNum n). unfold serializeResult, falsy. simpl.
    rewrite orb_true_r. repeat split.
  - intros _. exists (VStr s). unfold serializeResult, falsy. simpl.
    rewrite orb_true_r. repeat split.
  - intros [].
  - intros Hnd. rewrite (serializeResult_object _ Hnd).
    destruct (truthy (field "_triageDecision" fs)) eqn:Ht.
    + destruct (sanitizeDecisionForCache_returns (field "_triageDecision" fs))
        as [sanitized Hs].
      rewrite Hs. cbn [bind]. eexists. split; [reflexivity |].
      pose proof (set_distinct "_triageDecision" sanitized fs Hnd) as Hnd'.
      split; [| exact Hnd'].
      rewrite (serializeResult_object _ Hnd').
      unfold field at 1 2. rewrite lookup_set_same.
      destruct (sanitizeDecisionForCache_fixed _ _ Hs) as [Hfix Htruthy].
      rewrite (Htruthy Ht), Hfix. cbn [bind].
      now rewrite (set_same _ _ _ (lookup_set_same _ _ _)).
    + eexists. split; [reflexivity |]. split; [| exact Hnd].
      rewrite (serializeResult_object _ Hnd). now rewrite Ht.
  - intros _. exists (VObj []). repeat split. constructor.
  - intros _. exists (VObj []). repeat split. constructor.
Qed.

Lemma mapM_fixed {A} (f : A -> Completion A) (P : A -> Prop) (l : list A) :
  (forall x, P x -> exists y, f x = Normal y /\ f y = Normal y /\ P y) ->
  Forall P l ->
  exists ys,
    mapM f l = Normal ys /\ mapM f ys = Normal ys
    /\ List.length ys = List.length l /\ Forall P ys.
Proof.
  intros Hf. induction 1 as [| x l Hx _ [ys [H1 [H2 [Hlen HP]]]]]; simpl.
  - exists []. repeat split; constructor.
  - destruct (Hf x Hx) as [y [Hy1 [Hy2 HPy]]].
    exists (y :: ys). simpl. rewrite Hy1, H1, Hy2, H2. simpl.
    repeat split; auto.
Qed.

(** X12.  On results that are records or values that are no arrays,
    [serializeFinalNzbResults] returns as many results as it received and
    is idempotent: serialising its output changes nothing, and
    [restoreFinalNzbResults] hands that output back as it is. *)
Theorem serializeFinalNzbResults_idempotent (items : list Val) :
  Forall plainRecord items ->
  exists serialized,
    serializeFinalNzbResults (VArr items) = Normal (VArr serialized)
    /\ List.length serialized = List.length items
    /\ serializeFinalNzbResults (VArr serialized) = Normal (VArr serialized)
    /\ restoreFinalNzbResults (VArr serialized) = VArr serialized.
Proof.
  intros Hall.
  destruct (mapM_fixed serializeResult plainRecord items serializeResult_fixed Hall)
    as [ys [H1 [H2 [Hlen _]]]].
  exists ys. unfold serializeFinalNzbResults. cbn [Array_isArray negb elements].
  rewrite H1, H2. repeat split. exact Hlen.
Qed.

Lemma mapM_nth {A B} (f : A -> Completion B) (l : list A) (ys : list B) :
  mapM f l = Normal ys ->
  forall i x, nth_error l i = Some x ->
              exists y, nth_error ys i = Some y /\ f x = Normal y.
Proof.
  revert ys. induction l as [| x0 l IH]; intros ys; cbn [mapM].
  - intros _ [| i] x; discriminate.
  - destruct (f x0) as [y0 | e] eqn:Hx0; cbn [bind]; [| discriminate].
    destruct (mapM f l) as [ys' | e]; cbn [bind]; [| discriminate].
    intros [= <-] [| i] x; simpl.
    + intros [= <-]. now exists y0.
    + now apply IH.
Qed.

(** X13.  [serializeFinalNzbResults] changes nothing but
    [_triageDecision].  A result that is no object is found at its place
    as it was; the copy of a record has the same property names in the
    same order and the same values, except that a [_triageDecision] that is
    set is replaced by what [sanitizeDecisionForCache] makes of it. *)
Theorem serializeFinalNzbResults_frame (items serialized : list Val) (i : nat)
  (result : Val) :
  serializeFinalNzbResults (VArr items) = Normal (VArr serialized) ->
  nth_error items i = Some result ->
  exists copy,
    nth_error serialized i = Some copy
    /\ (truthy result = false \/ typeof_object result = false -> copy = result)
    /\ (forall fs,
          result = VObj fs -> NoDup (map fst fs) ->
          exists fs',
            copy = VObj fs'
            /\ map fst fs' = map fst fs
            /\ (forall k, k <> "_triageDecision" -> lookup k fs' = lookup k fs)
            /\ (truthy (field "_triageDecision" fs) = true ->
                sanitizeDecisionForCache (field "_triageDecision" fs)
                = Normal (field "_triageDecision" fs'))
            /\ (truthy (field "_triageDecision" fs) = false -> fs' = fs)).
Proof.
  unfold serializeFinalNzbResults. cbn [Array_isArray negb elements].
  destruct (mapM serializeResult items) as [ys |] eqn:Hmap; cbn [bind];
    [| discriminate].
  intros [= <-] Hnth.
  destruct (mapM_nth _ _ _ Hmap _ _ Hnth) as [copy [Hcopy Hrun]].
  exists copy. split; [exact Hcopy |]. split.
  - intros Hplain. unfold serializeResult, falsy in Hrun.
    destruct Hplain as [H | H]; rewrite H in Hrun; simpl in Hrun.
    + now injection Hrun.
    + rewrite orb_true_r in Hrun. now injection Hrun.
  - intros fs -> Hnd. rewrite (serializeResult_object _ Hnd) in Hrun.
    destruct (truthy (field "_triageDecision" fs)) eqn:Ht.
    + destruct (sanitizeDecisionForCache (field "_triageDecision" fs))
        as [sanitized |] eqn:Hs; cbn [bind] in Hrun; [| discriminate].
      injection Hrun as <-. eexists. split; [reflexivity |].
      assert (Hhas : has "_triageDecision" fs = true).
      { unfold has, field in *.
        destruct (lookup "_triageDecision" fs); [reflexivity | discriminate]. }
      split; [| split; [| split]].
      * rewrite map_fst_set. now rewrite Hhas.
      * intros k Hk. now apply lookup_set_other.
      * intros _. f_equal. unfold field. now rewrite lookup_set_same.
      * discriminate.
    + injection Hrun as <-. exists fs. repeat split. discriminate.
Qed.

End Facts.

(** The examples of the specification. *)
Example prioritizeTriageCandidates_two :
  prioritizeTriageCandidates
    (VArr [VObj [("title", VStr "Foo")]; VObj [("title", VStr "foo")];
           VObj [("title", VStr "Bar")]]) (num 2)
  = Normal (VArr [VObj [("title", VStr "Foo")]; VObj [("title", VStr "Bar")]]).
Proof. reflexivity. Qed.

Example triageStatusRank_table :
  map triageStatusRank
    [VStr "blocked"; VStr "fetch-error"; VStr "error"; VStr "verified";
     VStr "unverified"; VStr "pending"; VStr "skipped"; VStr "unknown"; VUndefined]
  = [4; 4; 4; 3; 2; 1; 1; 0; 0]%nat.
Proof. reflexivity. Qed.

Example applyMaxSizeFilter_keeps_unknown :
  applyMaxSizeFilter
    (VArr [VObj [("size", num 5)]; VObj [("size", num 50)]; VNull;
           VObj [("size", VStr "7")]]) (num 10)
  = Fresh (VArr [VObj [("size", num 5)]; VNull; VObj [("size", VStr "7")]]).
Proof. reflexivity. Qed.

(** C5 as stated fails: without a size limit and with the default order
    the caller's array is reordered. *)
Lemma prepareSortedResults_reorders_argument :
  prepareSortedResults
    (VArr [VObj [("qualityRank", num 1)]; VObj [("qualityRank", num 2)]]) VUndefined
  = Normal {| returned := Argument;
              argument_after :=
                VArr [VObj [("qualityRank", num 2)]; VObj [("qualityRank", num 1)]] |}.
Proof. reflexivity. Qed.

(** C6 as stated fails: each of these calls throws a [TypeError]. *)
Lemma helpers_throw_on_malformed_input :
  resultMatchesPreferredLanguage (VObj [("language", num 5)]) (VStr "en")
    = Throw TypeError
  /\ triageDecisionsMatchStatuses (VMap []) (VArr [VNull]) (VSet []) = Throw TypeError
  /\ sortAnnotatedResults (VArr [VNull; VNull]) VUndefined VUndefined = Throw TypeError
  /\ prepareSortedResults (VArr []) VNull = Throw TypeError.
Proof. repeat split. Qed.

Lemma prepareSortedResults_frame_witness :
  let results := VArr [VObj [("qualityRank", num 1)]; VObj [("qualityRank", num 2)]] in
  (exists c,
     prepareSortedResults results (VObj [("maxSizeBytes", num 100)]) = Normal c
     /\ argument_after c = results)
  /\ (exists c,
       prepareSortedResults results VUndefined = Normal c
       /\ returned c = Argument
       /\ exists sorted,
            Array_sort compareQualityThenSize (elements results) = Normal sorted
            /\ argument_after c = VArr sorted).
Proof.
  intros results. split.
  - eexists. split; [reflexivity |].
    apply (proj1 (prepareSortedResults_frame results
                    (VObj [("maxSizeBytes", num 100)]) _ eq_refl)).
    right. right. left. reflexivity.
  - eexists. split; [reflexivity |].
    apply (proj2 (prepareSortedResults_frame results VUndefined _ eq_refl)).
    + reflexivity.
    + discriminate.
    + intros H. exact H.
    + reflexivity.
Defined.

Lemma helpers_degrade_gracefully_witness :
  annotateNzbResult (VStr "not an object") VUndefined = Normal (VStr "not an object")
  /\ buildTriageTitleMap (VArr [num 1]) = Normal (VMap [])
  /\ sanitizeDecisionForCache VUndefined = Normal VNull
  /\ serializeFinalNzbResults (VObj []) = Normal (VArr [])
  /\ resultMatchesPreferredLanguage VNull (VStr "en") = Normal false.
Proof.
  destruct (@helpers_degrade_gracefully ascii_platform plain_collaborators)
    as [Hannotate [_ [Hbuild [Hsanitize [Hserialize [_ [_ [Hmatch _]]]]]]]].
  split; [| split; [| split; [| split]]].
  - apply (proj2 (Hannotate (VStr "not an object") VUndefined)). right. reflexivity.
  - apply (proj2 (Hbuild (VArr [num 1]))). intros entries. discriminate.
  - apply (proj2 (Hsanitize VUndefined)). reflexivity.
  - apply (proj2 (Hserialize (VObj []))). reflexivity.
  - apply Hmatch. right. reflexivity.
Defined.

Lemma buildTriageTitleMap_merge_witness :
  let pending := VObj [("status", VStr "pending"); ("title", VStr "Foo")] in
  let verified := VObj [("status", VStr "verified"); ("title", VStr "FOO")] in
  let blocked := VObj [("status", VStr "blocked"); ("normalizedTitle", VStr "foo")] in
  buildTriageTitleMap (VMap [(VStr "u1", pending); (VStr "u2", verified)])
    = Normal (VMap [(VStr "foo", entryOf (VStr "u2") verified)])
  /\ buildTriageTitleMap (VMap [(VStr "u2", verified); (VStr "u3", blocked)])
    = Normal (VMap [(VStr "foo", entryOf (VStr "u3") blocked)])
  /\ exists titleMap,
       buildTriageTitleMap
         (VMap ([(VStr "u2", verified)] ++ (VStr "u3", blocked) :: [(VStr "u1", pending)]))
       = Normal (VMap titleMap)
       /\ Map_get (VStr "foo") titleMap = Some (entryOf (VStr "u3") blocked).
Proof.
  intros pending verified blocked.
  destruct (@buildTriageTitleMap_merge ascii_platform plain_collaborators)
    as [_ [_ [Hwinner [Hpending Hblocked]]]].
  split; [| split].
  - exact (proj1 (Hpending (VStr "u1") (VStr "u2") pending verified
                    eq_refl eq_refl eq_refl)).
  - exact (Hblocked (VStr "u2") (VStr "u3") verified blocked
             eq_refl eq_refl eq_refl eq_refl eq_refl).
  - apply (Hwinner [(VStr "u2", verified)] [(VStr "u1", pending)] (VStr "u3") blocked).
    + reflexivity.
    + reflexivity.
    + intros entry [<- | []] _. simpl. unfold rankOf. simpl. lia.
    + intros entry [<- | []] Hfiled. discriminate Hfiled.
Defined.

Lemma sortAnnotatedResults_language_first_witness :
  exists preferred others c,
    sortAnnotatedResults
      (VArr [VObj [("qualityRank", num 1); ("language", VStr "German")];
             VObj [("qualityRank", num 1); ("size", num 7); ("language", VStr "English")];
             VObj [("qualityRank", num 3); ("languages", VArr [VStr "german"])];
             VObj [("qualityRank", num 1); ("size", num 9); ("language", VStr "ENGLISH")]])
      (VStr "language_quality_size") (VStr "german") = Normal c
    /\ value_of c = VArr (preferred ++ others)
    /\ Forall (fun r => resultMatchesPreferredLanguage r (VStr "german") = Normal true)
         preferred
    /\ Forall (fun r => resultMatchesPreferredLanguage r (VStr "german") = Normal false)
         others
    /\ Permutation
         [VObj [("qualityRank", num 1); ("language", VStr "German")];
          VObj [("qualityRank", num 1); ("size", num 7); ("language", VStr "English")];
          VObj [("qualityRank", num 3); ("languages", VArr [VStr "german"])];
          VObj [("qualityRank", num 1); ("size", num 9); ("language", VStr "ENGLISH")]]
         (preferred ++ others)
    /\ StronglySorted (fun a b => qualityThenSize a b = true) preferred
    /\ StronglySorted (fun a b => qualityThenSize a b = true) others.
Proof.
  apply (proj2 (sortAnnotatedResults_language_first
    [VObj [("qualityRank", num 1); ("language", VStr "German")];
     VObj [("qualityRank", num 1); ("size", num 7); ("language", VStr "English")];
     VObj [("qualityRank", num 3); ("languages", VArr [VStr "german"])];
     VObj [("qualityRank", num 1); ("size", num 9); ("language", VStr "ENGLISH")]]
    (VStr "german") eq_refl) "german").
  - reflexivity.
  - repeat constructor.
Defined.

Example sortAnnotatedResults_language_first_run :
  sortAnnotatedResults
    (VArr [VObj [("qualityRank", num 1); ("language", VStr "German")];
           VObj [("qualityRank", num 1); ("size", num 7); ("language", VStr "English")];
           VObj [("qualityRank", num 3); ("languages", VArr [VStr "german"])];
           VObj [("qualityRank", num 1); ("size", num 9); ("language", VStr "ENGLISH")]])
    (VStr "language_quality_size") (VStr "german")
  = Normal
      {| returned :=
           Fresh (VArr
             [VObj [("qualityRank", num 3); ("languages", VArr [VStr "german"])];
              VObj [("qualityRank", num 1); ("language", VStr "German")];
              VObj [("qualityRank", num 1); ("size", num 9); ("language", VStr "ENGLISH")];
              VObj [("qualityRank", num 1); ("size", num 7); ("language", VStr "English")]]);
         argument_after :=
           VArr [VObj [("qualityRank", num 1); ("language", VStr "German")];
                 VObj [("qualityRank", num 1); ("size", num 7); ("language", VStr "English")];
                 VObj [("qualityRank", num 3); ("languages", VArr [VStr "german"])];
                 VObj [("qualityRank", num 1); ("size", num 9); ("language", VStr "ENGLISH")]] |}.
Proof. reflexivity. Qed.

(** C10 as stated fails: [null] is not a number, yet it caps the
    selection at one item. *)
Lemma prioritizeTriageCandidates_null_caps :
  prioritizeTriageCandidates
    (VArr [VObj [("title", VStr "Foo")]; VObj [("title", VStr "Bar")]]) VNull
  = Normal (VArr [VObj [("title", VStr "Foo")]]).
Proof. reflexivity. Qed.

Lemma prioritizeTriageCandidates_selection_witness :
  prioritizeTriageCandidates
    (VArr [VObj [("title", VStr "Foo")]; VObj [("title", VStr "foo")];
           VObj [("title", VStr "Bar")]]) VUndefined
  = Normal (VArr [VObj [("title", VStr "Foo")]; VObj [("title", VStr "Bar")]]).
Proof.
  exact (proj1 (prioritizeTriageCandidates_selection
    [VObj [("title", VStr "Foo")]; VObj [("title", VStr "foo")];
     VObj [("title", VStr "Bar")]] VUndefined NaN eq_refl)).
Defined.



Lemma applyMaxSizeFilter_bound_witness :
  (exists kept,
     applyMaxSizeFilter
       (VArr [VObj [("size", num 5)]; VObj [("size", num 50)]; VObj [("title", VStr "a")]])
       (num 10) = Fresh (VArr kept)
     /\ Forall (fun item => sizeAtMost (num 10) item \/ sizeUnknown item) kept
     /\ (forall item,
          In item [VObj [("size", num 5)]; VObj [("size", num 50)]; VObj [("title", VStr "a")]] ->
          sizeUnknown item -> In item kept))
  /\ applyMaxSizeFilter (VStr "none") (num 10) = Argument.
Proof.
  split.
  - apply (proj1 (applyMaxSizeFilter_bound
       (VArr [VObj [("size", num 5)]; VObj [("size", num 50)]; VObj [("title", VStr "a")]])
       (num 10))).
    + reflexivity.
    + simpl. reflexivity.
  - apply (proj2 (applyMaxSizeFilter_bound (VStr "none") (num 10))).
    left. reflexivity.
Defined.

(** *** Instances of the further properties *)

Lemma applyMaxSizeFilter_tightens_witness :
  exists loose tight,
    applyMaxSizeFilter
      (VArr [VObj [("size", num 5)]; VObj [("size", num 50)]; VObj [("size", num 500)];
             VObj [("title", VStr "a")]]) (num 100) = Fresh (VArr loose)
    /\ applyMaxSizeFilter
         (VArr [VObj [("size", num 5)]; VObj [("size", num 50)]; VObj [("size", num 500)];
                VObj [("title", VStr "a")]]) (num 10) = Fresh (VArr tight)
    /\ applyMaxSizeFilter (VArr loose) (num 10) = Fresh (VArr tight)
    /\ applyMaxSizeFilter (VArr tight) (num 10) = Fresh (VArr tight)
    /\ Subsequence tight loose
    /\ Subsequence loose
         [VObj [("size", num 5)]; VObj [("size", num 50)]; VObj [("size", num 500)];
          VObj [("title", VStr "a")]].
Proof.
  apply (applyMaxSizeFilter_tightens
           [VObj [("size", num 5)]; VObj [("size", num 50)]; VObj [("size", num 500)];
            VObj [("title", VStr "a")]] (inject_Z 10) (inject_Z 100)).
  - reflexivity.
  - unfold Qle. simpl. lia.
Defined.


Lemma sortAnnotatedResults_default_order_witness :
  exists sorted,
    sortAnnotatedResults
      (VArr [VObj [("qualityRank", num 1)]; VObj [("qualityRank", num 3)];
             VObj [("qualityRank", num 1); ("size", num 7)]])
      (VStr "quality_then_size") VUndefined
    = Normal {| returned := Argument; argument_after := VArr sorted |}
    /\ Permutation
         [VObj [("qualityRank", num 1)]; VObj [("qualityRank", num 3)];
          VObj [("qualityRank", num 1); ("size", num 7)]] sorted
    /\ StronglySorted (fun a b => qualityThenSize a b = true) sorted.
Proof.
  apply (sortAnnotatedResults_default_order
           [VObj [("qualityRank", num 1)]; VObj [("qualityRank", num 3)];
            VObj [("qualityRank", num 1); ("size", num 7)]]
           (VStr "quality_then_size") VUndefined).
  - reflexivity.
  - repeat constructor.
Defined.

Lemma sortAnnotatedResults_stable_witness :
  exists sorted,
    sortAnnotatedResults
      (VArr [VObj [("qualityRank", num 1); ("title", VStr "first")];
             VObj [("qualityRank", num 3)];
             VObj [("qualityRank", num 1); ("title", VStr "second")]])
      VUndefined VUndefined
    = Normal {| returned := Argument; argument_after := VArr sorted |}
    /\ (forall a, ranked a = true ->
          filter (tied a) sorted =
          filter (tied a)
            [VObj [("qualityRank", num 1); ("title", VStr "first")];
             VObj [("qualityRank", num 3)];
             VObj [("qualityRank", num 1); ("title", VStr "second")]])
    /\ (StronglySorted (fun a b => qualityThenSize a b = true)
          [VObj [("qualityRank", num 1); ("title", VStr "first")];
           VObj [("qualityRank", num 3)];
           VObj [("qualityRank", num 1); ("title", VStr "second")]] ->
        sorted =
          [VObj [("qualityRank", num 1); ("title", VStr "first")];
           VObj [("qualityRank", num 3)];
           VObj [("qualityRank", num 1); ("title", VStr "second")]]).
Proof.
  apply (sortAnnotatedResults_stable
           [VObj [("qualityRank", num 1); ("title", VStr "first")];
            VObj [("qualityRank", num 3)];
            VObj [("qualityRank", num 1); ("title", VStr "second")]]
           VUndefined VUndefined).
  - reflexivity.
  - repeat constructor.
Defined.

Lemma sortAnnotatedResults_permutes_witness :
  exists c sorted,
    sortAnnotatedResults
      (VArr [VObj [("qualityRank", num 1)]; VObj [("qualityRank", VStr "high")];
             VObj [("qualityRank", num 2)]])
      (VStr "language_quality_size") (VStr "en") = Normal c
    /\ value_of c = VArr sorted
    /\ Permutation
         [VObj [("qualityRank", num 1)]; VObj [("qualityRank", VStr "high")];
          VObj [("qualityRank", num 2)]] sorted.
Proof.
  destruct (@sortAnnotatedResults_permutes ascii_platform
              [VObj [("qualityRank", num 1)]; VObj [("qualityRank", VStr "high")];
               VObj [("qualityRank", num 2)]]
              (VStr "language_quality_size") (VStr "en") _ eq_refl) as [sorted H].
  eexists. exists sorted. split; [reflexivity | exact H].
Defined.

Lemma prepareSortedResults_filters_then_sorts_witness :
  exists c sorted,
    prepareSortedResults
      (VArr [VObj [("qualityRank", num 1)];
             VObj [("qualityRank", num 3); ("size", num 50)];
             VObj [("qualityRank", num 2); ("size", num 5)]])
      (VObj [("maxSizeBytes", num 10)]) = Normal c
    /\ value_of c = VArr sorted
    /\ (positiveFinite (num 10) ->
        Permutation
          (filter (keepsSize (num 10))
             [VObj [("qualityRank", num 1)];
              VObj [("qualityRank", num 3); ("size", num 50)];
              VObj [("qualityRank", num 2); ("size", num 5)]]) sorted
        /\ Forall (fun item => sizeAtMost (num 10) item \/ sizeUnknown item) sorted)
    /\ (~ positiveFinite (num 10) ->
        Permutation
          [VObj [("qualityRank", num 1)];
           VObj [("qualityRank", num 3); ("size", num 50)];
           VObj [("qualityRank", num 2); ("size", num 5)]] sorted).
Proof.
  destruct (@prepareSortedResults_filters_then_sorts ascii_platform
              [VObj [("qualityRank", num 1)];
               VObj [("qualityRank", num 3); ("size", num 50)];
               VObj [("qualityRank", num 2); ("size", num 5)]]
              (VObj [("maxSizeBytes", num 10)]) _ eq_refl) as [sorted H].
  eexists. exists sorted. split; [reflexivity | exact H].
Defined.

Lemma resultMatchesPreferredLanguage_ignores_case_witness :
  resultMatchesPreferredLanguage
    (VObj [("language", VStr "English"); ("languages", VArr [VStr "German"; VStr ""])])
    (VStr "GERMAN")
  = Normal
      (sameLanguage "GERMAN" (VStr "English")
       || existsb (sameLanguage "GERMAN") [VStr "German"; VStr ""])
  /\ (forall lang',
        lang' <> "" -> toLowerCase lang' = toLowerCase "GERMAN" ->
        resultMatchesPreferredLanguage
          (VObj [("language", VStr "English");
                 ("languages", VArr [VStr "German"; VStr ""])]) (VStr lang')
        = resultMatchesPreferredLanguage
            (VObj [("language", VStr "English");
                   ("languages", VArr [VStr "German"; VStr ""])]) (VStr "GERMAN")).
Proof.
  apply (resultMatchesPreferredLanguage_ignores_case
           (VObj [("language", VStr "English");
                  ("languages", VArr [VStr "German"; VStr ""])]) "GERMAN").
  - reflexivity.
  - discriminate.
Defined.

Lemma buildTriageTitleMap_entries_witness :
  let decision := VObj [("status", VStr "verified"); ("title", VStr "Foo");
                        ("blockers", VStr "none")] in
  let stored := entryOf (VStr "u1") decision in
  (exists downloadUrl d,
     In (downloadUrl, d) [(VStr "u0", VNull); (VStr "u1", decision)]
     /\ counted d = true
     /\ stored = entryOf downloadUrl d)
  /\ skippedStatus (statusOf stored) = false
  /\ sameValueZero (get_opt stored "normalizedTitle") (VStr "foo") = true
  /\ Array_isArray (get_opt stored "blockers") = true
  /\ Array_isArray (get_opt stored "warnings") = true
  /\ Array_isArray (get_opt stored "archiveFindings") = true.
Proof.
  intros decision stored.
  exact (buildTriageTitleMap_entries
           [(VStr "u0", VNull); (VStr "u1", decision)] _ (VStr "foo") stored
           eq_refl eq_refl).
Defined.

Lemma prioritizeTriageCandidates_distinct_witness :
  exists selected,
    prioritizeTriageCandidates
      (VArr [VNull; VObj [("title", VStr "Foo")]; VObj [("title", VStr "foo")];
             VObj [("title", VStr "Bar")]]) (num 0) = Normal (VArr selected)
    /\ Subsequence selected
         [VNull; VObj [("title", VStr "Foo")]; VObj [("title", VStr "foo")];
          VObj [("title", VStr "Bar")]]
    /\ Forall (fun r => truthy r = true) selected
    /\ distinctKeys selected
    /\ (existsb truthy
          [VNull; VObj [("title", VStr "Foo")]; VObj [("title", VStr "foo")];
           VObj [("title", VStr "Bar")]] = true -> selected <> []).
Proof.
  exact (prioritizeTriageCandidates_distinct
           [VNull; VObj [("title", VStr "Foo")]; VObj [("title", VStr "foo")];
            VObj [("title", VStr "Bar")]] (num 0) (Fin (inject_Z 0)) eq_refl).
Defined.

Lemma triageDecisionsMatchStatuses_all_witness :
  triageDecisionsMatchStatuses
    (VMap [(VStr "u1", VObj [("status", VStr "verified")]);
           (VStr "u2", VObj [("status", VStr "blocked")])])
    (VArr [VObj [("downloadUrl", VStr "u1")]; VObj [("downloadUrl", VStr "u2")]])
    (VSet [VStr "verified"])
  = Normal
      (negb (List.length [VObj [("downloadUrl", VStr "u1")];
                          VObj [("downloadUrl", VStr "u2")]] =? 0)%nat
       && forallb
            (decidedAs [(VStr "u1", VObj [("status", VStr "verified")]);
                        (VStr "u2", VObj [("status", VStr "blocked")])]
                       [VStr "verified"])
            [VObj [("downloadUrl", VStr "u1")]; VObj [("downloadUrl", VStr "u2")]]).
Proof.
  apply (triageDecisionsMatchStatuses_all
           [(VStr "u1", VObj [("status", VStr "verified")]);
            (VStr "u2", VObj [("status", VStr "blocked")])]
           [VObj [("downloadUrl", VStr "u1")]; VObj [("downloadUrl", VStr "u2")]]
           [VStr "verified"]).
  repeat constructor.
Defined.

Lemma sanitizeDecisionForCache_idempotent_witness :
  exists sanitized,
    sanitizeDecisionForCache
      (VObj [("status", VStr "verified"); ("blockers", VStr "none");
             ("nzbPayload", VStr "secret")]) = Normal sanitized
    /\ sanitizeDecisionForCache sanitized = Normal sanitized
    /\ (truthy (VObj [("status", VStr "verified"); ("blockers", VStr "none");
                      ("nzbPayload", VStr "secret")]) = true ->
        map fst (own_enumerable sanitized) =
        ["status"; "blockers"; "warnings"; "fileCount"; "nzbIndex"; "archiveFindings";
         "title"; "normalizedTitle"; "indexerId"; "indexerName"; "publishDateMs";
         "publishDateIso"; "ageDays"]).
Proof.
  exact (sanitizeDecisionForCache_idempotent
           (VObj [("status", VStr "verified"); ("blockers", VStr "none");
                  ("nzbPayload", VStr "secret")])).
Defined.

Lemma serializeFinalNzbResults_idempotent_witness :
  exists serialized,
    serializeFinalNzbResults
      (VArr [VObj [("title", VStr "A");
                   ("_triageDecision", VObj [("status", VStr "verified");
                                             ("nzbPayload", VStr "secret")])];
             VNull]) = Normal (VArr serialized)
    /\ List.length serialized = 2%nat
    /\ serializeFinalNzbResults (VArr serialized) = Normal (VArr serialized)
    /\ restoreFinalNzbResults (VArr serialized) = VArr serialized.
Proof.
  apply (serializeFinalNzbResults_idempotent
           [VObj [("title", VStr "A");
                  ("_triageDecision", VObj [("status", VStr "verified");
                                            ("nzbPayload", VStr "secret")])];
            VNull]).
  repeat constructor; simpl; intuition discriminate.
Defined.

Lemma serializeFinalNzbResults_frame_witness :
  exists copy,
    nth_error [VObj [("title", VStr "A"); ("size", num 7)]; VStr "text"] 0
      = Some copy
    /\ (truthy (VObj [("title", VStr "A"); ("size", num 7)]) = false
        \/ typeof_object (VObj [("title", VStr "A"); ("size", num 7)]) = false ->
        copy = VObj [("title", VStr "A"); ("size", num 7)])
    /\ (forall fs,
          VObj [("title", VStr "A"); ("size", num 7)] = VObj fs ->
          NoDup (map fst fs) ->
          exists fs',
            copy = VObj fs'
            /\ map fst fs' = map fst fs
            /\ (forall k, k <> "_triageDecision" -> lookup k fs' = lookup k fs)
            /\ (truthy (field "_triageDecision" fs) = true ->
                sanitizeDecisionForCache (field "_triageDecision" fs)
                = Normal (field "_triageDecision" fs'))
            /\ (truthy (field "_triageDecision" fs) = false -> fs' = fs)).
Proof.
  exact (serializeFinalNzbResults_frame
           [VObj [("title", VStr "A"); ("size", num 7)]; VStr "text"] _ 0
           (VObj [("title", VStr "A"); ("size", num 7)]) eq_refl eq_refl).
Defined.

End HelpersFacts.

(* ================================================================== *)
(** * Properties of the TMDB client *)
(* ================================================================== *)

Module TmdbFacts.
Import Js Tmdb JsFacts.

Section Facts.
Context {platform : Platform}.

Lemma get_present (v : Val) (k : string) :
  nullish v = false -> get v k = Normal (get_opt v k).
Proof.
  unfold get_opt. destruct v; simpl; try discriminate; reflexivity.
Qed.

Lemma get_absent (v : Val) (k : string) :
  nullish v = true -> get v k = Throw TypeError.
Proof.
  destruct v; simpl; try discriminate; reflexivity.
Qed.

Ltac case_ifs :=
  cbn [bind isTranslation isAlternative officialType informalType inOriginalLanguage
       fromOriginCountry nonAscii equalsDefault equalsOriginal];
  repeat match goal with
  | |- context [if ?b then _ else _] =>
      let x := fresh "b" in set (x := b) in *; clearbody x; destruct x
  end.

(** The score is the sum of the weights of the signals. *)
Lemma scoreLocalizedCandidate_total (candidate options : Val) :
  scoreLocalizedCandidate candidate options =
  (s <- signalsOf candidate options ;; Normal (total s)).
Proof.
  unfold scoreLocalizedCandidate, signalsOf.
  destruct (nullish options) eqn:Ho.
  { now rewrite !(get_absent _ _ Ho). }
  rewrite !(get_present _ _ Ho). cbn [bind].
  destruct (nullish candidate) eqn:Hc.
  { now rewrite !(get_absent _ _ Hc). }
  rewrite !(get_present _ _ Hc). cbn [bind].
  unfold typeSignal, countrySignal, typeOf, titleSignal, total, weight.
  cbv zeta.
  cbn [isTranslation isAlternative officialType informalType inOriginalLanguage
       fromOriginCountry nonAscii equalsDefault equalsOriginal].
  set (meta := get_opt candidate "meta").
  set (official := regex_test ["official"; "literal"; "original"] (get_opt meta "type")).
  set (informal := regex_test ["festival"; "working"; "dvd"; "tv"] (get_opt meta "type")).
  set (upper := call_toUpperCase (get_opt meta "iso3166")).
  clearbody official informal upper.
  destruct (truthy (get_opt meta "type")).
  - destruct official as [official | e]; cbn [bind]; [| reflexivity].
    destruct informal as [informal | e]; cbn [bind]; [| reflexivity].
    destruct (truthy (get_opt meta "iso3166")); cbn [bind].
    + destruct upper as [country | e]; cbn [bind]; [| reflexivity].
      destruct (nullish (get_opt options "originCountries")); cbn [bind].
      * case_ifs; reflexivity.
      * destruct (call_includes (get_opt options "originCountries") country)
          as [inOrigin | e]; cbn [bind]; [| reflexivity].
        case_ifs; reflexivity.
    + case_ifs; reflexivity.
  - cbn [bind]. destruct (truthy (get_opt meta "iso3166")); cbn [bind].
    + destruct upper as [country | e]; cbn [bind]; [| reflexivity].
      destruct (nullish (get_opt options "originCountries")); cbn [bind].
      * case_ifs; reflexivity.
      * destruct (call_includes (get_opt options "originCountries") country)
          as [inOrigin | e]; cbn [bind]; [| reflexivity].
        case_ifs; reflexivity.
    + case_ifs; reflexivity.
Qed.

Lemma dvd_type_signals (alternative options : Val) (s : Signals) :
  typeOf alternative = VStr "dvd" ->
  signalsOf alternative options = Normal s ->
  officialType s = false /\ informalType s = true.
Proof.
  intros Htype. unfold signalsOf, typeSignal. rewrite Htype.
  cbn [truthy regex_test ToString bind].
  destruct (get options "defaultNormalized"); cbn [bind]; [| discriminate].
  destruct (get alternative "source"); cbn [bind]; [| discriminate].
  replace (matchesAnyWord ["official"; "literal"; "original"] "dvd") with false
    by reflexivity.
  replace (matchesAnyWord ["festival"; "working"; "dvd"; "tv"] "dvd") with true
    by reflexivity.
  replace (negb ("dvd" =? "")) with true by reflexivity. cbn [bind].
  destruct (countrySignal alternative options); cbn [bind]; [| discriminate].
  intros [= <-]. split; reflexivity.
Qed.

(** C7.  A translation candidate in the original language with a title
    outside ASCII scores 40 + 6 + 3 = 49, an alternative title of type
    ['dvd'] scores 15 - 3 = 12, when no other signal is active for either:
    the translation scores strictly higher. *)
Theorem translation_outscores_dvd (translation alternative options : Val)
  (s : Signals) :
  signalsOf translation options =
    Normal {| isTranslation := true; isAlternative := false;
              officialType := false; informalType := false;
              inOriginalLanguage := true; fromOriginCountry := false;
              nonAscii := true; equalsDefault := false; equalsOriginal := false |} ->
  typeOf alternative = VStr "dvd" ->
  signalsOf alternative options = Normal s ->
  isAlternative s = true -> isTranslation s = false ->
  inOriginalLanguage s = false -> fromOriginCountry s = false ->
  nonAscii s = false -> equalsDefault s = false -> equalsOriginal s = false ->
  exists high low,
    scoreLocalizedCandidate translation options = Normal high
    /\ scoreLocalizedCandidate alternative options = Normal low
    /\ high = 49%Z /\ low = 12%Z /\ (low < high)%Z.
Proof.
  intros Ht Htype Ha Halt Htr Hlang Hcountry Hascii Hdef Horig.
  destruct (dvd_type_signals _ _ _ Htype Ha) as [Hoff Hinf].
  exists 49%Z, 12%Z. rewrite !scoreLocalizedCandidate_total, Ht, Ha. cbn [bind].
  unfold total. rewrite Halt, Htr, Hlang, Hcountry, Hascii, Hdef, Horig, Hoff, Hinf.
  repeat split; reflexivity.
Qed.

(** *** The best candidate of a token *)

Lemma comes_after_byScore (a b : Val * Z) :
  comes_after byScoreDescending a b = Normal (snd a <? snd b)%Z.
Proof.
  unfold comes_after, byScoreDescending, num. cbn [bind ToNumber num_ltb].
  f_equal. unfold Qle_bool, inject_Z. cbn [Qnum Qden].
  rewrite Z.mul_1_r. change (0 * 1)%Z with 0%Z.
  destruct (Z.leb_spec (snd b - snd a) 0), (Z.ltb_spec (snd a) (snd b)); simpl; lia.
Qed.

Lemma sort_insert_byScore (x : Val * Z) (sorted : list (Val * Z)) :
  exists r,
    sort_insert byScoreDescending x sorted = Normal r
    /\ hd_error r =
       match hd_error sorted with
       | None => Some x
       | Some y => if (snd x <? snd y)%Z then Some y else Some x
       end.
Proof.
  destruct sorted as [| y rest]; cbn [sort_insert hd_error]; [now eexists |].
  rewrite comes_after_byScore. cbn [bind].
  destruct (snd x <? snd y)%Z; [| now eexists].
  assert (Hret : exists r, sort_insert byScoreDescending x rest = Normal r).
  { clear. induction rest as [| z rest [r IH]]; cbn [sort_insert]; [now eexists |].
    rewrite comes_after_byScore. cbn [bind].
    destruct (snd x <? snd z)%Z; [| now eexists]. rewrite IH. now eexists. }
  destruct Hret as [r ->]. now eexists.
Qed.

Lemma sort_list_byScore (scored : list (Val * Z)) :
  exists sorted,
    sort_list byScoreDescending scored = Normal sorted
    /\ hd_error sorted = firstBest scored.
Proof.
  induction scored as [| x rest [sorted [Hs Hhd]]]; cbn [sort_list firstBest];
    [now eexists |].
  rewrite Hs. cbn [bind].
  destruct (sort_insert_byScore x sorted) as [r [-> Hr]].
  exists r. split; [reflexivity |]. now rewrite Hr, Hhd.
Qed.

Lemma firstBest_None (scored : list (Val * Z)) :
  firstBest scored = None -> scored = [].
Proof.
  destruct scored as [| x rest]; simpl; [reflexivity |].
  destruct (firstBest rest) as [y |]; [| discriminate].
  destruct (snd x <? snd y)%Z; discriminate.
Qed.

Lemma firstBest_first_max (scored : list (Val * Z)) (x : Val * Z) :
  firstBest scored = Some x ->
  exists before after,
    scored = before ++ x :: after
    /\ (forall y, In y before -> (snd y < snd x)%Z)
    /\ (forall y, In y after -> (snd y <= snd x)%Z).
Proof.
  revert x. induction scored as [| x0 rest IH]; intros x; simpl; [discriminate |].
  destruct (firstBest rest) as [y |] eqn:Hrest.
  - destruct (IH y eq_refl) as [before [after [-> [Hb Ha]]]].
    destruct (Z.ltb_spec (snd x0) (snd y)); intros [= <-].
    + exists (x0 :: before), after. repeat split; auto.
      intros z [<- | Hz]; auto.
    + exists [], (before ++ y :: after). repeat split; [intros z [] |].
      intros z Hz. apply in_app_or in Hz as [Hz | [<- | Hz]].
      * specialize (Hb z Hz). lia.
      * lia.
      * specialize (Ha z Hz). lia.
  - intros [= <-]. rewrite (firstBest_None _ Hrest).
    exists [], []. repeat split; intros z [].
Qed.

Lemma scoreAll_scores (scoring : Val) (candidates : list Val) (scored : list (Val * Z)) :
  scoreAll scoring candidates = Normal scored ->
  map fst scored = candidates
  /\ Forall (fun p => scoreLocalizedCandidate (fst p) scoring = Normal (snd p)) scored.
Proof.
  unfold scoreAll. revert scored.
  induction candidates as [| c rest IH]; intros scored; cbn [mapM].
  - intros [= <-]. split; constructor.
  - destruct (scoreLocalizedCandidate c scoring) as [score | e] eqn:Hc; cbn [bind];
      [| discriminate].
    destruct (mapM _ rest) as [ys | e]; cbn [bind]; [| discriminate].
    intros [= <-]. destruct (IH ys eq_refl) as [Hmap Hall].
    split; [simpl; now rewrite Hmap | now constructor].
Qed.

Lemma localizedEntry_returns (best : Val) :
  truthy best = true -> exists entry, localizedEntry best = Normal entry.
Proof.
  intros Ht. unfold localizedEntry.
  assert (Hn : nullish best = false) by (destruct best; try discriminate; reflexivity).
  rewrite !(get_present _ _ Hn). cbn [bind]. now eexists.
Qed.

(** One pass of the last loop: the token's entry is that of its first best
    candidate. *)
Lemma chooseStep_best (scoring : Val) (localized localized' : list (string * Val))
  (token : string) (candidates : list Val) :
  candidates <> [] -> Forall (fun c => truthy c = true) candidates ->
  chooseStep scoring localized (token, candidates) = Normal localized' ->
  exists entry,
    localized' = assignProperty token entry localized
    /\ firstBestOf scoring candidates entry.
Proof.
  intros Hne Htruthy. unfold chooseStep.
  destruct (scoreAll scoring candidates) as [scored0 | e] eqn:Hscored; cbn [bind];
    [| discriminate].
  destruct (scoreAll_scores _ _ _ Hscored) as [Hmap Hall].
  destruct (sort_list_byScore scored0) as [scored [-> Hhd]]. cbn [bind].
  destruct (firstBest scored0) as [[best score] |] eqn:Hbest.
  - destruct (firstBest_first_max _ _ Hbest) as [before [after [Hsplit [Hb Ha]]]].
    destruct scored as [| [best' score'] rest]; [discriminate |].
    injection Hhd as -> ->.
    assert (Hin : In best candidates).
    { rewrite <- Hmap, Hsplit, map_app. apply in_or_app. right. now left. }
    rewrite Forall_forall in Htruthy. rewrite (Htruthy _ Hin).
    destruct (localizedEntry_returns best (Htruthy _ Hin)) as [entry Hentry].
    rewrite Hentry. cbn [bind]. intros [= <-].
    exists entry. split; [reflexivity |].
    exists (map fst before), best, (map fst after), score.
    rewrite Forall_forall in Hall.
    assert (Hscore : forall p, In p scored0 ->
              scoreLocalizedCandidate (fst p) scoring = Normal (snd p)) by exact Hall.
    repeat split.
    + rewrite <- Hmap, Hsplit, map_app. reflexivity.
    + exact Hentry.
    + apply (Hscore (best, score)). rewrite Hsplit. apply in_or_app. right. now left.
    + intros c Hc. apply in_map_iff in Hc as [p [<- Hp]].
      exists (snd p). split; [| exact (Hb p Hp)].
      apply Hscore. rewrite Hsplit. apply in_or_app. now left.
    + intros c Hc. apply in_map_iff in Hc as [p [<- Hp]].
      exists (snd p). split; [| exact (Ha p Hp)].
      apply Hscore. rewrite Hsplit. apply in_or_app. right. now right.
  - apply firstBest_None in Hbest. subst scored0. simpl in Hmap. congruence.
Qed.

Lemma NoDup_set {A} (k : string) (v : A) (fs : list (string * A)) :
  NoDup (map fst fs) -> NoDup (map fst (set k v fs)).
Proof.
  intros Hnd. rewrite map_fst_set. unfold has.
  destruct (lookup k fs) eqn:Hk; [exact Hnd |].
  apply lookup_None in Hk.
  apply NoDup_rev in Hnd. rewrite <- (rev_involutive (map fst fs ++ [k])).
  apply NoDup_rev. rewrite rev_app_distr. simpl. constructor; [| exact Hnd].
  now rewrite <- in_rev.
Qed.

Lemma pushCandidate_wellFormed (candidate : Val) (candidateMap : CandidateMap)
  (token : string) :
  truthy candidate = true -> wellFormedMap candidateMap ->
  wellFormedMap (pushCandidate candidate candidateMap token).
Proof.
  intros Hc [Hnd Hval]. unfold pushCandidate.
  destruct (token =? ""); [now split |].
  set (cm := if has token candidateMap then candidateMap else set token [] candidateMap).
  assert (Hcm : NoDup (map fst cm)
                /\ forall t cs, t <> token -> lookup t cm = Some cs ->
                                lookup t candidateMap = Some cs).
  { unfold cm. destruct (has token candidateMap); [now split |].
    split; [now apply NoDup_set |].
    intros t cs Hne. now rewrite lookup_set_other. }
  destruct Hcm as [Hnd' Hother]. split; [now apply NoDup_set |].
  intros t cs. destruct (String.eqb_spec t token) as [-> | Hne].
  - rewrite lookup_set_same. intros [= <-]. split.
    + now destruct (candidatesOf token cm).
    + apply Forall_app. split; [| now repeat constructor].
      unfold candidatesOf. destruct (lookup token cm) as [cs |] eqn:Hcs; [| constructor].
      unfold cm in Hcs. unfold has in Hcs.
      destruct (lookup token candidateMap) as [cs0 |] eqn:H0.
      * rewrite H0 in Hcs. injection Hcs as <-. now apply (Hval token).
      * rewrite lookup_set_same in Hcs. injection Hcs as <-. constructor.
  - rewrite lookup_set_other by exact Hne. intros Hl.
    apply (Hval t). now apply Hother.
Qed.

Lemma registerCandidate_wellFormed (candidateMap candidateMap' : CandidateMap)
  (tokens : list string) (payload : Val) :
  wellFormedMap candidateMap ->
  registerCandidate candidateMap tokens payload = Normal candidateMap' ->
  wellFormedMap candidateMap'.
Proof.
  intros Hwf. unfold registerCandidate.
  destruct (falsy payload); [now intros [= <-] |].
  destruct (get payload "title") as [title | e]; cbn [bind]; [| discriminate].
  destruct (falsy title); [now intros [= <-] |].
  unfold candidateOf.
  repeat (match goal with
          | |- context [bind (get ?v ?k) _] => destruct (get v k); cbn [bind]
          end; [| discriminate]).
  intros [= <-]. revert candidateMap Hwf.
  induction tokens as [| t tokens IH]; intros cm Hwf; simpl; [exact Hwf |].
  apply IH. now apply pushCandidate_wellFormed.
Qed.

Lemma foldM_invariant {A S} (f : S -> A -> Completion S) (I : S -> Prop) :
  (forall s x s', I s -> f s x = Normal s' -> I s') ->
  forall l s s', I s -> foldM f s l = Normal s' -> I s'.
Proof.
  intros Hstep. induction l as [| x l IH]; intros s s' Hs; cbn [foldM].
  - now intros [= <-].
  - destruct (f s x) as [s1 |] eqn:Hf; cbn [bind]; [| discriminate].
    apply IH. now apply (Hstep s x).
Qed.

Lemma translationStep_wellFormed (candidateMap candidateMap' : CandidateMap)
  (entry : Val) :
  wellFormedMap candidateMap ->
  translationStep candidateMap entry = Normal candidateMap' ->
  wellFormedMap candidateMap'.
Proof.
  intros Hwf. unfold translationStep.
  destruct (falsy entry); [now intros [= <-] |].
  destruct (get entry "iso_639_1"); cbn [bind]; [| discriminate].
  destruct (falsy a); [now intros [= <-] |].
  destruct (get entry "data"); cbn [bind]; [| discriminate].
  destruct (get (or_else a0 (VObj [])) "title"); cbn [bind]; [| discriminate].
  destruct (get (or_else a0 (VObj [])) "name"); cbn [bind]; [| discriminate].
  destruct (falsy (or_else a1 a2)); [now intros [= <-] |].
  destruct (get entry "iso_3166_1"); cbn [bind]; [| discriminate].
  destruct (get (or_else a0 (VObj [])) "overview"); cbn [bind]; [| discriminate].
  destruct (get (or_else a0 (VObj [])) "tagline"); cbn [bind]; [| discriminate].
  destruct (opt_toLowerCase a); cbn [bind]; [| discriminate].
  destruct (opt_toLowerCase a3); cbn [bind]; [| discriminate].
  destruct (get entry "name"); cbn [bind]; [| discriminate].
  destruct (get entry "english_name"); cbn [bind]; [| discriminate].
  now apply registerCandidate_wellFormed.
Qed.

Lemma alternativeStep_wellFormed (options : Val)
  (candidateMap candidateMap' : CandidateMap) (entry : Val) :
  wellFormedMap candidateMap ->
  alternativeStep options candidateMap entry = Normal candidateMap' ->
  wellFormedMap candidateMap'.
Proof.
  intros Hwf. unfold alternativeStep.
  destruct (falsy entry); [now intros [= <-] |].
  destruct (get entry "title"); cbn [bind]; [| discriminate].
  destruct (falsy a); [now intros [= <-] |].
  destruct (get entry "iso_639_1"); cbn [bind]; [| discriminate].
  destruct (get entry "iso_3166_1"); cbn [bind]; [| discriminate].
  destruct (get options "originalLanguage"); cbn [bind]; [| discriminate].
  destruct (List.length _ =? 0)%nat; [now intros [= <-] |].
  destruct (get entry "type"); cbn [bind]; [| discriminate].
  destruct (opt_toLowerCase a0); cbn [bind]; [| discriminate].
  destruct (opt_toLowerCase a1); cbn [bind]; [| discriminate].
  now apply registerCandidate_wellFormed.
Qed.

Lemma collectCandidates_wellFormed (translations alternativeTitles options : Val)
  (candidateMap : CandidateMap) :
  collectCandidates translations alternativeTitles options = Normal candidateMap ->
  wellFormedMap candidateMap.
Proof.
  unfold collectCandidates.
  destruct (forEach_values translations) as [entries | e]; cbn [bind]; [| discriminate].
  destruct (foldM translationStep [] entries) as [cm1 | e] eqn:H1; cbn [bind];
    [| discriminate].
  destruct (forEach_values alternativeTitles) as [alts | e]; cbn [bind];
    [| discriminate].
  intros H2.
  apply (foldM_invariant (alternativeStep options) wellFormedMap
           (fun s x s' => alternativeStep_wellFormed options s s' x)
           alts cm1 candidateMap); [| exact H2].
  apply (foldM_invariant translationStep wellFormedMap
           (fun s x s' => translationStep_wellFormed s s' x) entries [] cm1);
    [| exact H1].
  split; [constructor | intros t cs; discriminate].
Qed.

(** The last loop as a whole. *)
Lemma chooseStep_fold (scoring : Val) (candidateMap : CandidateMap) :
  wellFormedMap candidateMap ->
  forall localized0 localized,
    NoDup (map fst localized0) ->
    (forall token, In token (map fst candidateMap) -> lookup token localized0 = None) ->
    foldM (chooseStep scoring) localized0 candidateMap = Normal localized ->
    NoDup (map fst localized)
    /\ forall token,
         match lookup token candidateMap with
         | Some candidates =>
             if token =? "__proto__"
             then lookup token localized = lookup token localized0
             else exists entry,
                    lookup token localized = Some entry
                    /\ firstBestOf scoring candidates entry
         | None => lookup token localized = lookup token localized0
         end.
Proof.
  induction candidateMap as [| [k cs] rest IH]; intros [Hnd Hval] loc0 loc Hnd0 Hfresh;
    cbn [foldM].
  - intros [= <-]. split; [exact Hnd0 | reflexivity].
  - destruct (chooseStep scoring loc0 (k, cs)) as [loc1 | e] eqn:Hstep; cbn [bind];
      [| discriminate].
    intros Hfold. simpl in Hnd. inversion Hnd as [| ? ? Hk Hnd']; subst.
    assert (Hcs : cs <> [] /\ Forall (fun c => truthy c = true) cs).
    { apply (Hval k). simpl. now rewrite String.eqb_refl. }
    destruct (chooseStep_best _ _ _ _ _ (proj1 Hcs) (proj2 Hcs) Hstep)
      as [entry [-> Hbest]].
    assert (Hwf' : wellFormedMap rest).
    { split; [exact Hnd' |]. intros t cs' Ht. apply (Hval t). simpl.
      destruct (String.eqb_spec k t) as [-> | _]; [| exact Ht].
      apply lookup_None in Hk. congruence. }
    assert (Hother : forall t, t <> k ->
              lookup t (assignProperty k entry loc0) = lookup t loc0).
    { intros t Ht. unfold assignProperty. destruct (k =? "__proto__"); [reflexivity |].
      now apply lookup_set_other. }
    destruct (IH Hwf' (assignProperty k entry loc0) loc) as [Hnd1 Hall]; auto.
    + unfold assignProperty. destruct (k =? "__proto__"); [exact Hnd0 |].
      now apply NoDup_set.
    + intros t Ht. rewrite Hother.
      * apply Hfresh. now right.
      * intros ->. contradiction.
    + split; [exact Hnd1 |]. intros token. simpl.
      destruct (String.eqb_spec k token) as [<- | Hne].
      * specialize (Hall k). apply lookup_None in Hk. rewrite Hk in Hall.
        rewrite Hall. unfold assignProperty.
        destruct (k =? "__proto__"); [reflexivity |].
        rewrite lookup_set_same. now exists entry.
      * specialize (Hall token). rewrite Hother in Hall by congruence.
        exact Hall.
Qed.

(** C1.  In the object [buildLocalizedTitles] returns every locale token
    has at most one entry: that of the candidate with the highest score
    among the candidates registered under the token, the first registered
    of them when several have that score.  A token without entry has no
    candidate (or is [__proto__], which no assignment defines). *)
Theorem buildLocalizedTitles_best (translations alternativeTitles options : Val)
  (localized : list (string * Val)) :
  buildLocalizedTitles translations alternativeTitles options = Normal (VObj localized) ->
  NoDup (map fst localized)
  /\ exists candidateMap,
       registeredCandidates translations alternativeTitles options = Normal candidateMap
       /\ forall token,
            match lookup token localized with
            | Some entry =>
                exists scoring,
                  scoringOptions (withDefault options (VObj [])) = Normal scoring
                  /\ firstBestOf scoring (candidatesOf token candidateMap) entry
            | None =>
                candidatesOf token candidateMap = [] \/ token = "__proto__"
            end.
Proof.
  unfold buildLocalizedTitles, registeredCandidates. cbv zeta.
  destruct (emptyOrNoArray _ && emptyOrNoArray _).
  - intros [= <-]. split; [constructor |]. exists []. split; [reflexivity |].
    intros token. now left.
  - destruct (scoringOptions _) as [scoring | e]; cbn [bind]; [| discriminate].
    destruct (collectCandidates _ _ _) as [cm | e] eqn:Hcm; cbn [bind]; [| discriminate].
    destruct (foldM (chooseStep scoring) [] cm) as [loc | e] eqn:Hfold; cbn [bind];
      [| discriminate].
    intros [= <-].
    destruct (chooseStep_fold scoring cm (collectCandidates_wellFormed _ _ _ _ Hcm)
                [] loc) as [Hnd Hall]; auto.
    + constructor.
    + split; [exact Hnd |]. exists cm. split; [reflexivity |].
      intros token. specialize (Hall token). unfold candidatesOf.
      destruct (lookup token cm) as [cs |].
      * destruct (String.eqb_spec token "__proto__") as [-> | Hne].
        -- rewrite Hall. now right.
        -- destruct Hall as [entry [-> Hbest]]. now exists scoring.
      * rewrite Hall. now left.
Qed.

(** *** The requests of a resolution *)

Section Requests.
Context {network : Network}.


















End Requests.


(** *** Normalised titles *)

Lemma keepAlphanumeric_alphanumeric (s : string) : alphanumeric (keepAlphanumeric s) = true.
Proof.
  induction s as [| c s IH]; simpl; [reflexivity |].
  destruct (byte_in 97 122 c || byte_in 48 57 c) eqn:Hc; [| exact IH].
  simpl. now rewrite Hc.
Qed.

Lemma keepAlphanumeric_fixed (s : string) :
  alphanumeric s = true -> keepAlphanumeric s = s.
Proof.
  induction s as [| c s IH]; simpl; [reflexivity |].
  intros H. apply andb_true_iff in H as [Hc Hs]. rewrite Hc. now rewrite IH.
Qed.

Lemma alphanumeric_not_mark (c : ascii) :
  byte_in 97 122 c || byte_in 48 57 c = true ->
  byte_in 204 204 c = false /\ byte_in 205 205 c = false /\ byte_in 128 255 c = false.
Proof.
  unfold byte_in. generalize (nat_of_ascii c) as n. intros n H.
  apply orb_true_iff in H as [H | H]; apply andb_true_iff in H as [H1 H2];
    apply Nat.leb_le in H1, H2;
    repeat split; apply andb_false_iff;
    (left; apply Nat.leb_gt; lia) || (right; apply Nat.leb_gt; lia).
Qed.

Lemma stripCombiningMarks_fixed (s : string) :
  alphanumeric s = true -> stripCombiningMarks s = s.
Proof.
  assert (Hstep : forall c s',
            byte_in 97 122 c || byte_in 48 57 c = true ->
            stripCombiningMarks (String c s') = String c (stripCombiningMarks s')).
  { intros c s' Hc. destruct s' as [| c2 rest]; [reflexivity |].
    destruct (alphanumeric_not_mark c Hc) as [H1 [H2 _]].
    change (stripCombiningMarks (String c (String c2 rest)))
      with (if (byte_in 204 204 c && byte_in 128 191 c2)
               || (byte_in 205 205 c && byte_in 128 175 c2)
            then stripCombiningMarks rest
            else String c (stripCombiningMarks (String c2 rest))).
    now rewrite H1, H2. }
  induction s as [| c1 s IH]; [reflexivity |].
  intros H. cbn [alphanumeric] in H. apply andb_true_iff in H as [Hc Hs].
  now rewrite (Hstep _ _ Hc), (IH Hs).
Qed.

Lemma alphanumeric_ascii (s : string) : alphanumeric s = true -> hasNonAscii s = false.
Proof.
  induction s as [| c s IH]; simpl; [reflexivity |].
  intros H. apply andb_true_iff in H as [Hc Hs].
  destruct (alphanumeric_not_mark c Hc) as [_ [_ H3]]. rewrite H3. now apply IH.
Qed.

(** X14.  Where [trim], [toLowerCase] and NFKD normalisation leave a
    string of the characters a-z and 0-9 as it is, [normalizeTitleValue]
    returns such a string, hence one within ASCII, and is idempotent:
    normalising a normalised title changes nothing. *)
Theorem normalizeTitleValue_idempotent `{!PlainOnAlphanumeric platform} (value : Val) :
  alphanumeric (normalizeTitleValue value) = true
  /\ normalizeTitleValue (VStr (normalizeTitleValue value)) = normalizeTitleValue value
  /\ containsNonAscii (VStr (normalizeTitleValue value)) = false.
Proof.
  assert (Ha : alphanumeric (normalizeTitleValue value) = true).
  { destruct value; try reflexivity. cbn [normalizeTitleValue].
    rewrite trim_alphanumeric; apply keepAlphanumeric_alphanumeric. }
  split; [exact Ha |]. split; [| now apply alphanumeric_ascii].
  set (n := normalizeTitleValue value) in *. cbn [normalizeTitleValue].
  rewrite (normalizeNFKD_alphanumeric _ Ha), (stripCombiningMarks_fixed _ Ha),
          (toLowerCase_alphanumeric _ Ha), (keepAlphanumeric_fixed _ Ha).
  now apply trim_alphanumeric.
Qed.

(** *** Requests that are not made, requests that fail *)

Section Localization.
Context {network : Network}.

(** X15.  A call that lacks what its request needs issues no request and
    logs nothing: the three fetches and [loadTmdbLocalization] without API
    key, type or id, the lookup without API key or IMDb id, the search
    without API key or title, [resolveTmdbId] without API key, or with
    neither IMDb id nor title, return [null], or an empty array, and leave
    the trace as it was. *)
Theorem missing_arguments_issue_no_request
  (apiKey type tmdbId imdbId title year language languageCandidates : Val) (t : Trace) :
  (truthy apiKey = false \/ truthy type = false \/ truthy tmdbId = false ->
   fetchTmdbMetadata apiKey type tmdbId language t = (Normal VNull, t)
   /\ fetchTmdbTranslations apiKey type tmdbId t = (Normal (VArr []), t)
   /\ fetchTmdbAlternativeTitles apiKey type tmdbId t = (Normal (VArr []), t)
   /\ loadTmdbLocalization apiKey type tmdbId t = (Normal VNull, t))
  /\ (truthy apiKey = false \/ truthy imdbId = false ->
      findTmdbIdByImdb apiKey imdbId type t = (Normal VNull, t))
  /\ (truthy apiKey = false \/ truthy title = false ->
      searchTmdbByTitle apiKey type title year language t = (Normal VNull, t))
  /\ (truthy apiKey = false \/ (truthy imdbId = false /\ truthy title = false) ->
      resolveTmdbId apiKey type imdbId title year languageCandidates t = (Normal VNull, t)).
Proof.
  split; [| split; [| split]].
  - intros H.
    assert (Hguard : falsy apiKey || falsy type || falsy tmdbId = true).
    { unfold falsy. destruct H as [-> | [-> | ->]]; simpl;
        rewrite ?orb_true_r; reflexivity. }
    assert (Hm : forall l, fetchTmdbMetadata apiKey type tmdbId l t = (Normal VNull, t)).
    { intros l. unfold fetchTmdbMetadata. now rewrite Hguard. }
    unfold loadTmdbLocalization, fetchTmdbTranslations, fetchTmdbAlternativeTitles,
      bindIO.
    rewrite !Hm, Hguard. repeat split.
  - intros H. unfold findTmdbIdByImdb, falsy.
    destruct H as [-> | ->]; simpl; rewrite ?orb_true_r; reflexivity.
  - intros H. unfold searchTmdbByTitle, falsy.
    destruct H as [-> | ->]; simpl; rewrite ?orb_true_r; reflexivity.
  - intros H. unfold resolveTmdbId, falsy.
    destruct H as [-> | [Hi Ht]]; [reflexivity |].
    destruct (truthy apiKey); [| reflexivity]. cbn [negb].
    rewrite Hi. unfold resolveByTitle. now rewrite Ht.
Qed.

Lemma missOrWarn_run (message : string) (error : Val) (n : Num) (t : Trace) :
  ToNumber (statusOfError error) = Normal n ->
  missOrWarn message error t =
  (Normal VNull, t ++ (if passedOver error n then [] else [Warn message])).
Proof.
  intros Hn. unfold missOrWarn, passedOver, bindIO, lift, lessThan.
  fold (statusOfError error). rewrite Hn. cbn [bind].
  destruct (truthy (statusOfError error)); cbn [andb].
  - destruct (num_ltb n (Fin 500)); unfold ret, console_warn;
      now rewrite ?app_nil_r.
  - reflexivity.
Qed.

Lemma emptyOrWarn_run (message : string) (error : Val) (n : Num) (t : Trace) :
  ToNumber (statusOfError error) = Normal n ->
  emptyOrWarn message error t =
  (Normal (VArr []), t ++ (if passedOver error n then [] else [Warn message])).
Proof.
  intros Hn. unfold emptyOrWarn, passedOver, bindIO, lift, lessThan.
  fold (statusOfError error). rewrite Hn. cbn [bind].
  destruct (truthy (statusOfError error)); cbn [andb].
  - destruct (num_ltb n (Fin 500)); unfold ret, console_warn;
      now rewrite ?app_nil_r.
  - reflexivity.
Qed.

(** X16.  A rejected request does not make [searchTmdbByTitle],
    [findTmdbIdByImdb] or [fetchTmdbAlternativeTitles] throw, when the
    status of the error converts to a number: each returns [null], or an
    empty array, after its one request, and logs one warning unless the
    error carries a status below 500 (that is not 0). *)
Theorem rejections_pass_below_500 (apiKey type imdbId tmdbId title year language : Val)
  (t : Trace) (error : Val) (n : Num) :
  truthy apiKey = true ->
  ToNumber (statusOfError error) = Normal n ->
  (truthy title = true ->
   respond t (searchRequest apiKey type title year language) = Throw error ->
   searchTmdbByTitle apiKey type title year language t =
   (Normal VNull,
    rejected t (searchRequest apiKey type title year language)
      (passedOver error n) "[TMDB] Title search failed"))
  /\ (forall id encoded,
        truthy imdbId = true ->
        ToString imdbId = Normal id -> encodeURIComponent id = Normal encoded ->
        respond t (findRequest apiKey encoded) = Throw error ->
        findTmdbIdByImdb apiKey imdbId type t =
        (Normal VNull,
         rejected t (findRequest apiKey encoded)
           (passedOver error n) "[TMDB] IMDb lookup failed"))
  /\ (forall id,
        truthy type = true -> truthy tmdbId = true ->
        ToString tmdbId = Normal id ->
        respond t (alternativeTitlesRequest apiKey type id) = Throw error ->
        fetchTmdbAlternativeTitles apiKey type tmdbId t =
        (Normal (VArr []),
         rejected t (alternativeTitlesRequest apiKey type id)
           (passedOver error n) "[TMDB] Alternative titles request failed")).
Proof.
  intros Ha Hn. unfold rejected. split; [| split].
  - intros Ht Hr. unfold searchTmdbByTitle, falsy. rewrite Ha, Ht. cbn [negb orb].
    unfold try_catch, bindIO at 1, axios_get.
    change {| url := searchUrl type;
              params := searchParams apiKey type title year language;
              timeout := 5000 |}
      with (searchRequest apiKey type title year language).
    rewrite Hr, (missOrWarn_run _ _ _ _ Hn). now rewrite <- app_assoc.
  - intros id encoded Hi Hid Henc Hr. unfold findTmdbIdByImdb, falsy.
    rewrite Ha, Hi. cbn [negb orb]. unfold bindIO at 1, lift at 1. rewrite Hid.
    unfold bindIO at 1, lift at 1. rewrite Henc.
    unfold try_catch, bindIO at 1, axios_get.
    change {| url := String.append TMDB_BASE_URL (String.append "/find/" encoded);
              params := [("api_key", apiKey); ("external_source", VStr "imdb_id")];
              timeout := 5000 |}
      with (findRequest apiKey encoded).
    rewrite Hr, (missOrWarn_run _ _ _ _ Hn). now rewrite <- app_assoc.
  - intros id Hty Htm Hid Hr. unfold fetchTmdbAlternativeTitles, falsy.
    rewrite Ha, Hty, Htm. cbn [negb orb]. unfold bindIO at 1, lift at 1. rewrite Hid.
    unfold try_catch, bindIO at 1, axios_get.
    change {| url := titleUrl type id "/alternative_titles";
              params := [("api_key", apiKey)];
              timeout := 5000 |}
      with (alternativeTitlesRequest apiKey type id).
    rewrite Hr, (emptyOrWarn_run _ _ _ _ Hn). now rewrite <- app_assoc.
Qed.

(** X17.  After a rejected request [fetchTmdbMetadata] returns [null]: in
    silence when the status of the error is 404, with one warning for
    every other error, the other statuses below 500 included.  An error
    that is [null] or [undefined] makes the [catch] block itself throw. *)
Theorem fetchTmdbMetadata_on_rejection (apiKey type tmdbId language : Val) (id : string)
  (t : Trace) (error : Val) :
  truthy apiKey = true -> truthy type = true -> truthy tmdbId = true ->
  ToString tmdbId = Normal id ->
  respond t (metadataRequest apiKey type id language) = Throw error ->
  fetchTmdbMetadata apiKey type tmdbId language t =
  if nullish error
  then (Throw TypeError, t ++ [HttpGet (metadataRequest apiKey type id language)])
  else (Normal VNull,
        rejected t (metadataRequest apiKey type id language)
          (strict_eq (statusOfError error) (num 404)) "[TMDB] Metadata request failed").
Proof.
  intros Ha Hty Htm Hid Hr. unfold fetchTmdbMetadata, falsy, rejected.
  rewrite Ha, Hty, Htm. cbn [negb orb]. unfold bindIO at 1, lift at 1. rewrite Hid.
  unfold try_catch, bindIO at 1, axios_get.
  change {| url := titleUrl type id "";
            params := [("language", VStr (normalizeLanguageTag language));
                       ("api_key", apiKey)];
            timeout := 5000 |}
    with (metadataRequest apiKey type id language).
  rewrite Hr. unfold bindIO, lift.
  destruct (nullish error) eqn:Hnull.
  - now rewrite (get_absent _ _ Hnull).
  - rewrite (get_present _ _ Hnull). fold (statusOfError error).
    destruct (strict_eq (statusOfError error) (num 404)); unfold ret, console_warn.
    + reflexivity.
    + now rewrite <- app_assoc.
Qed.

(** *** The requests of the localization *)


Lemma truthy_present (v : Val) : truthy v = true -> nullish v = false.
Proof. now destruct v. Qed.

Lemma requests_app (t1 t2 : Trace) : requests (t1 ++ t2) = requests t1 ++ requests t2.
Proof. unfold requests. apply flat_map_app. Qed.

Lemma issues_ret {A} (a : A) : issues (ret a) [].
Proof. intros t r t' [= <- <-]. now rewrite app_nil_r. Qed.

Lemma issues_lift {A} (c : Completion A) : issues (lift c) [].
Proof. intros t r t' [= <- <-]. now rewrite app_nil_r. Qed.

Lemma issues_warn (message : string) : issues (console_warn message) [].
Proof. intros t r t' [= <- <-]. now rewrite requests_app. Qed.

Lemma issues_bind {A B} (m : IO A) (k : A -> IO B) (rs : list Request) :
  issues m rs -> (forall a, issues (k a) []) -> issues (bindIO m k) rs.
Proof.
  intros Hm Hk t r t'. unfold bindIO.
  destruct (m t) as [[a | e] t1] eqn:Hmt.
  - intros Hkt. rewrite (Hk a _ _ _ Hkt), (Hm _ _ _ Hmt). now rewrite app_nil_r.
  - intros [= <- <-]. now apply Hm in Hmt.
Qed.

Lemma issues_try_catch {A} (body : IO A) (handler : Val -> IO A) (rs : list Request) :
  issues body rs -> (forall e, issues (handler e) []) -> issues (try_catch body handler) rs.
Proof.
  intros Hb Hh t r t'. unfold try_catch.
  destruct (body t) as [[a | e] t1] eqn:Hbt.
  - intros [= <- <-]. now apply Hb in Hbt.
  - intros Hht. rewrite (Hh e _ _ _ Hht), (Hb _ _ _ Hbt). now rewrite app_nil_r.
Qed.

Lemma issues_axios_get (u : string) (ps : list (string * Val)) :
  issues (axios_get u ps) [{| url := u; params := ps; timeout := 5000 |}].
Proof.
  intros t r t'. unfold axios_get. intros [= <- <-]. now rewrite requests_app.
Qed.

Lemma issues_if {A} (b : bool) (m1 m2 : IO A) (rs : list Request) :
  issues m1 rs -> issues m2 rs -> issues (if b then m1 else m2) rs.
Proof. now destruct b. Qed.

Ltac pure_rest :=
  repeat first
    [ apply issues_ret | apply issues_lift
    | apply issues_if
    | apply issues_bind; [first [apply issues_lift | apply issues_warn] | intros ?] ].

(** After the id was spelled, each of the three calls issues its request
    and no other. *)
Lemma fetchTmdbMetadata_issues (apiKey type language : Val) (id : string) :
  issues
    (try_catch
       (response <~ axios_get (titleUrl type id "")
                      [("language", VStr (normalizeLanguageTag language));
                       ("api_key", apiKey)] ;;
        data <~ lift (get response "data") ;;
        ret (or_else data VNull))
       (fun error =>
          response <~ lift (get error "response") ;;
          if strict_eq (get_opt response "status") (num 404) then ret VNull
          else (_ <~ console_warn "[TMDB] Metadata request failed" ;; ret VNull)))
    [metadataRequest apiKey type id language].
Proof.
  apply issues_try_catch.
  - apply issues_bind; [apply issues_axios_get | intros response]. pure_rest.
  - intros error. pure_rest.
Qed.

Lemma fetchTmdbAlternativeTitles_issues (apiKey type tmdbId : Val) (id : string) :
  truthy apiKey = true -> truthy type = true -> truthy tmdbId = true ->
  ToString tmdbId = Normal id ->
  issues (fetchTmdbAlternativeTitles apiKey type tmdbId)
    [alternativeTitlesRequest apiKey type id].
Proof.
  intros Ha Hty Htm Hid. unfold fetchTmdbAlternativeTitles, falsy.
  rewrite Ha, Hty, Htm. cbn [negb orb].
  intros t r t'. unfold bindIO at 1, lift at 1. rewrite Hid. revert t r t'.
  apply issues_try_catch.
  - apply issues_bind; [apply issues_axios_get | intros response]. pure_rest.
  - intros error. unfold emptyOrWarn. pure_rest.
Qed.

(** *** Translations and alternative titles *)

Lemma fetchTmdbTranslations_run (apiKey type tmdbId : Val) (id : string) (t : Trace) :
  truthy apiKey = true -> truthy type = true -> truthy tmdbId = true ->
  ToString tmdbId = Normal id ->
  exists entries,
    (fetchTmdbTranslations apiKey type tmdbId t =
       (Normal (VArr entries), t ++ [HttpGet (translationsRequest apiKey type id)])
     \/ (entries = []
         /\ fetchTmdbTranslations apiKey type tmdbId t =
            (Normal (VArr []),
             t ++ [HttpGet (translationsRequest apiKey type id);
                   Warn "[TMDB] Translation request failed"])))
    /\ Forall (fun entry => keepsTranslation entry = true
                            /\ exists raw, entry = translationRecord raw) entries.
Proof.
  intros Ha Hty Htm Hid.
  remember (fetchTmdbTranslations apiKey type tmdbId t) as run eqn:Hrun.
  unfold fetchTmdbTranslations, falsy in Hrun.
  rewrite Ha, Hty, Htm in Hrun. cbn [negb orb] in Hrun.
  unfold bindIO at 1, lift at 1 in Hrun. rewrite Hid in Hrun.
  unfold try_catch, bindIO at 1, axios_get in Hrun.
  change {| url := titleUrl type id "/translations";
            params := [("api_key", apiKey)];
            timeout := 5000 |}
    with (translationsRequest apiKey type id) in Hrun.
  assert (Hwarn :
    (_ <~ console_warn "[TMDB] Translation request failed" ;; ret (VArr []))
      (t ++ [HttpGet (translationsRequest apiKey type id)])
    = (Normal (VArr []),
       t ++ [HttpGet (translationsRequest apiKey type id);
             Warn "[TMDB] Translation request failed"])).
  { unfold bindIO, console_warn, ret. now rewrite <- app_assoc. }
  destruct (respond t (translationsRequest apiKey type id)) as [response | error].
  2: { rewrite Hwarn in Hrun. exists []. split; [now right | constructor]. }
  unfold bindIO at 1, lift at 1 in Hrun.
  destruct (get response "data") as [data | e].
  2: { rewrite Hwarn in Hrun. exists []. split; [now right | constructor]. }
  destruct (truthy data) eqn:Hd; cbn [negb] in Hrun.
  2: { exists []. split; [now left | constructor]. }
  unfold bindIO at 1, lift at 1 in Hrun.
  rewrite (get_present _ _ (truthy_present _ Hd)) in Hrun.
  destruct (Array_isArray (get_opt data "translations")); cbn [negb] in Hrun.
  2: { exists []. split; [now left | constructor]. }
  eexists. split; [left; exact Hrun |].
  apply Forall_forall. intros entry Hin. apply filter_In in Hin as [Hin Hkeep].
  split; [exact Hkeep |]. apply in_map_iff in Hin as [raw [<- _]]. now exists raw.
Qed.

(** X18.  Once the id is spelled, [fetchTmdbTranslations] returns an array
    after exactly one request, whatever the network does: the entries
    without warning, or an empty array with one warning.  Every entry is a
    record of the five properties with a language and with data that has
    a title, a name or an overview. *)
Theorem fetchTmdbTranslations_returns (apiKey type tmdbId : Val) (id : string)
  (t : Trace) :
  truthy apiKey = true -> truthy type = true -> truthy tmdbId = true ->
  ToString tmdbId = Normal id ->
  exists entries,
    (fetchTmdbTranslations apiKey type tmdbId t =
       (Normal (VArr entries), t ++ [HttpGet (translationsRequest apiKey type id)])
     \/ (entries = []
         /\ fetchTmdbTranslations apiKey type tmdbId t =
            (Normal (VArr []),
             t ++ [HttpGet (translationsRequest apiKey type id);
                   Warn "[TMDB] Translation request failed"])))
    /\ Forall (fun entry => keepsTranslation entry = true
                            /\ exists raw, entry = translationRecord raw) entries.
Proof. apply fetchTmdbTranslations_run. Qed.

(** X19.  On a response [fetchTmdbAlternativeTitles] returns, after its one
    request and without warning, the records of [results], or those of
    [titles] when [results] is no array (an empty [results] hides
    [titles]), keeping the ones with a country and a title; a response that
    is [null] or [undefined] gives an empty array and one warning. *)
Theorem fetchTmdbAlternativeTitles_on_response (apiKey type tmdbId : Val) (id : string)
  (t : Trace) (response : Val) :
  truthy apiKey = true -> truthy type = true -> truthy tmdbId = true ->
  ToString tmdbId = Normal id ->
  respond t (alternativeTitlesRequest apiKey type id) = Normal response ->
  let payload := or_else (get_opt response "data") (VObj []) in
  let listed :=
    if Array_isArray (get_opt payload "results") then elements (get_opt payload "results")
    else elements (get_opt payload "titles") in
  let entries := filter keepsAlternative (map alternativeRecord listed) in
  fetchTmdbAlternativeTitles apiKey type tmdbId t =
    (if nullish response
     then (Normal (VArr []),
           t ++ [HttpGet (alternativeTitlesRequest apiKey type id);
                 Warn "[TMDB] Alternative titles request failed"])
     else (Normal (VArr entries),
           t ++ [HttpGet (alternativeTitlesRequest apiKey type id)]))
  /\ Forall (fun entry => truthy (get_opt entry "iso_3166_1") = true
                          /\ truthy (get_opt entry "title") = true) entries.
Proof.
  intros Ha Hty Htm Hid Hr payload listed entries. split.
  - unfold fetchTmdbAlternativeTitles, falsy.
    rewrite Ha, Hty, Htm. cbn [negb orb]. unfold bindIO at 1, lift at 1. rewrite Hid.
    unfold try_catch, bindIO at 1, axios_get.
    change {| url := titleUrl type id "/alternative_titles";
              params := [("api_key", apiKey)];
              timeout := 5000 |}
      with (alternativeTitlesRequest apiKey type id).
    rewrite Hr. unfold bindIO at 1, lift at 1.
    destruct (nullish response) eqn:Hnull.
    + rewrite (get_absent _ _ Hnull).
      unfold emptyOrWarn, bindIO, lift, console_warn, ret. cbn.
      now rewrite <- app_assoc.
    + rewrite (get_present _ _ Hnull). fold payload.
      assert (Hp : nullish payload = false).
      { unfold payload, or_else.
        destruct (truthy (get_opt response "data")) eqn:Hd; [| reflexivity].
        now destruct (get_opt response "data"). }
      unfold bindIO, lift. rewrite !(get_present _ _ Hp). unfold ret.
      unfold entries, listed.
      destruct (Array_isArray (get_opt payload "results")); [reflexivity |].
      destruct (get_opt payload "titles"); reflexivity.
  - apply Forall_forall. intros entry Hin. apply filter_In in Hin as [_ Hkeep].
    unfold keepsAlternative in Hkeep. now apply andb_true_iff in Hkeep.
Qed.

(** *** The order of the requests *)

Lemma fetchTmdbMetadata_requests (apiKey type tmdbId language : Val) (id : string) :
  truthy apiKey = true -> truthy type = true -> truthy tmdbId = true ->
  ToString tmdbId = Normal id ->
  issues (fetchTmdbMetadata apiKey type tmdbId language)
    [metadataRequest apiKey type id language].
Proof.
  intros Ha Hty Htm Hid. unfold fetchTmdbMetadata, falsy.
  rewrite Ha, Hty, Htm. cbn [negb orb].
  intros t r t'. unfold bindIO at 1, lift at 1. rewrite Hid.
  apply fetchTmdbMetadata_issues.
Qed.

(** X20.  [loadTmdbLocalization] requests the metadata first and, only when
    metadata came, the translations and then the alternative titles.
    Without metadata it returns [null], or throws, after that one request;
    what it returns after the three requests is the record of the six
    properties. *)
Theorem loadTmdbLocalization_requests (apiKey type tmdbId : Val) (id : string)
  (t t' : Trace) (r : Completion Val) :
  truthy apiKey = true -> truthy type = true -> truthy tmdbId = true ->
  ToString tmdbId = Normal id ->
  loadTmdbLocalization apiKey type tmdbId t = (r, t') ->
  (requests t' = requests t ++ [metadataRequest apiKey type id VUndefined]
   /\ (r = Normal VNull \/ exists e, r = Throw e))
  \/ (requests t' =
      requests t ++ [metadataRequest apiKey type id VUndefined;
                     translationsRequest apiKey type id;
                     alternativeTitlesRequest apiKey type id]
      /\ ((exists e, r = Throw e)
          \/ exists fields,
               r = Normal (VObj fields)
               /\ map fst fields =
                  ["originalLanguage"; "defaultTitle"; "releaseDate"; "originalTitle";
                   "originCountries"; "localizedTitles"])).
Proof.
  intros Ha Hty Htm Hid. unfold loadTmdbLocalization, bindIO at 1.
  destruct (fetchTmdbMetadata apiKey type tmdbId VUndefined t) as [[metadata | e] tm]
    eqn:Hm.
  2: { intros [= <- <-]. left.
       split; [exact (fetchTmdbMetadata_requests _ _ _ _ _ Ha Hty Htm Hid _ _ _ Hm) |].
       right. now exists e. }
  pose proof (fetchTmdbMetadata_requests _ _ _ _ _ Ha Hty Htm Hid _ _ _ Hm) as Hreq1.
  unfold falsy. destruct (truthy metadata) eqn:Hmd; cbn [negb].
  2: { intros [= <- <-]. left. split; [exact Hreq1 | now left]. }
  unfold bindIO at 1.
  destruct (fetchTmdbTranslations_run apiKey type tmdbId id tm Ha Hty Htm Hid)
    as [translations [Htr _]].
  assert (Htr' : exists t2,
    fetchTmdbTranslations apiKey type tmdbId tm = (Normal (VArr translations), t2)
    /\ requests t2 = requests tm ++ [translationsRequest apiKey type id]).
  { destruct Htr as [Htr | [-> Htr]]; rewrite Htr; eexists; (split; [reflexivity |]);
      rewrite requests_app; reflexivity. }
  destruct Htr' as [t2 [-> Hreq2]].
  unfold bindIO at 1.
  destruct (fetchTmdbAlternativeTitles apiKey type tmdbId t2) as [[alts | e] t3] eqn:Halt.
  all: pose proof (fetchTmdbAlternativeTitles_issues _ _ _ _ Ha Hty Htm Hid _ _ _ Halt)
         as Hreq3.
  all: assert (Hall : requests t3 =
         requests t ++ [metadataRequest apiKey type id VUndefined;
                        translationsRequest apiKey type id;
                        alternativeTitlesRequest apiKey type id])
         by (rewrite Hreq3, Hreq2, Hreq1, <- !app_assoc; reflexivity).
  2: { intros [= <- <-]. right. split; [exact Hall |]. left. now exists e. }
  assert (Hn : nullish metadata = false) by now destruct metadata.
  unfold bindIO, lift. rewrite !(get_present _ _ Hn).
  destruct (buildLocalizedTitles _ _ _) as [localized | e].
  2: { intros [= <- <-]. right. split; [exact Hall |]. left. now exists e. }
  destruct (call_toLowerCase _) as [lowered | e].
  2: { intros [= <- <-]. right. split; [exact Hall |]. left. now exists e. }
  unfold ret. intros [= <- <-]. right. split; [exact Hall |]. right.
  eexists. split; reflexivity.
Qed.

(** *** What a resolution looks like *)


Lemma yields_ret {A} (a : A) (P : A -> Prop) : P a -> yields (ret a) P.
Proof. intros Ha t a' t' [= <- <-]. exact Ha. Qed.

Lemma yields_lift {A} (c : Completion A) (P : A -> Prop) :
  (forall a, c = Normal a -> P a) -> yields (lift c) P.
Proof. intros Hc t a t' [= H <-]. now apply Hc. Qed.

Lemma yields_bind {A B} (m : IO A) (k : A -> IO B) (Q : A -> Prop) (P : B -> Prop) :
  yields m Q -> (forall a, Q a -> yields (k a) P) -> yields (bindIO m k) P.
Proof.
  intros Hm Hk t b t'. unfold bindIO.
  destruct (m t) as [[a | e] t1] eqn:Hmt; [| discriminate].
  apply Hk. now apply Hm in Hmt.
Qed.

Lemma yields_any {A} (m : IO A) : yields m (fun _ => True).
Proof. now intros t a t' _. Qed.

Lemma yields_try_catch {A} (body : IO A) (handler : Val -> IO A) (P : A -> Prop) :
  yields body P -> (forall e, yields (handler e) P) -> yields (try_catch body handler) P.
Proof.
  intros Hb Hh t a t'. unfold try_catch.
  destruct (body t) as [[a' | e] t1] eqn:Hbt.
  - intros [= <- <-]. now apply Hb in Hbt.
  - apply Hh.
Qed.

Lemma yields_if {A} (b : bool) (m1 m2 : IO A) (P : A -> Prop) :
  yields m1 P -> yields m2 P -> yields (if b then m1 else m2) P.
Proof. now destruct b. Qed.

Lemma missOrWarn_null (message : string) (error : Val) :
  yields (missOrWarn message error) (fun v => v = VNull).
Proof.
  unfold missOrWarn. apply yields_bind with (Q := fun _ => True); [apply yields_any |].
  intros quiet _. apply yields_if; [now apply yields_ret |].
  apply yields_bind with (Q := fun _ => True); [apply yields_any |].
  intros _ _. now apply yields_ret.
Qed.

Lemma firstWithId_found (candidateLists : list Val) (v : Val) :
  firstWithId candidateLists = Normal v -> v = VNull \/ foundBy "mediaType" v.
Proof.
  induction candidateLists as [| list rest IH]; cbn [firstWithId].
  - intros [= <-]. now left.
  - destruct (elements list) as [| first others]; [exact IH |].
    destruct (falsy first); [exact IH |].
    destruct (get first "id") as [id | e]; cbn [bind]; [| discriminate].
    destruct (falsy id); [exact IH |].
    destruct (ToString id) as [tmdbId | e]; cbn [bind]; [| discriminate].
    destruct (displayTitle first) as [title | e]; cbn [bind]; [| discriminate].
    destruct (displayDate first) as [releaseDate | e]; cbn [bind]; [| discriminate].
    destruct (get first "media_type") as [media | e]; cbn [bind]; [| discriminate].
    intros [= <-]. right. unfold foundBy. eauto.
Qed.

Lemma findTmdbIdByImdb_found (apiKey imdbId type : Val) :
  yields (findTmdbIdByImdb apiKey imdbId type)
    (fun v => v = VNull \/ foundBy "mediaType" v).
Proof.
  unfold findTmdbIdByImdb. apply yields_if; [apply yields_ret; now left |].
  apply yields_bind with (Q := fun _ => True); [apply yields_any | intros id _].
  apply yields_bind with (Q := fun _ => True); [apply yields_any | intros encoded _].
  apply yields_try_catch.
  - repeat (apply yields_bind with (Q := fun _ => True); [apply yields_any | intros ? _]).
    apply yields_lift. intros v. apply firstWithId_found.
  - intros error t v t' H. left. exact (missOrWarn_null _ _ _ _ _ H).
Qed.

Lemma searchTmdbByTitle_found (apiKey type title year language : Val) :
  yields (searchTmdbByTitle apiKey type title year language)
    (fun v => v = VNull \/ foundBy "language" v).
Proof.
  unfold searchTmdbByTitle. apply yields_if; [apply yields_ret; now left |].
  apply yields_try_catch.
  - repeat (apply yields_bind with (Q := fun _ => True); [apply yields_any | intros ? _]).
    apply yields_if; [apply yields_ret; now left |].
    repeat (apply yields_bind with (Q := fun _ => True); [apply yields_any | intros ? _]).
    apply yields_ret. right. unfold foundBy. eauto.
  - intros error t v t' H. left. exact (missOrWarn_null _ _ _ _ _ H).
Qed.

Lemma tagged_resolution (extra : string) (found : Val) (via : string) :
  foundBy extra found -> truthy (get_opt found "tmdbId") = true ->
  (extra = "mediaType" /\ via = "imdb")
  \/ (extra = "language"
      /\ (via = "title" \/ exists language, via = String.append "title:" language)) ->
  resolution (tagged found (VStr via)).
Proof.
  intros [id [title [releaseDate [more ->]]]] Hid Hvia.
  exists id, title, releaseDate, (extra, more), via.
  split; [| split; [| exact Hvia]].
  - destruct Hvia as [[-> _] | [-> _]]; reflexivity.
  - intros ->. discriminate Hid.
Qed.

Lemma searchEach_resolution (apiKey type title year : Val) (candidates : list Val) :
  yields (searchEach apiKey type title year candidates)
    (fun v => v = VNull \/ resolution v).
Proof.
  induction candidates as [| c rest IH]; cbn [searchEach].
  - apply yields_ret. now left.
  - apply yields_bind with (Q := fun v => v = VNull \/ foundBy "language" v);
      [apply searchTmdbByTitle_found |].
    intros found Hfound.
    destruct (truthy (get_opt found "tmdbId")) eqn:Hid; [| exact IH].
    destruct Hfound as [-> | Hfound]; [discriminate |].
    destruct (truthy c).
    + apply yields_bind with
        (Q := fun via => exists language, via = VStr (String.append "title:" language)).
      * apply yields_lift. intros via.
        destruct (ToString c) as [s | e]; cbn [bind]; [| discriminate].
        intros [= <-]. now exists s.
      * intros via [language ->]. apply yields_ret. right.
        apply (tagged_resolution "language"); auto.
        right. split; [reflexivity |]. right. now exists language.
    + apply yields_bind with (Q := fun via => via = VStr "title").
      * apply yields_lift. now intros via [= <-].
      * intros via ->. apply yields_ret. right.
        apply (tagged_resolution "language"); auto.
Qed.

Lemma resolveTmdbId_yields (apiKey type imdbId title year languageCandidates : Val) :
  yields (resolveTmdbId apiKey type imdbId title year languageCandidates)
    (fun v => v = VNull \/ resolution v).
Proof.
  unfold resolveTmdbId.
  assert (Htitle : forall nt cs,
    yields (resolveByTitle apiKey nt title year cs) (fun v => v = VNull \/ resolution v)).
  { intros nt cs. unfold resolveByTitle.
    apply yields_if; [apply searchEach_resolution | apply yields_ret; now left]. }
  apply yields_if; [apply yields_ret; now left |].
  apply yields_if; [| apply Htitle].
  apply yields_bind with (Q := fun v => v = VNull \/ foundBy "mediaType" v);
    [apply findTmdbIdByImdb_found |].
  intros found Hfound.
  destruct (truthy (get_opt found "tmdbId")) eqn:Hid; [| apply Htitle].
  destruct Hfound as [-> | Hfound]; [discriminate |].
  apply yields_ret. right. apply (tagged_resolution "mediaType"); auto.
Qed.

(** X21.  What [resolveTmdbId] returns is [null] or a match whose [tmdbId]
    is a string that is not empty, tagged with the way it was found:
    ['imdb'] for a match of the lookup, ['title'] or ['title:<language>']
    for a match of the search. *)
Theorem resolveTmdbId_resolution
  (apiKey type imdbId title year languageCandidates : Val) (t t' : Trace) (v : Val) :
  resolveTmdbId apiKey type imdbId title year languageCandidates t = (Normal v, t') ->
  v = VNull \/ resolution v.
Proof. apply resolveTmdbId_yields. Qed.

(** *** The entries of the localized titles *)


Lemma lookup_In {A} (k : string) (v : A) (fs : list (string * A)) :
  lookup k fs = Some v -> In (k, v) fs.
Proof.
  induction fs as [| [k' v'] fs IH]; simpl; [discriminate |].
  destruct (String.eqb_spec k' k) as [-> | Hne].
  - intros [= ->]. now left.
  - intros H. right. now apply IH.
Qed.

Lemma set_Forall {A} (P : string * A -> Prop) (k : string) (v : A)
  (fs : list (string * A)) :
  (forall k', P (k', v)) -> Forall P fs -> Forall P (set k v fs).
Proof.
  intros Hv. induction 1 as [| [k' v'] fs Hx Hfs IH]; simpl.
  - constructor; [apply Hv | constructor].
  - destruct (k' =? k); constructor; auto.
Qed.

Lemma allCandidates_lookup (Q : Val -> Prop) (candidateMap : CandidateMap)
  (token : string) :
  allCandidates Q candidateMap -> Forall Q (candidatesOf token candidateMap).
Proof.
  intros Hall. unfold candidatesOf.
  destruct (lookup token candidateMap) as [cs |] eqn:Hcs; [| constructor].
  unfold allCandidates in Hall. rewrite Forall_forall in Hall.
  exact (Hall _ (lookup_In _ _ _ Hcs)).
Qed.

Lemma pushCandidate_all (Q : Val -> Prop) (candidate : Val) (candidateMap : CandidateMap)
  (token : string) :
  Q candidate ->
  allCandidates Q candidateMap /\ lookup "" candidateMap = None ->
  allCandidates Q (pushCandidate candidate candidateMap token)
  /\ lookup "" (pushCandidate candidate candidateMap token) = None.
Proof.
  intros Hc [Hall Hempty]. unfold pushCandidate.
  destruct (String.eqb_spec token "") as [-> | Hne]; [now split |].
  set (cm := if has token candidateMap then candidateMap else set token [] candidateMap).
  assert (Hcm : allCandidates Q cm /\ lookup "" cm = None).
  { unfold cm. destruct (has token candidateMap); [now split |]. split.
    - apply set_Forall; [intros k'; constructor | exact Hall].
    - rewrite lookup_set_other by (intros H; now apply Hne). exact Hempty. }
  destruct Hcm as [Hall' Hempty']. split.
  - apply set_Forall; [| exact Hall']. intros k'. cbn [snd]. apply Forall_app.
    split; [now apply allCandidates_lookup | now repeat constructor].
  - rewrite lookup_set_other by (intros H; now apply Hne). exact Hempty'.
Qed.

Lemma pushCandidates_all (Q : Val -> Prop) (candidate : Val) (tokens : list string) :
  Q candidate ->
  forall candidateMap,
    allCandidates Q candidateMap /\ lookup "" candidateMap = None ->
    allCandidates Q (fold_left (pushCandidate candidate) tokens candidateMap)
    /\ lookup "" (fold_left (pushCandidate candidate) tokens candidateMap) = None.
Proof.
  intros Hc. induction tokens as [| t tokens IH]; intros cm Hcm; simpl; [exact Hcm |].
  apply IH. now apply pushCandidate_all.
Qed.

Lemma translationStep_registered (candidateMap candidateMap' : CandidateMap)
  (entry : Val) :
  allCandidates registered candidateMap /\ lookup "" candidateMap = None ->
  translationStep candidateMap entry = Normal candidateMap' ->
  allCandidates registered candidateMap' /\ lookup "" candidateMap' = None.
Proof.
  intros Hinv. unfold translationStep.
  destruct (falsy entry); [now intros [= <-] |].
  destruct (get entry "iso_639_1") as [iso_639_1 |]; cbn [bind]; [| discriminate].
  destruct (falsy iso_639_1); [now intros [= <-] |].
  destruct (get entry "data") as [data |]; cbn [bind]; [| discriminate].
  destruct (get (or_else data (VObj [])) "title") as [payloadTitle |]; cbn [bind];
    [| discriminate].
  destruct (get (or_else data (VObj [])) "name") as [payloadName |]; cbn [bind];
    [| discriminate].
  destruct (falsy (or_else payloadTitle payloadName)) eqn:Htitle; [now intros [= <-] |].
  destruct (get entry "iso_3166_1") as [iso_3166_1 |]; cbn [bind]; [| discriminate].
  destruct (get (or_else data (VObj [])) "overview") as [overview |]; cbn [bind];
    [| discriminate].
  destruct (get (or_else data (VObj [])) "tagline") as [tagline |]; cbn [bind];
    [| discriminate].
  destruct (opt_toLowerCase iso_639_1) as [iso639 |]; cbn [bind]; [| discriminate].
  destruct (opt_toLowerCase iso_3166_1) as [iso3166 |]; cbn [bind]; [| discriminate].
  destruct (get entry "name") as [name |]; cbn [bind]; [| discriminate].
  destruct (get entry "english_name") as [english_name |]; cbn [bind]; [| discriminate].
  unfold registerCandidate.
  cbn [falsy truthy negb get field lookup String.eqb Ascii.eqb Bool.eqb bind candidateOf].
  rewrite Htitle. cbn [bind].
  intros [= <-]. apply pushCandidates_all; [| exact Hinv].
  unfold registered. do 7 eexists. split; [reflexivity |].
  split; [| left; split; reflexivity].
  unfold falsy in Htitle. now apply negb_false_iff in Htitle.
Qed.

Lemma alternativeStep_registered (options : Val)
  (candidateMap candidateMap' : CandidateMap) (entry : Val) :
  allCandidates registered candidateMap /\ lookup "" candidateMap = None ->
  alternativeStep options candidateMap entry = Normal candidateMap' ->
  allCandidates registered candidateMap' /\ lookup "" candidateMap' = None.
Proof.
  intros Hinv. unfold alternativeStep.
  destruct (falsy entry); [now intros [= <-] |].
  destruct (get entry "title") as [entryTitle |]; cbn [bind]; [| discriminate].
  destruct (falsy entryTitle) eqn:Htitle; [now intros [= <-] |].
  destruct (get entry "iso_639_1") as [iso_639_1 |]; cbn [bind]; [| discriminate].
  destruct (get entry "iso_3166_1") as [iso_3166_1 |]; cbn [bind]; [| discriminate].
  destruct (get options "originalLanguage") as [fallback |]; cbn [bind]; [| discriminate].
  destruct (List.length _ =? 0)%nat; [now intros [= <-] |].
  destruct (get entry "type") as [type |]; cbn [bind]; [| discriminate].
  destruct (opt_toLowerCase iso_639_1) as [iso639 |]; cbn [bind]; [| discriminate].
  destruct (opt_toLowerCase iso_3166_1) as [iso3166 |]; cbn [bind]; [| discriminate].
  unfold registerCandidate.
  cbn [falsy truthy negb get field lookup String.eqb Ascii.eqb Bool.eqb bind candidateOf].
  rewrite Htitle. cbn [bind].
  intros [= <-]. apply pushCandidates_all; [| exact Hinv].
  unfold registered. do 7 eexists. split; [reflexivity |].
  split; [| right; repeat split].
  unfold falsy in Htitle. now apply negb_false_iff in Htitle.
Qed.

Lemma collectCandidates_registered (translations alternativeTitles options : Val)
  (candidateMap : CandidateMap) :
  collectCandidates translations alternativeTitles options = Normal candidateMap ->
  allCandidates registered candidateMap /\ lookup "" candidateMap = None.
Proof.
  unfold collectCandidates.
  destruct (forEach_values translations) as [entries | e]; cbn [bind]; [| discriminate].
  destruct (foldM translationStep [] entries) as [cm1 | e] eqn:H1; cbn [bind];
    [| discriminate].
  destruct (forEach_values alternativeTitles) as [alts | e]; cbn [bind];
    [| discriminate].
  intros H2.
  apply (foldM_invariant (alternativeStep options)
           (fun cm => allCandidates registered cm /\ lookup "" cm = None)
           (fun s x s' => alternativeStep_registered options s s' x)
           alts cm1 candidateMap); [| exact H2].
  apply (foldM_invariant translationStep
           (fun cm => allCandidates registered cm /\ lookup "" cm = None)
           (fun s x s' => translationStep_registered s s' x) entries [] cm1);
    [| exact H1].
  split; [constructor | reflexivity].
Qed.

Lemma localizedEntry_registered (best entry : Val) :
  registered best -> localizedEntry best = Normal entry -> localizedTitle entry.
Proof.
  intros [title [overview [tagline [source [normalized [glyphs [meta [-> [Ht Hs]]]]]]]]].
  unfold localizedEntry.
  cbn [get field lookup String.eqb Ascii.eqb Bool.eqb bind].
  intros [= <-]. exists title, overview, tagline, source. eexists.
  split; [reflexivity |]. split; [exact Ht |].
  destruct Hs as [[-> Htype] | Halt]; [left | now right].
  split; [reflexivity |]. now rewrite Htype.
Qed.

(** X22.  Every entry of the object [buildLocalizedTitles] returns stands
    under a token that is not empty and is a record of [title],
    [overview], [tagline], [source] and [type] with a title that is
    present: a translation, whose type is [null], or an alternative title,
    whose overview and tagline are [null]. *)
Theorem buildLocalizedTitles_entries (translations alternativeTitles options : Val)
  (localized : list (string * Val)) (token : string) (entry : Val) :
  buildLocalizedTitles translations alternativeTitles options = Normal (VObj localized) ->
  lookup token localized = Some entry ->
  token <> "" /\ token <> "__proto__" /\ localizedTitle entry.
Proof.
  unfold buildLocalizedTitles. cbv zeta.
  destruct (emptyOrNoArray _ && emptyOrNoArray _).
  { intros [= <-]. discriminate. }
  destruct (scoringOptions _) as [scoring | e]; cbn [bind]; [| discriminate].
  destruct (collectCandidates _ _ _) as [cm | e] eqn:Hcm; cbn [bind]; [| discriminate].
  destruct (foldM (chooseStep scoring) [] cm) as [loc | e] eqn:Hfold; cbn [bind];
    [| discriminate].
  intros [= <-] Hentry.
  destruct (collectCandidates_registered _ _ _ _ Hcm) as [Hreg Hempty].
  destruct (chooseStep_fold scoring cm (collectCandidates_wellFormed _ _ _ _ Hcm)
              [] loc) as [_ Hall]; auto.
  { constructor. }
  specialize (Hall token). rewrite Hentry in Hall.
  destruct (lookup token cm) as [cs |] eqn:Hcs; [| discriminate].
  destruct (String.eqb_spec token "__proto__") as [-> | Hproto]; [discriminate |].
  destruct Hall as [entry' [[= <-] [before [best [after [score [-> [Hloc _]]]]]]]].
  split; [| split; [exact Hproto |]].
  - intros ->. congruence.
  - apply (localizedEntry_registered best); [| exact Hloc].
    pose proof (allCandidates_lookup _ _ token Hreg) as Hcands.
    unfold candidatesOf in Hcands. rewrite Hcs in Hcands.
    rewrite Forall_forall in Hcands.
    apply Hcands. apply in_or_app. right. now left.
Qed.

(** *** Well-shaped entries *)


Lemma ToString_primitive (v : Val) : primitive v = true -> exists s, ToString v = Normal s.
Proof. destruct v; simpl; try discriminate; eauto. Qed.

Lemma typeSignal_returns (words : list string) (candidate : Val) :
  primitive (typeOf candidate) = true -> exists b, typeSignal words candidate = Normal b.
Proof.
  intros Hp. unfold typeSignal. destruct (truthy (typeOf candidate)); [| now eexists].
  unfold regex_test. destruct (ToString_primitive _ Hp) as [s ->]. cbn [bind].
  now eexists.
Qed.

Lemma scoreLocalizedCandidate_returns (candidate scoring : Val) :
  scorable candidate -> nullish scoring = false ->
  Array_isArray (get_opt scoring "originCountries") = true ->
  exists score, scoreLocalizedCandidate candidate scoring = Normal score.
Proof.
  intros [Hc [Htype Hcountry]] Hs Harr. rewrite scoreLocalizedCandidate_total.
  unfold signalsOf. rewrite (get_present _ _ Hs), (get_present _ _ Hc). cbn [bind].
  destruct (typeSignal_returns ["official"; "literal"; "original"] _ Htype) as [b1 ->].
  destruct (typeSignal_returns ["festival"; "working"; "dvd"; "tv"] _ Htype) as [b2 ->].
  cbn [bind].
  assert (Hcs : exists b, countrySignal candidate scoring = Normal b).
  { unfold countrySignal. cbv zeta in Hcountry.
    destruct (get_opt (get_opt candidate "meta") "iso3166") as [| | ? | ? | s | ? | ? | ? | ?];
      unfold falsy in Hcountry;
      try (destruct (truthy _); [discriminate Hcountry | now eexists]).
    destruct (truthy (VStr s)); [| now eexists].
    cbn [call_toUpperCase bind].
    destruct (get_opt scoring "originCountries"); try discriminate.
    cbn [nullish call_includes]. now eexists. }
  destruct Hcs as [b3 ->]. cbn [bind]. now eexists.
Qed.

Lemma scoreAll_returns (scoring : Val) (candidates : list Val) :
  Forall scorable candidates -> nullish scoring = false ->
  Array_isArray (get_opt scoring "originCountries") = true ->
  exists scored, scoreAll scoring candidates = Normal scored.
Proof.
  intros Hall Hs Harr. unfold scoreAll.
  induction Hall as [| c cs Hc _ [scored IH]]; cbn [mapM]; [now eexists |].
  destruct (scoreLocalizedCandidate_returns _ _ Hc Hs Harr) as [score ->].
  cbn [bind]. rewrite IH. cbn [bind]. now eexists.
Qed.

Lemma chooseStep_returns (scoring : Val) (localized : list (string * Val))
  (token : string) (candidates : list Val) :
  Forall scorable candidates -> nullish scoring = false ->
  Array_isArray (get_opt scoring "originCountries") = true ->
  exists localized', chooseStep scoring localized (token, candidates) = Normal localized'.
Proof.
  intros Hall Hs Harr. unfold chooseStep.
  destruct (scoreAll_returns _ _ Hall Hs Harr) as [scored0 Hscored]. rewrite Hscored.
  cbn [bind]. destruct (scoreAll_scores _ _ _ Hscored) as [Hmap _].
  destruct (sort_list_byScore scored0) as [scored [-> Hhd]]. cbn [bind].
  destruct scored as [| [best score] rest]; [now eexists |].
  destruct (truthy best) eqn:Ht; [| now eexists].
  destruct (localizedEntry_returns best Ht) as [entry ->]. cbn [bind]. now eexists.
Qed.

Lemma foldM_returns {A S} (f : S -> A -> Completion S) (I : S -> Prop) (P : A -> Prop) :
  (forall s x, I s -> P x -> exists s', f s x = Normal s' /\ I s') ->
  forall l s, Forall P l -> I s -> exists s', foldM f s l = Normal s' /\ I s'.
Proof.
  intros Hstep. induction l as [| x l IH]; intros s HP Hs; cbn [foldM].
  - now exists s.
  - inversion HP as [| ? ? Hx HPl]; subst.
    destruct (Hstep s x Hs Hx) as [s1 [-> Hs1]]. cbn [bind]. now apply IH.
Qed.

Lemma optionalString_lowered (v : Val) :
  optionalString v = true ->
  exists lowered,
    opt_toLowerCase v = Normal lowered
    /\ (falsy (or_else lowered VNull) || typeof_string (or_else lowered VNull) = true).
Proof.
  unfold optionalString, opt_toLowerCase.
  destruct v; simpl; try discriminate; intros _.
  - now exists VUndefined.
  - now exists VUndefined.
  - eexists. split; [reflexivity |]. unfold or_else, falsy.
    destruct (truthy (VStr (toLowerCase s))) eqn:Hl; [| reflexivity].
    rewrite Hl. reflexivity.
Qed.

Lemma translationStep_returns (candidateMap : CandidateMap) (entry : Val) :
  allCandidates scorable candidateMap /\ lookup "" candidateMap = None ->
  wellShapedTranslation entry = true ->
  exists candidateMap',
    translationStep candidateMap entry = Normal candidateMap'
    /\ (allCandidates scorable candidateMap' /\ lookup "" candidateMap' = None).
Proof.
  intros Hinv Hshape. unfold translationStep, wellShapedTranslation in *.
  destruct (falsy entry) eqn:He; [now exists candidateMap |].
  cbn [orb] in Hshape. apply andb_true_iff in Hshape as [H639 H3166].
  assert (Hn : nullish entry = false).
  { unfold falsy in He. destruct entry; try discriminate; reflexivity. }
  rewrite !(get_present _ _ Hn). cbn [bind].
  destruct (falsy (get_opt entry "iso_639_1")); [now exists candidateMap |].
  assert (Hp : nullish (or_else (get_opt entry "data") (VObj [])) = false).
  { unfold or_else. destruct (truthy (get_opt entry "data")) eqn:Hd; [| reflexivity].
    now destruct (get_opt entry "data"). }
  rewrite !(get_present _ _ Hp). cbn [bind].
  set (payload := or_else (get_opt entry "data") (VObj [])) in *.
  destruct (falsy (or_else (get_opt payload "title") (get_opt payload "name"))) eqn:Ht;
    [now exists candidateMap |].
  destruct (optionalString_lowered _ H639) as [iso639 [-> _]].
  destruct (optionalString_lowered _ H3166) as [iso3166 [-> Hcountry]].
  cbn [bind]. unfold registerCandidate.
  cbn [falsy truthy negb get field lookup String.eqb Ascii.eqb Bool.eqb bind candidateOf].
  rewrite Ht. cbn [bind]. eexists. split; [reflexivity |].
  apply pushCandidates_all; [| exact Hinv].
  split; [reflexivity |]. split; [reflexivity |]. exact Hcountry.
Qed.

Lemma alternativeStep_returns (options : Val) (candidateMap : CandidateMap) (entry : Val) :
  nullish options = false ->
  allCandidates scorable candidateMap /\ lookup "" candidateMap = None ->
  wellShapedAlternative entry = true ->
  exists candidateMap',
    alternativeStep options candidateMap entry = Normal candidateMap'
    /\ (allCandidates scorable candidateMap' /\ lookup "" candidateMap' = None).
Proof.
  intros Ho Hinv Hshape. unfold alternativeStep, wellShapedAlternative in *.
  destruct (falsy entry) eqn:He; [now exists candidateMap |].
  cbn [orb] in Hshape. apply andb_true_iff in Hshape as [Hshape Htype].
  apply andb_true_iff in Hshape as [H639 H3166].
  assert (Hn : nullish entry = false).
  { unfold falsy in He. destruct entry; try discriminate; reflexivity. }
  rewrite !(get_present _ _ Hn), (get_present _ _ Ho). cbn [bind].
  destruct (falsy (get_opt entry "title")) eqn:Ht; [now exists candidateMap |].
  cbn [bind].
  destruct (List.length _ =? 0)%nat; [now exists candidateMap |].
  destruct (optionalString_lowered _ H639) as [iso639 [-> _]].
  destruct (optionalString_lowered _ H3166) as [iso3166 [-> Hcountry]].
  cbn [bind]. unfold registerCandidate.
  cbn [falsy truthy negb get field lookup String.eqb Ascii.eqb Bool.eqb bind candidateOf].
  rewrite Ht. cbn [bind]. eexists. split; [reflexivity |].
  apply pushCandidates_all; [| exact Hinv].
  split; [reflexivity |]. split; [| exact Hcountry].
  unfold typeOf. cbn. unfold or_else.
  destruct (truthy (get_opt entry "type")); [exact Htype | reflexivity].
Qed.

(** X23.  [buildLocalizedTitles] returns an object for all arrays of
    well-shaped entries, whatever else the entries hold or lack: the
    language and the country of an entry are strings when present, the
    type of an alternative title is no array and no object, and [options]
    is not [null]. *)
Theorem buildLocalizedTitles_returns (translations alternativeTitles : list Val)
  (options : Val) :
  options <> VNull ->
  Forall (fun entry => wellShapedTranslation entry = true) translations ->
  Forall (fun entry => wellShapedAlternative entry = true) alternativeTitles ->
  exists localized,
    buildLocalizedTitles (VArr translations) (VArr alternativeTitles) options =
    Normal (VObj localized).
Proof.
  intros Ho Htr Halt. unfold buildLocalizedTitles. cbv zeta.
  destruct (emptyOrNoArray _ && emptyOrNoArray _); [now eexists |].
  cbn [withDefault is_undefined].
  set (opts := withDefault options (VObj [])).
  assert (Hopts : nullish opts = false).
  { unfold opts, withDefault. destruct options; try reflexivity. congruence. }
  unfold scoringOptions. rewrite !(get_present _ _ Hopts). cbn [bind].
  set (scoring := VObj _).
  unfold collectCandidates. cbn [forEach_values bind].
  destruct (foldM_returns translationStep
              (fun cm => allCandidates scorable cm /\ lookup "" cm = None)
              (fun entry => wellShapedTranslation entry = true)
              translationStep_returns translations [] Htr)
    as [cm1 [-> Hcm1]].
  { split; [constructor | reflexivity]. }
  cbn [bind].
  destruct (foldM_returns (alternativeStep opts)
              (fun cm => allCandidates scorable cm /\ lookup "" cm = None)
              (fun entry => wellShapedAlternative entry = true)
              (fun cm entry => alternativeStep_returns opts cm entry Hopts)
              alternativeTitles cm1 Halt Hcm1)
    as [cm [-> [Hcm _]]].
  cbn [bind].
  assert (Hchoose : forall loc, exists localized,
            foldM (chooseStep scoring) loc cm = Normal localized).
  { clear -Hcm. induction Hcm as [| [token cs] rest Hcs _ IH]; intros loc; cbn [foldM];
      [now eexists |].
    destruct (chooseStep_returns scoring loc token cs Hcs eq_refl eq_refl) as [loc1 ->].
    cbn [bind]. apply IH. }
  destruct (Hchoose []) as [localized ->]. cbn [bind]. now eexists.
Qed.

(** *** What a response gives *)

Lemma displayTitle_entry (entry : Val) :
  nullish entry = false -> displayTitle entry = Normal (titleOfEntry entry).
Proof.
  intros Hn. unfold displayTitle. now rewrite !(get_present _ _ Hn).
Qed.

Lemma displayDate_entry (entry : Val) :
  nullish entry = false -> displayDate entry = Normal (dateOfEntry entry).
Proof.
  intros Hn. unfold displayDate. now rewrite !(get_present _ _ Hn).
Qed.

Lemma hasId_present (entry : Val) : hasId entry = true -> nullish entry = false.
Proof.
  unfold hasId. intros H. apply andb_true_iff in H as [H _]. now destruct entry.
Qed.

Lemma findWithId_find (results : list Val) :
  findWithId results =
  Normal (match find hasId results with Some top => top | None => VUndefined end).
Proof.
  induction results as [| entry rest IH]; cbn [findWithId find]; [reflexivity |].
  unfold hasId at 1, falsy. destruct (truthy entry) eqn:Ht; cbn [negb andb];
    [| exact IH].
  rewrite (get_present _ _ (truthy_present _ Ht)). cbn [bind].
  destruct (truthy (get_opt entry "id")); [reflexivity | exact IH].
Qed.

Lemma searchParams_language (apiKey type title year language : Val) :
  or_else (field "language" (searchParams apiKey type title year language)) VNull
  = languageAsked language.
Proof.
  unfold searchParams, languageAsked.
  assert (Hne : forall l, truthy (VStr (normalizeLanguageTag l)) = true).
  { intros l. unfold normalizeLanguageTag. destruct l; try reflexivity.
    simpl. destruct (trim s =? "") eqn:E; [reflexivity |]. now rewrite E. }
  destruct (truthy language) eqn:Hl.
  - destruct (truthy year && Number_isFinite year);
      [destruct (strict_eq type (VStr "series")) |];
      cbn; unfold or_else; now rewrite Hne.
  - destruct (truthy year && Number_isFinite year);
      [destruct (strict_eq type (VStr "series")) |]; reflexivity.
Qed.

(** X24.  On a response, [searchTmdbByTitle] returns, after its one request
    and without warning, the match made of the first entry of
    [data.results] that is present and has an id, or [null] when
    [results] is no array or has no such entry.  The match reports the
    language tag that was asked for, ['en-US'] for a blank one, and
    [null] when none was. *)
Theorem searchTmdbByTitle_on_response (apiKey type title year language : Val)
  (t : Trace) (response : Val) :
  truthy apiKey = true -> truthy title = true ->
  respond t (searchRequest apiKey type title year language) = Normal response ->
  nullish response = false ->
  let found := get_opt (get_opt response "data") "results" in
  match find hasId (elements found) with
  | None =>
      searchTmdbByTitle apiKey type title year language t =
      (Normal VNull, t ++ [HttpGet (searchRequest apiKey type title year language)])
  | Some top =>
      forall tmdbId,
        ToString (get_opt top "id") = Normal tmdbId ->
        searchTmdbByTitle apiKey type title year language t =
        (Normal (VObj [("tmdbId", VStr tmdbId);
                       ("title", titleOfEntry top);
                       ("releaseDate", dateOfEntry top);
                       ("language", languageAsked language)]),
         t ++ [HttpGet (searchRequest apiKey type title year language)])
  end.
Proof.
  intros Ha Ht Hr Hn found.
  assert (Hrun : searchTmdbByTitle apiKey type title year language t =
    match find hasId (elements found) with
    | None => (Normal VNull, t ++ [HttpGet (searchRequest apiKey type title year language)])
    | Some top =>
        try_catch
          (id <~ lift (get top "id") ;;
           tmdbId <~ lift (ToString id) ;;
           title0 <~ lift (displayTitle top) ;;
           releaseDate <~ lift (displayDate top) ;;
           ret (VObj [("tmdbId", VStr tmdbId); ("title", title0);
                      ("releaseDate", releaseDate);
                      ("language",
                       or_else (field "language"
                                  (searchParams apiKey type title year language))
                         VNull)]))
          (missOrWarn "[TMDB] Title search failed")
          (t ++ [HttpGet (searchRequest apiKey type title year language)])
    end).
  { unfold searchTmdbByTitle, falsy. rewrite Ha, Ht. cbn [negb orb].
    unfold try_catch, bindIO at 1, axios_get.
    change {| url := searchUrl type;
              params := searchParams apiKey type title year language;
              timeout := 5000 |}
      with (searchRequest apiKey type title year language).
    rewrite Hr. unfold bindIO at 1, lift at 1. rewrite (get_present _ _ Hn).
    fold found.
    replace (if Array_isArray found then elements found else []) with (elements found)
      by (now destruct found).
    unfold bindIO at 1, lift at 1. rewrite findWithId_find.
    destruct (find hasId (elements found)) as [top |] eqn:Hfind; [| reflexivity].
    apply find_some in Hfind as [_ Hid]. unfold hasId in Hid.
    apply andb_true_iff in Hid as [Htop _]. unfold falsy. now rewrite Htop. }
  rewrite Hrun. destruct (find hasId (elements found)) as [top |] eqn:Hfind;
    [| reflexivity].
  intros tmdbId Hid. apply find_some in Hfind as [_ Htop].
  pose proof (hasId_present _ Htop) as Hpresent.
  unfold try_catch, bindIO, lift.
  rewrite (get_present _ _ Hpresent), Hid, (displayTitle_entry _ Hpresent),
          (displayDate_entry _ Hpresent), searchParams_language.
  reflexivity.
Qed.

Lemma firstWithId_firstHead (lists : list Val) :
  firstWithId lists =
  match firstHead lists with
  | None => Normal VNull
  | Some first =>
      tmdbId <- ToString (get_opt first "id") ;;
      Normal (VObj [("tmdbId", VStr tmdbId);
                    ("title", titleOfEntry first);
                    ("releaseDate", dateOfEntry first);
                    ("mediaType", or_else (get_opt first "media_type") VNull)])
  end.
Proof.
  induction lists as [| list rest IH]; cbn [firstWithId firstHead]; [reflexivity |].
  unfold headWithId. destruct (elements list) as [| first others]; [exact IH |].
  unfold hasId, falsy. destruct (truthy first) eqn:Ht; cbn [negb andb]; [| exact IH].
  pose proof (truthy_present _ Ht) as Hn.
  rewrite (get_present _ _ Hn). cbn [bind].
  destruct (truthy (get_opt first "id")); cbn [negb]; [| exact IH].
  destruct (ToString (get_opt first "id")) as [tmdbId | e]; cbn [bind]; [| reflexivity].
  now rewrite (displayTitle_entry _ Hn), (displayDate_entry _ Hn), (get_present _ _ Hn).
Qed.

Lemma firstHead_arrays (lists : list Val) :
  firstHead (filter Array_isArray lists) = firstHead lists.
Proof.
  induction lists as [| list rest IH]; simpl; [reflexivity |].
  destruct list; simpl; try exact IH. now rewrite IH.
Qed.

(** X25.  On a response, [findTmdbIdByImdb] goes through the movie, TV,
    episode and season results in that order and looks at the first
    element of each list only: it returns, after its one request and
    without warning, the match made of the first of these first elements
    that is present and has an id, or [null] when there is none. *)
Theorem findTmdbIdByImdb_on_response (apiKey imdbId type : Val) (id encoded : string)
  (t : Trace) (response : Val) :
  truthy apiKey = true -> truthy imdbId = true ->
  ToString imdbId = Normal id -> encodeURIComponent id = Normal encoded ->
  respond t (findRequest apiKey encoded) = Normal response ->
  nullish response = false ->
  let payload := or_else (get_opt response "data") (VObj []) in
  match firstHead (lookupLists payload) with
  | None =>
      findTmdbIdByImdb apiKey imdbId type t =
      (Normal VNull, t ++ [HttpGet (findRequest apiKey encoded)])
  | Some first =>
      forall tmdbId,
        ToString (get_opt first "id") = Normal tmdbId ->
        findTmdbIdByImdb apiKey imdbId type t =
        (Normal (VObj [("tmdbId", VStr tmdbId);
                       ("title", titleOfEntry first);
                       ("releaseDate", dateOfEntry first);
                       ("mediaType", or_else (get_opt first "media_type") VNull)]),
         t ++ [HttpGet (findRequest apiKey encoded)])
  end.
Proof.
  intros Ha Hi Hid Henc Hr Hn payload.
  assert (Hp : nullish payload = false).
  { unfold payload, or_else.
    destruct (truthy (get_opt response "data")) eqn:Hd; [| reflexivity].
    now apply truthy_present. }
  assert (Hrun : findTmdbIdByImdb apiKey imdbId type t =
    try_catch (lift (firstWithId (filter Array_isArray (lookupLists payload))))
      (missOrWarn "[TMDB] IMDb lookup failed")
      (t ++ [HttpGet (findRequest apiKey encoded)])).
  { unfold findTmdbIdByImdb, falsy. rewrite Ha, Hi. cbn [negb orb].
    unfold bindIO at 1, lift at 1. rewrite Hid.
    unfold bindIO at 1, lift at 1. rewrite Henc.
    unfold try_catch, bindIO at 1, axios_get.
    change {| url := String.append TMDB_BASE_URL (String.append "/find/" encoded);
              params := [("api_key", apiKey); ("external_source", VStr "imdb_id")];
              timeout := 5000 |}
      with (findRequest apiKey encoded).
    rewrite Hr. unfold bindIO at 1, lift at 1. rewrite (get_present _ _ Hn).
    fold payload. unfold bindIO, lift. now rewrite !(get_present _ _ Hp). }
  rewrite Hrun, firstWithId_firstHead, firstHead_arrays.
  destruct (firstHead (lookupLists payload)) as [first |]; [| reflexivity].
  intros tmdbId Htmdb. unfold try_catch, lift. now rewrite Htmdb.
Qed.

End Localization.

End Facts.


(** Without a match of the lookup the search runs through the languages. *)
Example resolveTmdbId_falls_back :
  searchRequests
    (snd (resolveTmdbId (VStr "key") (VStr "series") (VStr "tt0000000") (VStr "Dark")
            (num 2017) (VArr [VStr "de-DE"; VStr "en-US"]) []))
  = [searchRequest (VStr "key") (VStr "series") (VStr "Dark") (num 2017) (VStr "de-DE");
     searchRequest (VStr "key") (VStr "series") (VStr "Dark") (num 2017) (VStr "en-US")].
Proof. reflexivity. Qed.

(** The examples of the specification. *)
Example deriveLocaleTokens_language_region :
  deriveLocaleTokens (VStr "fr") (VStr "ca") VUndefined = ["fr-ca"; "fr"; "ca"].
Proof. reflexivity. Qed.

Example deriveLocaleTokens_fallback :
  deriveLocaleTokens VUndefined (VStr "de") (VStr "en") = ["en-de"; "de"].
Proof. reflexivity. Qed.

Example normalizeTitleValue_strips :
  normalizeTitleValue (VStr "Le Fabuleux Destin d'Amelie Poulain (2001)")
  = "lefabuleuxdestindameliepoulain2001".
Proof. reflexivity. Qed.

Lemma translation_outscores_dvd_witness :
  let translation :=
    VObj [("title", VStr (String.append "Am" (String.append eacute "lie")));
          ("overview", VNull); ("tagline", VNull); ("source", VStr "translation");
          ("normalizedTitle", VStr "amlie"); ("containsNonAscii", VBool true);
          ("meta", VObj [("iso639", VStr "fr"); ("iso3166", VStr "fr");
                         ("name", VNull); ("englishName", VNull)])] in
  let alternative :=
    VObj [("title", VStr "Amelie from Montmartre");
          ("overview", VNull); ("tagline", VNull); ("source", VStr "alternative");
          ("normalizedTitle", VStr "ameliefrommontmartre");
          ("containsNonAscii", VBool false);
          ("meta", VObj [("type", VStr "dvd"); ("iso639", VNull);
                         ("iso3166", VStr "us")])] in
  let options :=
    VObj [("defaultNormalized", VStr "amelie");
          ("originalNormalized", VStr "lefabuleuxdestin");
          ("originalLanguage", VStr "fr");
          ("originCountries", VArr [VStr "DE"])] in
  exists high low,
    scoreLocalizedCandidate translation options = Normal high
    /\ scoreLocalizedCandidate alternative options = Normal low
    /\ high = 49%Z /\ low = 12%Z /\ (low < high)%Z.
Proof.
  intros translation alternative options.
  exact (translation_outscores_dvd translation alternative options _
           eq_refl eq_refl eq_refl eq_refl eq_refl eq_refl eq_refl eq_refl eq_refl
           eq_refl).
Defined.

Lemma buildLocalizedTitles_best_witness :
  let translations :=
    VArr [VObj [("iso_639_1", VStr "de"); ("data", VObj [("title", VStr "Erste")])];
          VObj [("iso_639_1", VStr "de"); ("data", VObj [("title", VStr "Zweite")])]] in
  let localized :=
    [("de", VObj [("title", VStr "Erste"); ("overview", VNull); ("tagline", VNull);
                  ("source", VStr "translation"); ("type", VNull)])] in
  NoDup (map fst localized)
  /\ exists candidateMap,
       registeredCandidates translations VUndefined VUndefined = Normal candidateMap
       /\ forall token,
            match lookup token localized with
            | Some entry =>
                exists scoring,
                  scoringOptions (withDefault VUndefined (VObj [])) = Normal scoring
                  /\ firstBestOf scoring (candidatesOf token candidateMap) entry
            | None => candidatesOf token candidateMap = [] \/ token = "__proto__"
            end.
Proof.
  intros translations localized.
  exact (buildLocalizedTitles_best translations VUndefined VUndefined localized eq_refl).
Defined.

(** *** Instances of the further properties

    First, the reference platform leaves a string of the characters a-z
    and 0-9 as it is. *)

Lemma alphanumeric_not_blank (c : ascii) :
  byte_in 97 122 c || byte_in 48 57 c = true -> is_blank c = false.
Proof.
  unfold byte_in, is_blank. generalize (nat_of_ascii c) as n. intros n H.
  apply orb_true_iff in H as [H | H]; apply andb_true_iff in H as [H1 H2];
    apply Nat.leb_le in H1, H2; apply orb_false_iff; split;
    try (apply Nat.eqb_neq; lia);
    apply andb_false_iff; (left; apply Nat.leb_gt; lia) || (right; apply Nat.leb_gt; lia).
Qed.

Lemma alphanumeric_lower (c : ascii) :
  byte_in 97 122 c || byte_in 48 57 c = true -> ascii_lower c = c.
Proof.
  unfold byte_in, ascii_lower. cbv zeta. generalize (nat_of_ascii c) as n. intros n H.
  replace ((65 <=? n)%nat && (n <=? 90)%nat) with false; [reflexivity |].
  symmetry. apply orb_true_iff in H as [H | H]; apply andb_true_iff in H as [H1 H2];
    apply Nat.leb_le in H1, H2; apply andb_false_iff;
    (left; apply Nat.leb_gt; lia) || (right; apply Nat.leb_gt; lia).
Qed.

Lemma trim_left_alphanumeric (s : string) : alphanumeric s = true -> trim_left s = s.
Proof.
  destruct s as [| c s]; [reflexivity |]. simpl. intros H.
  apply andb_true_iff in H as [Hc _]. now rewrite (alphanumeric_not_blank c Hc).
Qed.

Lemma string_rev_alphanumeric (s acc : string) :
  alphanumeric (string_rev s acc) = alphanumeric s && alphanumeric acc.
Proof.
  revert acc. induction s as [| c s IH]; intros acc; simpl; [reflexivity |].
  rewrite IH. simpl. now destruct (byte_in 97 122 c || byte_in 48 57 c), (alphanumeric s).
Qed.

Lemma string_rev_rev (s acc acc' : string) :
  string_rev (string_rev s acc) acc' = string_rev acc (String.append s acc').
Proof.
  revert acc. induction s as [| c s IH]; intros acc; simpl; [reflexivity |].
  now rewrite IH.
Qed.

Lemma append_empty (s : string) : String.append s "" = s.
Proof. induction s as [| c s IH]; simpl; [reflexivity | now rewrite IH]. Qed.

Lemma ascii_plain : PlainOnAlphanumeric ascii_platform.
Proof.
  split; cbn [trim toLowerCase normalizeNFKD ascii_platform].
  - intros s Hs. unfold ascii_trim. rewrite (trim_left_alphanumeric s Hs).
    rewrite trim_left_alphanumeric
      by (rewrite string_rev_alphanumeric, Hs; reflexivity).
    rewrite string_rev_rev. simpl. apply append_empty.
  - induction s as [| c s IH]; simpl; [reflexivity |]. intros H.
    apply andb_true_iff in H as [Hc Hs].
    now rewrite (alphanumeric_lower c Hc), (IH Hs).
  - reflexivity.
Qed.

Lemma normalizeTitleValue_idempotent_witness :
  alphanumeric (normalizeTitleValue (VStr "Le Fabuleux Destin (2001)")) = true
  /\ normalizeTitleValue (VStr (normalizeTitleValue (VStr "Le Fabuleux Destin (2001)")))
     = normalizeTitleValue (VStr "Le Fabuleux Destin (2001)")
  /\ containsNonAscii (VStr (normalizeTitleValue (VStr "Le Fabuleux Destin (2001)")))
     = false.
Proof.
  exact (@normalizeTitleValue_idempotent ascii_platform ascii_plain
           (VStr "Le Fabuleux Destin (2001)")).
Defined.

Lemma missing_arguments_issue_no_request_witness :
  fetchTmdbMetadata VUndefined (VStr "movie") (VStr "194") VUndefined [] = (Normal VNull, [])
  /\ fetchTmdbTranslations VUndefined (VStr "movie") (VStr "194") [] = (Normal (VArr []), [])
  /\ fetchTmdbAlternativeTitles VUndefined (VStr "movie") (VStr "194") []
     = (Normal (VArr []), [])
  /\ loadTmdbLocalization VUndefined (VStr "movie") (VStr "194") [] = (Normal VNull, [])
  /\ findTmdbIdByImdb VUndefined (VStr "tt0211915") (VStr "movie") [] = (Normal VNull, [])
  /\ searchTmdbByTitle VUndefined (VStr "movie") (VStr "Amelie") VUndefined VNull []
     = (Normal VNull, [])
  /\ resolveTmdbId VUndefined (VStr "movie") (VStr "tt0211915") (VStr "Amelie") VUndefined
       VUndefined [] = (Normal VNull, []).
Proof.
  destruct (@missing_arguments_issue_no_request ascii_platform sample_network
              VUndefined (VStr "movie") (VStr "194") (VStr "tt0211915") (VStr "Amelie")
              VUndefined VNull VUndefined [])
    as [Hfetch [Hfind [Hsearch Hresolve]]].
  destruct (Hfetch (or_introl eq_refl)) as [H1 [H2 [H3 H4]]].
  split; [exact H1 |]. split; [exact H2 |]. split; [exact H3 |]. split; [exact H4 |].
  split; [exact (Hfind (or_introl eq_refl)) |].
  split; [exact (Hsearch (or_introl eq_refl)) | exact (Hresolve (or_introl eq_refl))].
Defined.

Lemma rejections_pass_below_500_witness :
  @searchTmdbByTitle ascii_platform (refusing_network 404)
    (VStr "key") (VStr "movie") (VStr "Dark") VUndefined VNull []
  = (Normal VNull,
     [HttpGet (searchRequest (VStr "key") (VStr "movie") (VStr "Dark") VUndefined VNull)])
  /\ @findTmdbIdByImdb ascii_platform (refusing_network 404)
       (VStr "key") (VStr "tt1") (VStr "movie") []
     = (Normal VNull, [HttpGet (findRequest (VStr "key") "tt1")])
  /\ @fetchTmdbAlternativeTitles ascii_platform (refusing_network 404)
       (VStr "key") (VStr "movie") (VStr "194") []
     = (Normal (VArr []),
        [HttpGet (alternativeTitlesRequest (VStr "key") (VStr "movie") "194")]).
Proof.
  destruct (@rejections_pass_below_500 ascii_platform (refusing_network 404)
              (VStr "key") (VStr "movie") (VStr "tt1") (VStr "194") (VStr "Dark")
              VUndefined VNull []
              (VObj [("message", VStr "Request failed");
                     ("response", VObj [("status", num 404)])])
              (Fin (inject_Z 404)) eq_refl eq_refl)
    as [Hsearch [Hfind Halt]].
  split; [| split].
  - exact (Hsearch eq_refl eq_refl).
  - exact (Hfind "tt1" "tt1" eq_refl eq_refl eq_refl eq_refl).
  - exact (Halt "194" eq_refl eq_refl eq_refl eq_refl).
Defined.

Lemma fetchTmdbMetadata_on_rejection_witness :
  @fetchTmdbMetadata ascii_platform down_network
    (VStr "key") (VStr "series") (VStr "70523") (VStr " de-DE ") []
  = (Normal VNull,
     [HttpGet (metadataRequest (VStr "key") (VStr "series") "70523" (VStr " de-DE "));
      Warn "[TMDB] Metadata request failed"]).
Proof.
  exact (@fetchTmdbMetadata_on_rejection ascii_platform down_network
           (VStr "key") (VStr "series") (VStr "70523") (VStr " de-DE ") "70523" []
           (VObj [("message", VStr "connect ECONNREFUSED")])
           eq_refl eq_refl eq_refl eq_refl eq_refl).
Defined.

Lemma fetchTmdbTranslations_returns_witness :
  exists entries,
    (@fetchTmdbTranslations ascii_platform catalog_network
       (VStr "key") (VStr "movie") (VStr "194") []
     = (Normal (VArr entries),
        [] ++ [HttpGet (translationsRequest (VStr "key") (VStr "movie") "194")])
     \/ (entries = []
         /\ @fetchTmdbTranslations ascii_platform catalog_network
              (VStr "key") (VStr "movie") (VStr "194") []
            = (Normal (VArr []),
               [] ++ [HttpGet (translationsRequest (VStr "key") (VStr "movie") "194");
                      Warn "[TMDB] Translation request failed"])))
    /\ Forall (fun entry => keepsTranslation entry = true
                            /\ exists raw, entry = translationRecord raw) entries.
Proof.
  exact (@fetchTmdbTranslations_returns ascii_platform catalog_network
           (VStr "key") (VStr "movie") (VStr "194") "194" []
           eq_refl eq_refl eq_refl eq_refl).
Defined.

Lemma fetchTmdbAlternativeTitles_on_response_witness :
  let kept :=
    [VObj [("iso_3166_1", VStr "US"); ("title", VStr "Amelie from Montmartre");
           ("type", VStr "dvd"); ("iso_639_1", VNull)]] in
  @fetchTmdbAlternativeTitles ascii_platform catalog_network
    (VStr "key") (VStr "movie") (VStr "194") []
  = (Normal (VArr kept),
     [] ++ [HttpGet (alternativeTitlesRequest (VStr "key") (VStr "movie") "194")])
  /\ Forall (fun entry => truthy (get_opt entry "iso_3166_1") = true
                          /\ truthy (get_opt entry "title") = true) kept.
Proof.
  intros kept.
  exact (@fetchTmdbAlternativeTitles_on_response ascii_platform catalog_network
           (VStr "key") (VStr "movie") (VStr "194") "194" []
           _ eq_refl eq_refl eq_refl eq_refl eq_refl).
Defined.

Lemma loadTmdbLocalization_requests_witness :
  exists r t',
    @loadTmdbLocalization ascii_platform catalog_network
      (VStr "key") (VStr "movie") (VStr "194") [] = (r, t')
    /\ ((requests t' =
         requests [] ++ [metadataRequest (VStr "key") (VStr "movie") "194" VUndefined]
         /\ (r = Normal VNull \/ exists e, r = Throw e))
        \/ (requests t' =
            requests [] ++ [metadataRequest (VStr "key") (VStr "movie") "194" VUndefined;
                            translationsRequest (VStr "key") (VStr "movie") "194";
                            alternativeTitlesRequest (VStr "key") (VStr "movie") "194"]
            /\ ((exists e, r = Throw e)
                \/ exists fields,
                     r = Normal (VObj fields)
                     /\ map fst fields =
                        ["originalLanguage"; "defaultTitle"; "releaseDate";
                         "originalTitle"; "originCountries"; "localizedTitles"]))).
Proof.
  eexists. eexists. split; [reflexivity |].
  apply (@loadTmdbLocalization_requests ascii_platform catalog_network
           (VStr "key") (VStr "movie") (VStr "194") "194" []);
    reflexivity.
Defined.

Lemma resolveTmdbId_resolution_witness :
  let found :=
    VObj [("tmdbId", VStr "194"); ("title", VStr "Amelie");
          ("releaseDate", VStr "2001-04-25"); ("mediaType", VNull)] in
  tagged found (VStr "imdb") = VNull \/ resolution (tagged found (VStr "imdb")).
Proof.
  intros found.
  exact (@resolveTmdbId_resolution ascii_platform sample_network
           (VStr "key") (VStr "movie") (VStr "tt0211915") (VStr "Amelie")
           VUndefined (VArr [VStr "fr-FR"]) [] _ (tagged found (VStr "imdb")) eq_refl).
Defined.

Lemma buildLocalizedTitles_entries_witness :
  "de" <> "" /\ "de" <> "__proto__"
  /\ localizedTitle
       (VObj [("title", VStr "Erste"); ("overview", VNull); ("tagline", VNull);
              ("source", VStr "translation"); ("type", VNull)]).
Proof.
  exact (@buildLocalizedTitles_entries ascii_platform
           (VArr [VObj [("iso_639_1", VStr "de"); ("data", VObj [("title", VStr "Erste")])];
                  VObj [("iso_639_1", VStr "de"); ("data", VObj [("title", VStr "Zweite")])]])
           VUndefined VUndefined
           [("de", VObj [("title", VStr "Erste"); ("overview", VNull); ("tagline", VNull);
                         ("source", VStr "translation"); ("type", VNull)])]
           "de" _ eq_refl eq_refl).
Defined.

Lemma buildLocalizedTitles_returns_witness :
  exists localized,
    buildLocalizedTitles
      (VArr [VObj [("iso_639_1", VStr "de"); ("iso_3166_1", VStr "DE");
                   ("data", VObj [("title", VStr "Erste"); ("overview", num 5)])];
             VNull;
             VObj [("iso_639_1", VStr "fr"); ("data", VStr "text")]])
      (VArr [VObj [("iso_3166_1", VStr "US"); ("title", VStr "First"); ("type", num 3)];
             VObj [("title", VStr "No country")]])
      VUndefined
    = Normal (VObj localized).
Proof.
  apply (@buildLocalizedTitles_returns ascii_platform
           [VObj [("iso_639_1", VStr "de"); ("iso_3166_1", VStr "DE");
                  ("data", VObj [("title", VStr "Erste"); ("overview", num 5)])];
            VNull;
            VObj [("iso_639_1", VStr "fr"); ("data", VStr "text")]]
           [VObj [("iso_3166_1", VStr "US"); ("title", VStr "First"); ("type", num 3)];
            VObj [("title", VStr "No country")]]
           VUndefined).
  - discriminate.
  - repeat constructor.
  - repeat constructor.
Defined.

Lemma searchTmdbByTitle_on_response_witness :
  @searchTmdbByTitle ascii_platform catalog_network
    (VStr "key") (VStr "movie") (VStr "Amelie") (num 2001) (VStr "  ") []
  = (Normal (VObj [("tmdbId", VStr "194"); ("title", VStr "Amelie");
                   ("releaseDate", VStr "2001-04-25"); ("language", VStr "en-US")]),
     [] ++ [HttpGet (searchRequest (VStr "key") (VStr "movie") (VStr "Amelie") (num 2001)
                       (VStr "  "))]).
Proof.
  exact (@searchTmdbByTitle_on_response ascii_platform catalog_network
           (VStr "key") (VStr "movie") (VStr "Amelie") (num 2001) (VStr "  ") []
           _ eq_refl eq_refl eq_refl eq_refl "194" eq_refl).
Defined.

Lemma findTmdbIdByImdb_on_response_witness :
  @findTmdbIdByImdb ascii_platform catalog_network
    (VStr "key") (VStr "tt0211915") (VStr "movie") []
  = (Normal (VObj [("tmdbId", VStr "194"); ("title", VStr "Amelie");
                   ("releaseDate", VNull); ("mediaType", VNull)]),
     [] ++ [HttpGet (findRequest (VStr "key") "tt0211915")]).
Proof.
  exact (@findTmdbIdByImdb_on_response ascii_platform catalog_network
           (VStr "key") (VStr "tt0211915") (VStr "movie") "tt0211915" "tt0211915" []
           _ eq_refl eq_refl eq_refl eq_refl eq_refl eq_refl "194" eq_refl).
Defined.

End TmdbFacts.
